(** * mixorama: mixing and signal utilities over 16-bit PCM samples

    A shallow embedding of the Go sources of xyproto/mixorama
    ([mix.go]: LinearSummation, WeightedSummation, RMSMixing;
    [samples.go]: LowPassFilter, NormalizeSamples, FindPeakAmplitude,
    AnalyzeHighestFrequency) together with the properties of the design
    document that concern them.

    Data model.
    - [int16], [int32] and [int] values are integers of [Z]; narrowing and
      overflow are written out with [wrap].
    - [float64] values are [spec_float]s of the Standard Library at
      precision 53 and maximal exponent 1024, i.e. IEEE 754 binary64 with
      round-to-nearest-even, the arithmetic Go prescribes; every
      operation is rounded on its own.
    - a slice is a [list]; reading [s[i]] out of range is a run-time panic.
    - a Go function returning [([]int16, error)] returns an [outcome]. *)

From Stdlib Require Import ZArith Lia Bool SpecFloat.
From stdpp Require Import base list.

Local Open Scope Z_scope.

(** ** Results of a call *)

(** The three [errors.New] values of [mix.go], named as in the design
    document. *)
Inductive error : Type :=
| EmptyInput            (* "no samples provided" *)
| LengthMismatch        (* "mismatched sample lengths" *)
| WeightCountMismatch.  (* "number of weights must match number of samples" *)

(** [Ret v] is a normal return ([v, nil]), [Fail e] is [return nil, e]
    (no slice is returned with an error) and [Panic] is the run-time panic
    of an index out of range. *)
Inductive outcome (A : Type) : Type :=
| Ret (a : A)
| Fail (e : error)
| Panic.

Arguments Ret {A} a.
Arguments Fail {A} e.
Arguments Panic {A}.

#[global] Instance outcome_bind : MBind outcome := λ A B k m,
  match m with
  | Ret a => k a
  | Fail e => Fail e
  | Panic => Panic
  end.

(** [s[i]]: the element, or a panic when [i] is out of range. *)
Definition index {A : Type} (s : list A) (i : nat) : outcome A :=
  match s !! i with
  | Some x => Ret x
  | None => Panic
  end.

(** [s[i] = v]: the updated slice, or a panic when [i] is out of range. *)
Definition store {A : Type} (s : list A) (i : nat) (v : A) : outcome (list A) :=
  if decide (i < length s)%nat then Ret (<[i := v]> s) else Panic.

(** [for i := start; i < start + count; i++ { s = body i s }], where the
    body may return early with an error or panic. *)
Fixpoint for_range {S : Type} (body : nat -> S -> outcome S)
    (start count : nat) (s : S) : outcome S :=
  match count with
  | O => Ret s
  | Datatypes.S count' => s' ← body start s; for_range body (Datatypes.S start) count' s'
  end.

(** [for j, x := range xs { s = body j x s }], [j] counting from [j0]. *)
Fixpoint for_each {A S : Type} (body : nat -> A -> S -> outcome S)
    (j0 : nat) (xs : list A) (s : S) : outcome S :=
  match xs with
  | [] => Ret s
  | x :: xs' => s' ← body j0 x s; for_each body (Datatypes.S j0) xs' s'
  end.

(** ** Machine integers *)

(** Two's-complement narrowing to [w] bits. *)
Definition wrap (w : Z) (z : Z) : Z :=
  (z + 2 ^ (w - 1)) mod 2 ^ w - 2 ^ (w - 1).

Definition MaxInt16 : Z := 32767.
Definition MinInt16 : Z := -32768.

Definition is_int16 (z : Z) : Prop := MinInt16 <= z <= MaxInt16.

(** A waveform is a slice of int16 samples. *)
Abbreviation waveform := (list Z).

Definition wf_waveform (w : waveform) : Prop := Forall is_int16 w.

(** [int32(x) + int32(y)] with wrap-around. *)
Definition int32_add (x y : Z) : Z := wrap 32 (x + y).

(** [int16(x)] for an integer [x]. *)
Definition int16_of_int (x : Z) : Z := wrap 16 x.

(** ** float64 *)

Abbreviation float64 := spec_float.

Definition prec : Z := 53.
Definition emax : Z := 1024.

(** [float64(z)] for an integer [z]. *)
Definition f64_of_int (z : Z) : float64 := binary_normalize prec emax z 0 false.

Definition f64_add : float64 -> float64 -> float64 := SFadd prec emax.
Definition f64_mul : float64 -> float64 -> float64 := SFmul prec emax.
Definition f64_div : float64 -> float64 -> float64 := SFdiv prec emax.
Definition f64_sqrt : float64 -> float64 := SFsqrt prec emax.
Definition f64_abs : float64 -> float64 := SFabs.
Definition f64_lt : float64 -> float64 -> bool := SFltb.
Definition f64_gt (x y : float64) : bool := SFltb y x.

(** The integer part of a finite float, rounded toward zero. *)
Definition f64_trunc (f : float64) : option Z :=
  match f with
  | S754_zero _ => Some 0
  | S754_finite s m e =>
      Some (cond_Zopp s (match e with
                         | Z0 => Zpos m
                         | Zpos p => Zpos m * 2 ^ Zpos p
                         | Zneg p => Zpos m / 2 ^ Zpos p
                         end))
  | S754_infinity _ | S754_nan => None
  end.

(** [int16(f)] for a float [f].  The fraction is discarded.  The compiler
    converts to a 32-bit integer and keeps its low 16 bits; when the
    integer part does not fit 32 bits (or [f] is an infinity or a NaN) the
    language leaves the result to the implementation, and the amd64
    conversion instruction gives 0x80000000, whose low 16 bits are 0. *)
Definition int16_of_f64 (f : float64) : Z :=
  match f64_trunc f with
  | Some z => if (- 2 ^ 31 <=? z) && (z <? 2 ^ 31) then wrap 16 z else 0
  | None => 0
  end.

(** The constant [2.0 * math.Pi] as a float64 (0x401921FB54442D18). *)
Definition f64_two_pi : float64 := S754_finite false 7074237752028440 (-50).

(** ** mix.go *)

Section MixLoops.
Variable numSamples : nat.

(** One step of the inner loop of LinearSummation, the length check
    before the read. *)
Definition linear_step (i : nat) (_ : nat) (sample : waveform) (sum : Z) : outcome Z :=
  if decide (length sample ≠ numSamples) then Fail LengthMismatch
  else x ← index sample i; Ret (int32_add sum x).

Definition clamp_int32 (sum : Z) : Z :=
  if MaxInt16 <? sum then MaxInt16
  else if sum <? MinInt16 then MinInt16
  else sum.

Definition linear_body (samples : list waveform) (i : nat) (combined : waveform)
  : outcome waveform :=
  sum ← for_each (linear_step i) 0 samples 0;
  store combined i (int16_of_int (clamp_int32 sum)).

(** The float clamp shared by WeightedSummation and RMSMixing. *)
Definition clamp_f64 (x : float64) : float64 :=
  if f64_gt x (f64_of_int MaxInt16) then f64_of_int MaxInt16
  else if f64_lt x (f64_of_int MinInt16) then f64_of_int MinInt16
  else x.

Definition weighted_step (weights : list float64) (i : nat) (j : nat)
    (sample : waveform) (sum : float64) : outcome float64 :=
  if decide (length sample ≠ numSamples) then Fail LengthMismatch
  else x ← index sample i;
       wj ← index weights j;
       Ret (f64_add sum (f64_mul (f64_of_int x) wj)).

Definition weighted_body (weights : list float64) (samples : list waveform)
    (i : nat) (combined : waveform) : outcome waveform :=
  sum ← for_each (weighted_step weights i) 0 samples (f64_of_int 0);
  store combined i (int16_of_f64 (clamp_f64 sum)).

Definition rms_step (i : nat) (_ : nat) (sample : waveform) (sumSquares : float64)
  : outcome float64 :=
  if decide (length sample ≠ numSamples) then Fail LengthMismatch
  else x ← index sample i;
       Ret (f64_add sumSquares (f64_mul (f64_of_int x) (f64_of_int x))).

Definition rms_body (samples : list waveform) (i : nat) (combined : waveform)
  : outcome waveform :=
  sumSquares ← for_each (rms_step i) 0 samples (f64_of_int 0);
  let rms := f64_sqrt (f64_div sumSquares (f64_of_int (Z.of_nat (length samples)))) in
  store combined i (int16_of_f64 (clamp_f64 rms)).
End MixLoops.

Definition LinearSummation (samples : list waveform) : outcome waveform :=
  match samples with
  | [] => Fail EmptyInput
  | first :: _ =>
      let numSamples := length first in
      for_range (linear_body numSamples samples) 0 numSamples (replicate numSamples 0)
  end.

Definition WeightedSummation (weights : list float64) (samples : list waveform)
  : outcome waveform :=
  if decide (length weights ≠ length samples) then Fail WeightCountMismatch
  else match samples with
       | [] => Fail EmptyInput
       | first :: _ =>
           let numSamples := length first in
           for_range (weighted_body numSamples weights samples) 0 numSamples
                     (replicate numSamples 0)
       end.

Definition RMSMixing (samples : list waveform) : outcome waveform :=
  match samples with
  | [] => Fail EmptyInput
  | first :: _ =>
      let numSamples := length first in
      for_range (rms_body numSamples samples) 0 numSamples (replicate numSamples 0)
  end.

(** ** samples.go *)

Definition abs_int16 (sample : Z) : Z :=
  int16_of_f64 (f64_abs (f64_of_int sample)).

Definition FindPeakAmplitude (samples : waveform) : Z :=
  fold_left (fun maxAmplitude sample =>
               let abs := abs_int16 sample in
               if maxAmplitude <? abs then abs else maxAmplitude)
            samples 0.

Definition normalize_body (samples : waveform) (scale : float64) (i : nat)
    (normalizedSamples : waveform) : outcome waveform :=
  x ← index samples i;
  let normalized := f64_mul (f64_of_int x) scale in
  if f64_gt normalized (f64_of_int MaxInt16) then store normalizedSamples i MaxInt16
  else if f64_lt normalized (f64_of_int MinInt16) then store normalizedSamples i MinInt16
  else store normalizedSamples i (int16_of_f64 normalized).

Definition NormalizeSamples (samples : waveform) (targetPeak : Z) : outcome waveform :=
  let currentPeak := FindPeakAmplitude samples in
  if currentPeak =? 0 then Ret samples
  else
    let scale := f64_div (f64_of_int targetPeak) (f64_of_int currentPeak) in
    let l := length samples in
    for_range (normalize_body samples scale) 0 l (replicate l 0).

Definition lowpass_body (samples : waveform) (alpha : float64) (i : nat)
    (filteredSamples : waveform) : outcome waveform :=
  prev ← index filteredSamples (i - 1);
  x ← index samples i;
  let d := SFsub prec emax (f64_of_int x) (f64_of_int prev) in
  store filteredSamples i
        (int16_of_f64 (f64_add (f64_of_int prev) (f64_mul alpha d))).

Definition LowPassFilter (samples : waveform) (sampleRate : Z) (cutoffFrequency : float64)
  : outcome waveform :=
  let rc := f64_div (f64_of_int 1) (f64_mul f64_two_pi cutoffFrequency) in
  let dt := f64_div (f64_of_int 1) (f64_of_int sampleRate) in
  let alpha := f64_div dt (f64_add rc dt) in
  let filteredSamples := replicate (length samples) 0 in
  s0 ← index samples 0;
  filteredSamples ← store filteredSamples 0 s0;
  for_range (lowpass_body samples alpha) 1 (length samples - 1) filteredSamples.

(** [cmd/mix] and [cmd/rms] carry a verbatim copy of LowPassFilter. *)
Definition lowPassFilter : waveform -> Z -> float64 -> outcome waveform := LowPassFilter.

Definition crossing (a b : Z) : bool :=
  ((0 <? a) && (b <? 0)) || ((a <? 0) && (0 <? b)).

Definition crossings_body (samples : waveform) (i : nat) (zeroCrossings : Z) : outcome Z :=
  a ← index samples (i - 1);
  b ← index samples i;
  Ret (if crossing a b then zeroCrossings + 1 else zeroCrossings).

Definition AnalyzeHighestFrequency (samples : waveform) (sampleRate : Z) : outcome float64 :=
  let l := length samples in
  zeroCrossings ← for_range (crossings_body samples) 1 (l - 1) 0;
  let duration := f64_div (f64_of_int (Z.of_nat l)) (f64_of_int sampleRate) in
  Ret (f64_div (f64_of_int zeroCrossings) (f64_mul (f64_of_int 2) duration)).

(** *** PadSamples *)

(** The builtin [copy(dst, src)]: the first [min(len(dst), len(src))]
    elements of [dst] are replaced by those of [src]. *)
Definition copy (dst src : waveform) : waveform :=
  take (length dst) src ++ drop (length src) dst.

Definition PadSamples (wave1 wave2 : waveform) : waveform * waveform :=
  let length1 := length wave1 in
  let length2 := length wave2 in
  if decide (length1 = length2) then (wave1, wave2)
  else if decide (length1 < length2)%nat then
    let paddedWave1 := copy (replicate length2 0) wave1 in
    (paddedWave1, wave2)
  else
    let paddedWave2 := copy (replicate length1 0) wave2 in
    (wave1, paddedWave2).

(** *** LoadWav, after the decoder *)

(** The conversion loops of LoadWav, run on the buffer that the decoder
    returned: [data] is [intBuffer.Data] (a slice of [int]) and
    [numChannels] is [intBuffer.Format.NumChannels].  Opening the file
    and decoding it are outside the model. *)
Definition loadwav_mono_body (data : list Z) (i : nat) (stereoSamples : waveform)
  : outcome waveform :=
  d ← index data i;
  let monoSample := int16_of_int d in
  stereoSamples ← store stereoSamples (2 * i) monoSample;
  store stereoSamples (2 * i + 1) monoSample.

Definition loadwav_stereo_body (data : list Z) (i : nat) (stereoSamples : waveform)
  : outcome waveform :=
  d ← index data i;
  store stereoSamples i (int16_of_int d).

Definition LoadWav_convert (numChannels : Z) (data : list Z) : outcome waveform :=
  if numChannels =? 1 then
    let l := length data in
    for_range (loadwav_mono_body data) 0 l (replicate (l * 2) 0)
  else
    let l := length data in
    for_range (loadwav_stereo_body data) 0 l (replicate l 0).

(** *** SaveWav, before the encoder *)

(** The buffer that SaveWav hands to the encoder (always declared as one
    channel): [intBuffer.Data[i] = int(sample)]. *)
Definition savewav_body (i : nat) (sample : Z) (data : list Z) : outcome (list Z) :=
  store data i sample.

Definition SaveWav_buffer (samples : waveform) : outcome (list Z) :=
  for_each savewav_body 0 samples (replicate (length samples) 0).

(** *** The commands *)

(** The averaging loop of [cmd/mix]'s [main], which overwrites [combined]
    in place; the division of Go truncates toward zero. *)
Definition average_body (wave : waveform) (i : nat) (combined : waveform)
  : outcome waveform :=
  x ← index combined i;
  y ← index wave i;
  let weightedSum := Z.quot (int32_add x y) 2 in
  if MaxInt16 <? weightedSum then store combined i MaxInt16
  else if weightedSum <? MinInt16 then store combined i MinInt16
  else store combined i (int16_of_int weightedSum).

Definition average_mix (combined wave : waveform) : outcome waveform :=
  for_range (average_body wave) 0 (length combined) combined.

(** One round of [cmd/mix]'s loop over the input files: pad, then average. *)
Definition mix_file (combined wave : waveform) : outcome waveform :=
  let '(combined, wave) := PadSamples combined wave in
  average_mix combined wave.

(** One round of [cmd/rms]'s loop over the input files: pad, then
    RMSMixing. *)
Definition rms_file (combined wave : waveform) : outcome waveform :=
  let '(combined, wave) := PadSamples combined wave in
  RMSMixing [combined; wave].








(** The smoothing factor of LowPassFilter. *)
Definition lowpass_alpha (sampleRate : Z) (cutoffFrequency : float64) : float64 :=
  let rc := f64_div (f64_of_int 1) (f64_mul f64_two_pi cutoffFrequency) in
  let dt := f64_div (f64_of_int 1) (f64_of_int sampleRate) in
  f64_div dt (f64_add rc dt).

(** ** Specification-level notions *)

(** Clamp to the int16 range. *)
Definition saturate (z : Z) : Z := Z.max MinInt16 (Z.min MaxInt16 z).

(** Sample [i] of a waveform (0 when out of range; only used in range). *)
Definition sample_at (w : waveform) (i : nat) : Z := default 0 (w !! i).

(** The exact sum of sample [i] over all inputs. *)
Definition column_sum (samples : list waveform) (i : nat) : Z :=
  foldr (fun w acc => sample_at w i + acc) 0 samples.

(** The sum of the squares of sample [i] over all inputs. *)
Definition column_squares (samples : list waveform) (i : nat) : Z :=
  foldr (fun w acc => sample_at w i * sample_at w i + acc) 0 samples.

(** The weight 0.5. *)
Definition f64_half : float64 := S754_finite false 4503599627370496 (-53).

(** The largest absolute sample value, 0 for the empty waveform. *)
Definition max_abs (w : waveform) : Z :=
  foldr (fun s acc => Z.max (Z.abs s) acc) 0 w.



(** The weight 1.0. *)
Definition f64_one : float64 := S754_finite false 4503599627370496 (-52).

(** Zero or a finite float: neither an infinity nor a NaN. *)
Definition is_finite (f : float64) : Prop :=
  match f with
  | S754_zero _ | S754_finite _ _ _ => True
  | _ => False
  end.

(** Half of an integer, rounded to the nearest integer with ties away
    from zero ([math.Round]) and with ties to even ([math.RoundToEven]). *)
Definition round_half_away (n : Z) : Z := Z.quot (n + Z.sgn n) 2.
Definition round_half_even (n : Z) : Z :=
  if Z.even n then n / 2 else if Z.even (n / 2) then n / 2 else n / 2 + 1.

(** [r] is the nearest integer to the square root of [k / 2]. *)
Definition nearest_sqrt_half (k r : Z) : Prop :=
  0 <= r /\ (2 * r - 1) * (2 * r - 1) < 2 * k < (2 * r + 1) * (2 * r + 1).

(** A non-negative float that is not a NaN: +0, +infinity, or a positive
    finite float with a 53-digit mantissa and an exponent of at least [lo]. *)
Definition pos_shape (lo : Z) (f : float64) : Prop :=
  match f with
  | S754_zero false => True
  | S754_infinity false => True
  | S754_finite false m e => Zpos (digits2_pos m) = 53 /\ lo <= e <= 971
  | _ => False
  end.

(** The number of strict sign changes between neighbours of a waveform. *)
Fixpoint count_sign_changes (w : waveform) : Z :=
  match w with
  | a :: (b :: _) as tl => (if crossing a b then 1 else 0) + count_sign_changes tl
  | _ => 0
  end.

(** One normalized sample: the product with the scale factor, clamped and
    narrowed to int16. *)
Definition normalize_sample (scale : float64) (s : Z) : Z :=
  int16_of_f64 (clamp_f64 (f64_mul (f64_of_int s) scale)).

(** The float of the dyadic number [z * 2^e]. *)
Definition dyadic (z e : Z) : float64 := binary_normalize prec emax z e false.

(** Zero, or a finite float with a full 53-digit mantissa. *)
Definition normal (f : float64) : Prop :=
  match f with
  | S754_zero _ => True
  | S754_finite _ m e => Zpos (digits2_pos m) = 53 /\ -1074 <= e <= 971
  | _ => False
  end.

(** The value of a finite float in units of 2^-1074. *)
Definition sval (f : float64) : Z :=
  match f with
  | S754_finite s m e => cond_Zopp s (Zpos m * 2 ^ (e + 1074))
  | _ => 0
  end.

(** * Properties *)

(** ** Loops *)

Section LoopFacts.
Context {S : Type}.

(** An error in the first iteration ends the loop. *)
Lemma for_range_fail (body : nat -> S -> outcome S) e start count s :
  body start s = Fail e ->
  for_range body start (Datatypes.S count) s = Fail e.
Proof. intros H. simpl. rewrite H. reflexivity. Qed.

(** A loop whose body returns normally and keeps an invariant returns
    normally with the invariant. *)
Lemma for_range_inv (body : nat -> S -> outcome S) (I : S -> Prop) n :
  (forall i s, (i < n)%nat -> I s -> exists s', body i s = Ret s' /\ I s') ->
  forall count start s,
    (start + count = n)%nat -> I s ->
    exists out, for_range body start count s = Ret out /\ I out.
Proof.
  intros Hb. induction count as [|count IH]; intros start s Hn Hs.
  - exists s. split; [reflexivity | assumption].
  - simpl. destruct (Hb start s) as (s' & Hs' & HI); [lia | assumption |].
    rewrite Hs'. simpl. apply IH; [lia | assumption].
Qed.
End LoopFacts.

(** A loop that stores [f i] at index [i] of a slice of length [n], for
    [i] from [start] to [n], leaves the slice filled with the values of
    [f] from [start] on. *)
Lemma for_range_fill (f : nat -> Z) (body : nat -> waveform -> outcome waveform) n :
  (forall i s, (i < n)%nat -> length s = n -> body i s = Ret (<[i := f i]> s)) ->
  forall count start s,
    (start + count = n)%nat -> length s = n ->
    for_range body start count s = Ret (take start s ++ map f (seq start count)).
Proof.
  intros Hb. induction count as [|count IH]; intros start s Hn Hl.
  - simpl. rewrite app_nil_r, take_ge by lia. reflexivity.
  - simpl. rewrite Hb by lia. simpl.
    rewrite IH by (rewrite ?length_insert; lia).
    f_equal.
    rewrite (take_S_r (<[start:=f start]> s) start (f start))
      by (apply list_lookup_insert_eq; lia).
    rewrite take_insert_ge by lia.
    rewrite <- app_assoc. reflexivity.
Qed.

Lemma for_range_fill_all (f : nat -> Z) (body : nat -> waveform -> outcome waveform) n :
  (forall i s, (i < n)%nat -> length s = n -> body i s = Ret (<[i := f i]> s)) ->
  for_range body 0 n (replicate n 0) = Ret (map f (seq 0 n)).
Proof.
  intros Hb. rewrite (for_range_fill f body n Hb) by (rewrite ?length_replicate; lia).
  reflexivity.
Qed.

Lemma store_in_range (s : waveform) i v :
  (i < length s)%nat -> store s i v = Ret (<[i := v]> s).
Proof. intros H. unfold store. destruct (decide (i < length s)%nat); [reflexivity|lia]. Qed.

Lemma index_in_range (w : waveform) i :
  (i < length w)%nat -> index w i = Ret (sample_at w i).
Proof.
  intros H. unfold index, sample_at.
  destruct (lookup_lt_is_Some_2 w i H) as [x Hx]. rewrite !Hx. reflexivity.
Qed.

Lemma sample_at_int16 (w : waveform) i :
  wf_waveform w -> (i < length w)%nat -> is_int16 (sample_at w i).
Proof.
  intros Hw H. unfold sample_at.
  destruct (lookup_lt_is_Some_2 w i H) as [x Hx]. rewrite Hx. simpl.
  eapply Forall_lookup_1; eauto.
Qed.

(** ** Machine integers *)

Lemma wrap32_id z : - 2 ^ 31 <= z < 2 ^ 31 -> wrap 32 z = z.
Proof.
  intros H. unfold wrap. change (32 - 1) with 31.
  change (2 ^ 32) with (2 * 2 ^ 31). rewrite Z.mod_small; lia.
Qed.

Lemma wrap16_id z : is_int16 z -> wrap 16 z = z.
Proof.
  unfold is_int16, MinInt16, MaxInt16. intros H. unfold wrap.
  change (2 ^ (16 - 1)) with 32768. change (2 ^ 16) with 65536.
  rewrite Z.mod_small; lia.
Qed.

Lemma saturate_int16 z : is_int16 (saturate z).
Proof. unfold is_int16, saturate, MinInt16, MaxInt16. lia. Qed.

Lemma clamp_int32_saturate z : int16_of_int (clamp_int32 z) = saturate z.
Proof.
  unfold int16_of_int, clamp_int32, saturate, MaxInt16, MinInt16.
  destruct (32767 <? z) eqn:E1; [|destruct (z <? -32768) eqn:E2];
    rewrite wrap16_id; unfold is_int16, MinInt16, MaxInt16; lia.
Qed.

(** ** LinearSummation *)

Lemma column_sum_bounds (samples : list waveform) n i :
  Forall wf_waveform samples ->
  Forall (fun w => length w = n) samples ->
  (i < n)%nat ->
  - 32768 * Z.of_nat (length samples) <= column_sum samples i
    <= 32767 * Z.of_nat (length samples).
Proof.
  intros Hwf Hlen Hi. induction samples as [|w samples IH]; simpl; [lia|].
  inversion Hwf as [|? ? Hw Hwf']; subst. inversion Hlen as [|? ? Hl Hlen']; subst.
  specialize (IH Hwf' Hlen').
  pose proof (sample_at_int16 w i Hw Hi) as Hs.
  unfold is_int16, MinInt16, MaxInt16 in Hs. lia.
Qed.

Lemma linear_step_ok n i j (w : waveform) sum :
  length w = n -> (i < n)%nat ->
  linear_step n i j w sum = Ret (int32_add sum (sample_at w i)).
Proof.
  intros Hl Hi. unfold linear_step.
  destruct (decide (length w ≠ n)) as [Hne|_]; [congruence|].
  rewrite index_in_range by lia. reflexivity.
Qed.

Lemma linear_step_mismatch n i j (w : waveform) sum :
  length w ≠ n -> linear_step n i j w sum = Fail LengthMismatch.
Proof.
  intros Hl. unfold linear_step.
  destruct (decide (length w ≠ n)) as [_|Hne]; [reflexivity|contradiction].
Qed.

Lemma wrap32_add a b : wrap 32 (wrap 32 a + b) = wrap 32 (a + b).
Proof.
  unfold wrap. f_equal.
  replace ((a + 2 ^ (32 - 1)) mod 2 ^ 32 - 2 ^ (32 - 1) + b + 2 ^ (32 - 1))
    with ((a + 2 ^ (32 - 1)) mod 2 ^ 32 + b) by ring.
  rewrite Z.add_mod_idemp_l by (apply Z.pow_nonzero; lia).
  f_equal. ring.
Qed.

(** The inner loop adds up column [i] modulo 2^32. *)
Lemma linear_inner_wrap n i (samples : list waveform) :
  Forall (fun w => length w = n) samples ->
  (i < n)%nat ->
  forall j0 sum,
    for_each (linear_step n i) j0 samples (wrap 32 sum)
    = Ret (wrap 32 (sum + column_sum samples i)).
Proof.
  intros Hlen Hi.
  induction samples as [|w samples IH]; intros j0 sum; simpl.
  - rewrite Z.add_0_r. reflexivity.
  - inversion Hlen as [|? ? Hl Hlen']; subst.
    rewrite linear_step_ok by (reflexivity || exact Hi). simpl.
    unfold int32_add. rewrite wrap32_add, IH by assumption.
    f_equal. f_equal. lia.
Qed.

(** Whatever the number of inputs, sample [i] of the output is the column
    sum reduced to int32 and clamped. *)
Lemma LinearSummation_wrapped (samples : list waveform) first rest :
  samples = first :: rest ->
  Forall (fun w => length w = length first) samples ->
  LinearSummation samples
  = Ret (map (fun i => saturate (wrap 32 (column_sum samples i))) (seq 0 (length first))).
Proof.
  intros Hs Hlen.
  unfold LinearSummation. rewrite Hs at 1. cbv zeta.
  apply for_range_fill_all. intros i s Hi Hl.
  unfold linear_body.
  change 0 with (wrap 32 0) at 1.
  rewrite (linear_inner_wrap (length first) i samples Hlen Hi).
  simpl. rewrite Z.add_0_l, clamp_int32_saturate.
  apply store_in_range. lia.
Qed.

Lemma LinearSummation_columns (samples : list waveform) first rest :
  samples = first :: rest ->
  Forall wf_waveform samples ->
  Forall (fun w => length w = length first) samples ->
  Z.of_nat (length samples) <= 65536 ->
  LinearSummation samples
  = Ret (map (fun i => saturate (column_sum samples i)) (seq 0 (length first))).
Proof.
  intros Hs Hwf Hlen Hcount.
  rewrite (LinearSummation_wrapped samples first rest Hs Hlen).
  f_equal. apply map_ext_in. intros i Hi. apply in_seq in Hi.
  pose proof (column_sum_bounds samples (length first) i Hwf Hlen ltac:(lia)) as Hb.
  rewrite wrap32_id by lia. reflexivity.
Qed.

Lemma column_sum_replicate k x :
  column_sum (replicate k [x]) 0 = Z.of_nat k * x.
Proof.
  induction k as [|k IH]; [reflexivity|].
  change (column_sum (replicate (Datatypes.S k) [x]) 0)
    with (sample_at [x] 0 + column_sum (replicate k [x]) 0).
  rewrite IH, Nat2Z.inj_succ. unfold sample_at. simpl. lia.
Qed.

Ltac solve_wf :=
  repeat (apply Forall_cons; split); try apply Forall_nil;
  unfold is_int16, MinInt16, MaxInt16; lia.

Lemma column_sum_two (a b : waveform) i :
  column_sum [a; b] i = sample_at a i + sample_at b i.
Proof. simpl. lia. Qed.

(** C1 (amended).  For at most 65536 equal-length waveforms (so that the
    int32 accumulator cannot wrap), LinearSummation succeeds with a
    waveform of the same length whose sample [i] is the exact sum of the
    inputs' samples at [i], clamped to [-32768, 32767]; for two waveforms
    [a] and [b] this is [saturate (a[i] + b[i])]. *)
Theorem LinearSummation_saturated_sum (samples : list waveform) first rest :
  samples = first :: rest ->
  Forall wf_waveform samples ->
  Forall (fun w => length w = length first) samples ->
  Z.of_nat (length samples) <= 65536 ->
  exists out,
    LinearSummation samples = Ret out /\
    length out = length first /\
    wf_waveform out /\
    (forall i, (i < length first)%nat ->
               out !! i = Some (saturate (column_sum samples i))) /\
    (forall a b i, samples = [a; b] -> (i < length first)%nat ->
                   out !! i = Some (saturate (sample_at a i + sample_at b i))).
Proof.
  intros Hs Hwf Hlen Hcount.
  pose proof (LinearSummation_columns samples first rest Hs Hwf Hlen Hcount) as Hout.
  eexists. split; [exact Hout|].
  assert (Hcol : forall i, (i < length first)%nat ->
            map (fun i => saturate (column_sum samples i)) (seq 0 (length first)) !! i
            = Some (saturate (column_sum samples i))).
  { intros i Hi. rewrite list_lookup_fmap, lookup_seq_lt by exact Hi. reflexivity. }
  repeat split.
  - rewrite length_map, length_seq. reflexivity.
  - apply Forall_fmap, Forall_forall. intros i _. apply saturate_int16.
  - exact Hcol.
  - intros a b i Hab Hi. rewrite Hcol by exact Hi. rewrite Hab, column_sum_two. reflexivity.
Qed.

Lemma LinearSummation_saturated_sum_witness :
  exists out,
    LinearSummation [[1000; 30000]; [2000; 30000]] = Ret out /\
    length out = 2%nat /\
    wf_waveform out /\
    (forall i, (i < 2)%nat ->
               out !! i = Some (saturate (column_sum [[1000; 30000]; [2000; 30000]] i))) /\
    (forall a b i, [[1000; 30000]; [2000; 30000]] = [a; b] -> (i < 2)%nat ->
                   out !! i = Some (saturate (sample_at a i + sample_at b i))).
Proof.
  apply (LinearSummation_saturated_sum [[1000; 30000]; [2000; 30000]]
           [1000; 30000] [[2000; 30000]]).
  - reflexivity.
  - repeat (apply Forall_cons; split); try apply Forall_nil; solve_wf.
  - repeat (apply Forall_cons; split); try apply Forall_nil; reflexivity.
  - simpl. lia.
Defined.

(** C1 as stated fails once the int32 accumulator wraps: 65539 waveforms
    holding the single sample 32767 sum to 2147516413 > 2^31 - 1, the
    accumulator turns negative and the result is clamped to -32768, while
    the saturated exact sum is 32767. *)
Lemma LinearSummation_accumulator_wraps :
  Forall wf_waveform (replicate (Z.to_nat 65539) [32767]) /\
  Forall (fun w : waveform => length w = 1%nat) (replicate (Z.to_nat 65539) [32767]) /\
  LinearSummation (replicate (Z.to_nat 65539) [32767]) = Ret [-32768] /\
  saturate (column_sum (replicate (Z.to_nat 65539) [32767]) 0) = 32767.
Proof.
  split; [|split; [|split]].
  - apply Forall_replicate. solve_wf.
  - apply Forall_replicate. reflexivity.
  - rewrite (LinearSummation_wrapped _ [32767] (replicate (Z.to_nat 65538) [32767])).
    + cbn [length seq map]. rewrite column_sum_replicate, Z2Nat.id by lia. reflexivity.
    + replace (Z.to_nat 65539) with (Datatypes.S (Z.to_nat 65538)) by lia. reflexivity.
    + apply Forall_replicate. reflexivity.
  - rewrite column_sum_replicate, Z2Nat.id by lia. reflexivity.
Qed.

(** ** Empty input *)

(** C5 (amended).  With zero waveforms LinearSummation and RMSMixing fail
    with EmptyInput, and so does WeightedSummation when the weight list
    is empty too; with a non-empty weight list the weight-count check
    comes first and WeightedSummation fails with WeightCountMismatch. *)
Theorem empty_input_errors :
  LinearSummation [] = Fail EmptyInput /\
  RMSMixing [] = Fail EmptyInput /\
  WeightedSummation [] [] = Fail EmptyInput /\
  (forall w weights, WeightedSummation (w :: weights) [] = Fail WeightCountMismatch).
Proof. repeat split. Qed.

(** C5 as stated fails for WeightedSummation with a non-empty weight
    list: the error is WeightCountMismatch, not EmptyInput. *)
Lemma WeightedSummation_no_samples_one_weight :
  WeightedSummation [f64_half] [] = Fail WeightCountMismatch /\
  WeightedSummation [f64_half] [] <> Fail EmptyInput.
Proof. split; [reflexivity | discriminate]. Qed.

(** ** Mismatched lengths *)

Lemma weighted_step_ok n (weights : list float64) i j (w : waveform) sum wj :
  length w = n -> (i < n)%nat -> weights !! j = Some wj ->
  weighted_step n weights i j w sum
  = Ret (f64_add sum (f64_mul (f64_of_int (sample_at w i)) wj)).
Proof.
  intros Hl Hi Hj. unfold weighted_step.
  destruct (decide (length w ≠ n)) as [Hne|_]; [congruence|].
  rewrite index_in_range by lia. simpl.
  unfold index. rewrite Hj. reflexivity.
Qed.

Lemma weighted_step_mismatch n (weights : list float64) i j (w : waveform) sum :
  length w ≠ n -> weighted_step n weights i j w sum = Fail LengthMismatch.
Proof.
  intros Hl. unfold weighted_step.
  destruct (decide (length w ≠ n)) as [_|Hne]; [reflexivity|contradiction].
Qed.

Lemma rms_step_ok n i j (w : waveform) sum :
  length w = n -> (i < n)%nat ->
  rms_step n i j w sum
  = Ret (f64_add sum (f64_mul (f64_of_int (sample_at w i)) (f64_of_int (sample_at w i)))).
Proof.
  intros Hl Hi. unfold rms_step.
  destruct (decide (length w ≠ n)) as [Hne|_]; [congruence|].
  rewrite index_in_range by lia. reflexivity.
Qed.

Lemma rms_step_mismatch n i j (w : waveform) sum :
  length w ≠ n -> rms_step n i j w sum = Fail LengthMismatch.
Proof.
  intros Hl. unfold rms_step.
  destruct (decide (length w ≠ n)) as [_|Hne]; [reflexivity|contradiction].
Qed.

(** The inner loops meet the first waveform of the wrong length before
    they read from it, whatever was accumulated so far. *)
Lemma linear_inner_mismatch n i (samples : list waveform) :
  (i < n)%nat ->
  Exists (fun w => length w ≠ n) samples ->
  forall j0 sum, for_each (linear_step n i) j0 samples sum = Fail LengthMismatch.
Proof.
  intros Hi Hex. induction samples as [|w samples IH]; intros j0 sum.
  - inversion Hex.
  - simpl. destruct (decide (length w = n)) as [Hl|Hl].
    + rewrite linear_step_ok by assumption. simpl. apply IH.
      inversion Hex; subst; [contradiction | assumption].
    + rewrite linear_step_mismatch by assumption. reflexivity.
Qed.

Lemma rms_inner_mismatch n i (samples : list waveform) :
  (i < n)%nat ->
  Exists (fun w => length w ≠ n) samples ->
  forall j0 sum, for_each (rms_step n i) j0 samples sum = Fail LengthMismatch.
Proof.
  intros Hi Hex. induction samples as [|w samples IH]; intros j0 sum.
  - inversion Hex.
  - simpl. destruct (decide (length w = n)) as [Hl|Hl].
    + rewrite rms_step_ok by assumption. simpl. apply IH.
      inversion Hex; subst; [contradiction | assumption].
    + rewrite rms_step_mismatch by assumption. reflexivity.
Qed.

Lemma weighted_inner_mismatch n (weights : list float64) i (samples : list waveform) :
  (i < n)%nat ->
  Exists (fun w => length w ≠ n) samples ->
  forall j0 sum,
    (j0 + length samples <= length weights)%nat ->
    for_each (weighted_step n weights i) j0 samples sum = Fail LengthMismatch.
Proof.
  intros Hi Hex. induction samples as [|w samples IH]; intros j0 sum Hj.
  - inversion Hex.
  - simpl in Hj |- *. destruct (decide (length w = n)) as [Hl|Hl].
    + destruct (lookup_lt_is_Some_2 weights j0) as [wj Hwj]; [lia|].
      rewrite (weighted_step_ok n weights i j0 w sum wj) by assumption. simpl.
      apply IH; [|lia]. inversion Hex; subst; [contradiction | assumption].
    + rewrite weighted_step_mismatch by assumption. reflexivity.
Qed.

Lemma nonempty_length (first : waveform) :
  first <> [] -> exists n, length first = Datatypes.S n.
Proof. destruct first; [contradiction|]. simpl. eauto. Qed.

Lemma LinearSummation_mismatch (samples : list waveform) first rest :
  samples = first :: rest -> first <> [] ->
  Exists (fun w => length w ≠ length first) samples ->
  LinearSummation samples = Fail LengthMismatch.
Proof.
  intros Hs Hne Hex. destruct (nonempty_length first Hne) as [n Hn].
  unfold LinearSummation. rewrite Hs at 1. cbv zeta. rewrite Hn at 2.
  apply for_range_fail. unfold linear_body.
  rewrite linear_inner_mismatch by (assumption || lia). reflexivity.
Qed.

Lemma RMSMixing_mismatch (samples : list waveform) first rest :
  samples = first :: rest -> first <> [] ->
  Exists (fun w => length w ≠ length first) samples ->
  RMSMixing samples = Fail LengthMismatch.
Proof.
  intros Hs Hne Hex. destruct (nonempty_length first Hne) as [n Hn].
  unfold RMSMixing. rewrite Hs at 1. cbv zeta. rewrite Hn at 2.
  apply for_range_fail. unfold rms_body.
  rewrite rms_inner_mismatch by (assumption || lia). reflexivity.
Qed.

Lemma WeightedSummation_mismatch (weights : list float64) (samples : list waveform)
    first rest :
  samples = first :: rest -> first <> [] ->
  Exists (fun w => length w ≠ length first) samples ->
  length weights = length samples ->
  WeightedSummation weights samples = Fail LengthMismatch.
Proof.
  intros Hs Hne Hex Hw. destruct (nonempty_length first Hne) as [n Hn].
  unfold WeightedSummation.
  destruct (decide (length weights ≠ length samples)) as [Hd|_]; [contradiction|].
  rewrite Hs at 1. cbv zeta. rewrite Hn at 2.
  apply for_range_fail. unfold weighted_body.
  rewrite weighted_inner_mismatch by (assumption || lia). reflexivity.
Qed.

(** C4 (amended).  When the first waveform is non-empty and some waveform
    has another length than the first, LinearSummation and RMSMixing fail
    with LengthMismatch and return no slice, and so does
    WeightedSummation when given as many weights as waveforms. *)
Theorem length_mismatch_errors (samples : list waveform) first rest :
  samples = first :: rest ->
  first <> [] ->
  Exists (fun w => length w ≠ length first) samples ->
  LinearSummation samples = Fail LengthMismatch /\
  RMSMixing samples = Fail LengthMismatch /\
  (forall weights : list float64,
      length weights = length samples ->
      WeightedSummation weights samples = Fail LengthMismatch).
Proof.
  intros Hs Hne Hex. split; [|split].
  - eapply LinearSummation_mismatch; eassumption.
  - eapply RMSMixing_mismatch; eassumption.
  - intros weights Hw. eapply WeightedSummation_mismatch; eassumption.
Qed.

Lemma length_mismatch_errors_witness :
  LinearSummation [[1; 2; 3]; [1; 2]] = Fail LengthMismatch /\
  RMSMixing [[1; 2; 3]; [1; 2]] = Fail LengthMismatch /\
  (forall weights : list float64,
      length weights = 2%nat ->
      WeightedSummation weights [[1; 2; 3]; [1; 2]] = Fail LengthMismatch).
Proof.
  apply (length_mismatch_errors [[1; 2; 3]; [1; 2]] [1; 2; 3] [[1; 2]]).
  - reflexivity.
  - discriminate.
  - apply Exists_cons_tl, Exists_cons_hd. simpl. lia.
Defined.

(** C4 as stated fails in two ways.  WeightedSummation checks the number
    of weights first, so with a wrong number of weights a length mismatch
    is reported as WeightCountMismatch.  And the length check sits inside
    the per-index pass: when the first waveform is empty the pass has no
    iteration and every strategy returns an empty waveform without error. *)
Lemma length_mismatch_not_reported :
  Exists (fun w : waveform => length w ≠ 2%nat) [[1; 2]; [1]] /\
  WeightedSummation [f64_half] [[1; 2]; [1]] = Fail WeightCountMismatch /\
  Exists (fun w : waveform => length w ≠ 0%nat) [[]; [1; 2]] /\
  LinearSummation [[]; [1; 2]] = Ret [] /\
  RMSMixing [[]; [1; 2]] = Ret [] /\
  WeightedSummation [f64_half; f64_half] [[]; [1; 2]] = Ret [].
Proof.
  repeat split; try reflexivity.
  - apply Exists_cons_tl, Exists_cons_hd. simpl. lia.
  - apply Exists_cons_tl, Exists_cons_hd. simpl. lia.
Qed.

(** ** LowPassFilter *)

Lemma for_range_length (body : nat -> waveform -> outcome waveform) n :
  (forall i s, (0 < i < n)%nat -> length s = n ->
               exists s', body i s = Ret s' /\ length s' = n) ->
  forall count start s,
    (0 < start)%nat -> (start + count = n)%nat -> length s = n ->
    exists out, for_range body start count s = Ret out /\ length out = n.
Proof.
  intros Hb. induction count as [|count IH]; intros start s H0 Hn Hl.
  - exists s. split; [reflexivity | assumption].
  - simpl. destruct (Hb start s) as (s' & Hs' & Hl'); [lia | assumption |].
    rewrite Hs'. simpl. apply IH; [lia | lia | assumption].
Qed.

Lemma LowPassFilter_nonempty (s0 : Z) (samples : waveform) sampleRate cutoffFrequency :
  exists out, LowPassFilter (s0 :: samples) sampleRate cutoffFrequency = Ret out /\
              length out = length (s0 :: samples).
Proof.
  unfold LowPassFilter. cbv zeta.
  change (index (s0 :: samples) 0) with (Ret (A:=Z) s0).
  cbn [mbind outcome_bind].
  rewrite store_in_range by (rewrite length_replicate; simpl; lia).
  cbn [mbind outcome_bind].
  apply for_range_length.
  - intros i s Hi Hl. unfold lowpass_body.
    destruct (lookup_lt_is_Some_2 s (i - 1)) as [prev Hprev]; [lia|].
    destruct (lookup_lt_is_Some_2 (s0 :: samples) i) as [x Hx]; [lia|].
    unfold index. rewrite Hprev, Hx. cbn [mbind outcome_bind].
    rewrite store_in_range by lia.
    eexists. split; [reflexivity|]. rewrite length_insert. exact Hl.
  - lia.
  - simpl. lia.
  - rewrite length_insert, length_replicate. reflexivity.
Qed.

(** C10.  LowPassFilter (and its copy lowPassFilter in the commands)
    reads [samples[0]] before its loop: on the empty waveform every call
    panics with an index out of range, whatever the sample rate and
    cutoff frequency; on a non-empty waveform it returns a waveform of
    the same length. *)
Theorem LowPassFilter_empty_panics :
  (forall sampleRate cutoffFrequency,
      LowPassFilter [] sampleRate cutoffFrequency = Panic /\
      lowPassFilter [] sampleRate cutoffFrequency = Panic) /\
  (forall (s0 : Z) (samples : waveform) sampleRate cutoffFrequency,
      exists out, LowPassFilter (s0 :: samples) sampleRate cutoffFrequency = Ret out /\
                  length out = length (s0 :: samples)).
Proof.
  split.
  - intros sampleRate cutoffFrequency. split; reflexivity.
  - exact LowPassFilter_nonempty.
Qed.

(** ** binary64 arithmetic *)

Lemma digits2_size p : digits2_pos p = Pos.size p.
Proof. induction p; simpl; congruence. Qed.

Lemma digits_bounds p :
  2 ^ (Zpos (digits2_pos p) - 1) <= Zpos p < 2 ^ Zpos (digits2_pos p).
Proof.
  rewrite digits2_size. split.
  - pose proof (Pos.size_le p) as H.
    assert (H2 : 2 ^ Zpos (Pos.size p) <= 2 * Zpos p).
    { rewrite <- Pos2Z.inj_pow. change (2 * Zpos p) with (Zpos p~0). exact H. }
    replace (Zpos (Pos.size p)) with (Z.succ (Zpos (Pos.size p) - 1)) in H2 by lia.
    rewrite Z.pow_succ_r in H2 by lia. lia.
  - pose proof (Pos.size_gt p) as H. rewrite <- Pos2Z.inj_pow. exact H.
Qed.

Lemma digits_unique p d :
  2 ^ (d - 1) <= Zpos p < 2 ^ d -> Zpos (digits2_pos p) = d.
Proof.
  intros [Hlo Hhi]. pose proof (digits_bounds p) as [Hlo' Hhi'].
  set (d' := Zpos (digits2_pos p)) in *.
  assert (Hd' : 0 < d') by (unfold d'; lia).
  destruct (Z.lt_trichotomy d' d) as [Hlt | [Heq | Hgt]]; [|exact Heq|].
  - assert (0 <= d - 1) by lia.
    assert (2 ^ d' <= 2 ^ (d - 1)) by (apply Z.pow_le_mono_r; lia). lia.
  - assert (Hd : 0 <= d).
    { destruct (Z.le_gt_cases 0 d) as [?|Hneg]; [assumption|].
      rewrite (Z.pow_neg_r 2 d) in Hhi by lia. lia. }
    assert (2 ^ d <= 2 ^ (d' - 1)) by (apply Z.pow_le_mono_r; lia). lia.
Qed.

Lemma iter_xO_pow p n : Zpos (Pos.iter xO p n) = Zpos p * 2 ^ Zpos n.
Proof.
  induction n as [|n IH] using Pos.peano_ind.
  - simpl. lia.
  - rewrite Pos.iter_succ, Pos2Z.inj_succ, Z.pow_succ_r by lia.
    rewrite Pos2Z.inj_xO, IH. lia.
Qed.

Lemma digits_shift p n :
  Zpos (digits2_pos (Pos.iter xO p n)) = Zpos (digits2_pos p) + Zpos n.
Proof.
  apply digits_unique. rewrite iter_xO_pow.
  pose proof (digits_bounds p) as [Hlo Hhi].
  replace (Zpos (digits2_pos p) + Zpos n - 1) with ((Zpos (digits2_pos p) - 1) + Zpos n) by lia.
  rewrite !Z.pow_add_r by lia.
  assert (0 < 2 ^ Zpos n) by (apply Z.pow_pos_nonneg; lia).
  nia.
Qed.

Lemma shl_align_spec mx ex ex' :
  ex' <= ex ->
  exists mz, shl_align mx ex ex' = (mz, ex') /\ Zpos mz = Zpos mx * 2 ^ (ex - ex').
Proof.
  intros H. unfold shl_align.
  destruct (ex' - ex) as [|d|d] eqn:E.
  - exists mx. assert (ex' = ex) by lia. subst. rewrite Z.sub_diag. split; [reflexivity | simpl; lia].
  - lia.
  - exists (Pos.iter xO mx d). split; [reflexivity|].
    rewrite iter_xO_pow. f_equal. f_equal. lia.
Qed.

Lemma iter_pos_nat {A} (f : A -> A) p x :
  SpecFloat.iter_pos f p x = Nat.iter (Pos.to_nat p) f x.
Proof.
  revert x. induction p as [p IH|p IH|]; intros x; cbn [SpecFloat.iter_pos].
  - rewrite !IH, Pos2Nat.inj_xI, Nat.iter_succ_r.
    replace (2 * Pos.to_nat p)%nat with (Pos.to_nat p + Pos.to_nat p)%nat by lia.
    rewrite Nat.iter_add. reflexivity.
  - rewrite !IH, Pos2Nat.inj_xO.
    replace (2 * Pos.to_nat p)%nat with (Pos.to_nat p + Pos.to_nat p)%nat by lia.
    rewrite Nat.iter_add. reflexivity.
  - reflexivity.
Qed.

(** Shifting right. *)

Lemma shr_1_m mrs : 0 <= shr_m mrs -> shr_m (shr_1 mrs) = shr_m mrs / 2.
Proof.
  destruct mrs as [m r s]. simpl. intros Hm.
  destruct m as [|[p|p|]|p]; simpl; try reflexivity; try lia.
  - rewrite Pos2Z.inj_xI.
    apply (Z.div_unique _ _ _ 1); lia.
  - rewrite Pos2Z.inj_xO. apply (Z.div_unique _ _ _ 0); lia.
Qed.

Lemma shr_iter_m n mrs :
  0 <= shr_m mrs ->
  shr_m (Nat.iter n shr_1 mrs) = shr_m mrs / 2 ^ Z.of_nat n.
Proof.
  intros Hm. induction n as [|n IH].
  - simpl. rewrite Z.div_1_r. reflexivity.
  - rewrite Nat.iter_succ, shr_1_m, IH.
    + rewrite Nat2Z.inj_succ, Z.pow_succ_r by lia.
      rewrite Z.div_div by (try apply Z.pow_pos_nonneg; lia). f_equal. lia.
    + rewrite IH. apply Z.div_pos; [lia | apply Z.pow_pos_nonneg; lia].
Qed.

Lemma shr_iter_exact n m :
  0 <= m ->
  Nat.iter n shr_1 (Build_shr_record (m * 2 ^ Z.of_nat n) false false)
  = Build_shr_record m false false.
Proof.
  intros Hm. induction n as [|n IH].
  - simpl. f_equal. lia.
  - rewrite Nat.iter_succ_r.
    replace (shr_1 {| shr_m := m * 2 ^ Z.of_nat (S n); shr_r := false; shr_s := false |})
      with {| shr_m := m * 2 ^ Z.of_nat n; shr_r := false; shr_s := false |}; [exact IH|].
    rewrite Nat2Z.inj_succ, Z.pow_succ_r by lia.
    assert (H2 : 0 <= m * 2 ^ Z.of_nat n) by (apply Z.mul_nonneg_nonneg; [lia | apply Z.pow_nonneg; lia]).
    replace (m * (2 * 2 ^ Z.of_nat n)) with (2 * (m * 2 ^ Z.of_nat n)) by lia.
    destruct (m * 2 ^ Z.of_nat n) as [|p|p]; reflexivity.
Qed.

Lemma shr_iter_exact_Z j m :
  0 <= m -> 0 <= j ->
  Nat.iter (Z.to_nat j) shr_1 (Build_shr_record (m * 2 ^ j) false false)
  = Build_shr_record m false false.
Proof.
  intros Hm Hj. rewrite <- (shr_iter_exact (Z.to_nat j) m Hm).
  rewrite Z2Nat.id by exact Hj. reflexivity.
Qed.

Lemma round_nearest_even_cases m l :
  round_nearest_even m l = m \/ round_nearest_even m l = m + 1.
Proof.
  destruct l as [|[ | | ]]; simpl; auto. destruct (Z.even m); auto.
Qed.

(** binary64 rounding. *)

Lemma fexp_normal x : -1021 <= x -> fexp prec emax x = x - 53.
Proof. unfold fexp, emin, prec, emax. lia. Qed.

Lemma pow2_pos k : 0 <= k -> 0 < 2 ^ k.
Proof. intros. apply Z.pow_pos_nonneg; lia. Qed.

Lemma digits_mul_pow2 q m j :
  0 <= j -> Zpos q = Zpos m * 2 ^ j ->
  Zpos (digits2_pos q) = Zpos (digits2_pos m) + j.
Proof.
  intros Hj Hq. apply digits_unique. rewrite Hq.
  pose proof (digits_bounds m) as [Hlo Hhi].
  replace (Zpos (digits2_pos m) + j - 1) with ((Zpos (digits2_pos m) - 1) + j) by lia.
  rewrite !Z.pow_add_r by lia.
  pose proof (pow2_pos j Hj). nia.
Qed.

(** Shifting right by [fexp] when the mantissa has [53 + n] digits. *)
Lemma shr_fexp_digits q e l n :
  Zpos (digits2_pos q) = 53 + n -> 0 <= n -> -1074 <= e + n ->
  shr_fexp prec emax (Zpos q) e l
  = (Nat.iter (Z.to_nat n) shr_1 (shr_record_of_loc (Zpos q) l), e + n).
Proof.
  intros Hd Hn He. unfold shr_fexp. cbn [Zdigits2].
  rewrite fexp_normal by lia.
  replace (Zpos (digits2_pos q) + e - 53 - e) with n by lia.
  unfold shr. destruct n as [|n|n]; [| |lia].
  - simpl. f_equal. lia.
  - rewrite iter_pos_nat. reflexivity.
Qed.

Lemma bra_exact s q m j e :
  Zpos q = Zpos m * 2 ^ j -> 0 <= j ->
  Zpos (digits2_pos m) = 53 ->
  -1074 <= e + j <= 971 ->
  binary_round_aux prec emax s (Zpos q) e loc_Exact = S754_finite s m (e + j).
Proof.
  intros Hq Hj Hm He.
  unfold binary_round_aux.
  rewrite (shr_fexp_digits q e loc_Exact j)
    by (try rewrite (digits_mul_pow2 q m j); lia).
  cbn [shr_record_of_loc]. rewrite Hq.
  rewrite shr_iter_exact_Z by lia.
  cbn [shr_m loc_of_shr_record round_nearest_even].
  rewrite (shr_fexp_digits m (e + j) loc_Exact 0) by lia.
  cbn [Z.to_nat Nat.iter shr_record_of_loc shr_m].
  rewrite Z.add_0_r.
  destruct (Z.leb_spec (e + j) (emax - prec)) as [_|H]; [reflexivity|].
  unfold emax, prec in H. lia.
Qed.

(** [binary_round] of a mantissa whose value is the one of a normal
    53-digit mantissa [m], either padded ([q * 2^i = m]) or with trailing
    zeros ([q = m * 2^j]). *)
Lemma binary_round_pad s q m i e :
  Zpos m = Zpos q * 2 ^ i -> 0 <= i ->
  Zpos (digits2_pos m) = 53 ->
  -1074 <= e - i <= 971 ->
  binary_round prec emax s q e = S754_finite s m (e - i).
Proof.
  intros Hm Hi Hd He. unfold binary_round.
  pose proof (digits_mul_pow2 m q i Hi Hm) as Hdq.
  rewrite fexp_normal by lia.
  destruct (shl_align_spec q e (Zpos (digits2_pos q) + e - 53)) as (mz & -> & Hmz); [lia|].
  replace (e - (Zpos (digits2_pos q) + e - 53)) with i in Hmz by lia.
  assert (mz = m) by lia. subst mz.
  replace (Zpos (digits2_pos q) + e - 53) with (e - i) by lia.
  rewrite (bra_exact s m m 0 (e - i)) by (simpl; lia).
  f_equal. lia.
Qed.

Lemma binary_round_trail s q m j e :
  Zpos q = Zpos m * 2 ^ j -> 0 <= j ->
  Zpos (digits2_pos m) = 53 ->
  -1074 <= e + j <= 971 ->
  binary_round prec emax s q e = S754_finite s m (e + j).
Proof.
  intros Hq Hj Hd He. unfold binary_round.
  pose proof (digits_mul_pow2 q m j Hj Hq) as Hdq.
  rewrite fexp_normal by lia.
  unfold shl_align.
  destruct (Zpos (digits2_pos q) + e - 53 - e) as [|d|d] eqn:E; try lia;
    apply (bra_exact s q m j e); assumption.
Qed.

Lemma shr_m_of_loc m l : shr_m (shr_record_of_loc m l) = m.
Proof. destruct l as [|[ | | ]]; reflexivity. Qed.

Lemma digits_53_bounds m :
  Zpos (digits2_pos m) = 53 -> 2 ^ 52 <= Zpos m < 2 ^ 53.
Proof. intros H. pose proof (digits_bounds m) as Hb. rewrite H in Hb. exact Hb. Qed.

(** Faithful rounding: a mantissa of [53 + n] digits is cut to its 53
    leading digits, possibly plus one unit in the last place; the result
    is an infinity when the exponent leaves the range. *)
Lemma bra_faithful_gen s q e l n :
  Zpos (digits2_pos q) = 53 + n -> 0 <= n -> -1074 <= e + n ->
  (exists m' e',
      binary_round_aux prec emax s (Zpos q) e l = S754_finite s m' e' /\
      Zpos (digits2_pos m') = 53 /\
      e + n <= e' <= e + n + 1 /\ e' <= 971 /\
      Zpos q / 2 ^ n <= Zpos m' * 2 ^ (e' - e - n) <= Zpos q / 2 ^ n + 1) \/
  (binary_round_aux prec emax s (Zpos q) e l = S754_infinity s /\ 970 < e + n).
Proof.
  intros Hd Hn He.
  unfold binary_round_aux.
  rewrite (shr_fexp_digits q e l n) by lia.
  set (mrs := Nat.iter (Z.to_nat n) shr_1 (shr_record_of_loc (Zpos q) l)).
  assert (Hm1 : shr_m mrs = Zpos q / 2 ^ n).
  { unfold mrs. rewrite shr_iter_m by (rewrite shr_m_of_loc; lia).
    rewrite shr_m_of_loc, Z2Nat.id by lia. reflexivity. }
  assert (Hb1 : 2 ^ 52 <= Zpos q / 2 ^ n < 2 ^ 53).
  { pose proof (digits_bounds q) as [Hlo Hhi]. rewrite Hd in Hlo, Hhi.
    pose proof (pow2_pos n Hn) as Hp.
    replace (53 + n - 1) with (52 + n) in Hlo by lia.
    rewrite Z.pow_add_r in Hlo, Hhi by lia.
    split.
    - apply Z.div_le_lower_bound; lia.
    - apply Z.div_lt_upper_bound; lia. }
  set (m1 := Zpos q / 2 ^ n) in *.
  destruct (round_nearest_even_cases (shr_m mrs) (loc_of_shr_record mrs)) as [Hr|Hr];
    rewrite Hr, Hm1.
  - (* rounded down *)
    destruct m1 as [|m1p|m1p] eqn:Em1; try lia.
    assert (Hd1 : Zpos (digits2_pos m1p) = 53) by (apply digits_unique; simpl; lia).
    rewrite (shr_fexp_digits m1p (e + n) loc_Exact 0) by lia.
    cbn [Z.to_nat Nat.iter shr_record_of_loc shr_m]. rewrite Z.add_0_r.
    destruct (Z.leb_spec (e + n) (emax - prec)) as [H|H]; unfold emax, prec in H.
    + left. exists m1p, (e + n).
      replace (e + n - e - n) with 0 by lia. simpl (2 ^ 0). repeat split; lia.
    + right. split; [reflexivity | lia].
  - (* rounded up *)
    destruct (m1 + 1) as [|m2p|m2p] eqn:Em2; try lia.
    destruct (Z.eq_dec (Zpos m2p) (2 ^ 53)) as [Hc|Hc].
    + (* carry into a 54th digit *)
      assert (Hd2 : Zpos (digits2_pos m2p) = 53 + 1)
        by (apply digits_unique; rewrite Hc; simpl; lia).
      rewrite (shr_fexp_digits m2p (e + n) loc_Exact 1) by lia.
      cbn [shr_record_of_loc]. rewrite Hc.
      change (2 ^ 53) with (2 ^ 52 * 2 ^ 1).
      rewrite shr_iter_exact_Z by lia.
      cbn [shr_m]. change (2 ^ 52) with (Zpos (2 ^ 52)).
      destruct (Z.leb_spec (e + n + 1) (emax - prec)) as [H|H]; unfold emax, prec in H.
      * left. exists (2 ^ 52)%positive, (e + n + 1).
        replace (e + n + 1 - e - n) with 1 by lia. repeat split; lia.
      * right. split; [reflexivity | lia].
    + assert (Hd2 : Zpos (digits2_pos m2p) = 53) by (apply digits_unique; simpl; lia).
      rewrite (shr_fexp_digits m2p (e + n) loc_Exact 0) by lia.
      cbn [Z.to_nat Nat.iter shr_record_of_loc shr_m]. rewrite Z.add_0_r.
      destruct (Z.leb_spec (e + n) (emax - prec)) as [H|H]; unfold emax, prec in H.
      * left. exists m2p, (e + n).
        replace (e + n - e - n) with 0 by lia. simpl (2 ^ 0). repeat split; lia.
      * right. split; [reflexivity | lia].
Qed.

Lemma bra_faithful s q e l n :
  Zpos (digits2_pos q) = 53 + n -> 0 <= n -> -1074 <= e + n <= 970 ->
  exists m' e',
    binary_round_aux prec emax s (Zpos q) e l = S754_finite s m' e' /\
    Zpos (digits2_pos m') = 53 /\
    e + n <= e' <= e + n + 1 /\
    Zpos q / 2 ^ n <= Zpos m' * 2 ^ (e' - e - n) <= Zpos q / 2 ^ n + 1.
Proof.
  intros Hd Hn He.
  destruct (bra_faithful_gen s q e l n Hd Hn) as [(m' & e' & H1 & H2 & H3 & _ & H4)|[_ H]];
    [lia | | lia].
  exists m', e'. repeat split; (assumption || lia).
Qed.

(** *** Dyadic numbers as floats *)

Lemma digits_le_53 q : Zpos q < 2 ^ 53 -> Zpos (digits2_pos q) <= 53.
Proof.
  intros H. pose proof (digits_bounds q) as [Hlo _].
  destruct (Z.le_gt_cases (Zpos (digits2_pos q)) 53) as [?|Hgt]; [assumption|].
  assert (2 ^ 53 <= 2 ^ (Zpos (digits2_pos q) - 1)) by (apply Z.pow_le_mono_r; lia).
  lia.
Qed.

(** The 53-digit mantissa of a positive integer below 2^53. *)
Lemma normalize_mantissa q :
  Zpos q < 2 ^ 53 ->
  exists m, Zpos m = Zpos q * 2 ^ (53 - Zpos (digits2_pos q)) /\
            Zpos (digits2_pos m) = 53.
Proof.
  intros H. pose proof (digits_le_53 q H) as Hd.
  destruct (Z.eq_dec (Zpos (digits2_pos q)) 53) as [E|E].
  - exists q. split; [rewrite E; simpl; lia | exact E].
  - destruct (53 - Zpos (digits2_pos q)) as [|i|i] eqn:Ei; try lia.
    exists (Pos.iter xO q i). split.
    + apply iter_xO_pow.
    + rewrite digits_shift. lia.
Qed.

Lemma binary_round_small s q e :
  Zpos q < 2 ^ 53 -> -1000 <= e <= 900 ->
  exists m,
    binary_round prec emax s q e = S754_finite s m (e + Zpos (digits2_pos q) - 53) /\
    Zpos m = Zpos q * 2 ^ (53 - Zpos (digits2_pos q)) /\
    Zpos (digits2_pos m) = 53.
Proof.
  intros Hq He. destruct (normalize_mantissa q Hq) as (m & Hm & Hd).
  pose proof (digits_le_53 q Hq).
  assert (0 < Zpos (digits2_pos q)) by lia.
  exists m. split; [|split; assumption].
  rewrite (binary_round_pad s q m (53 - Zpos (digits2_pos q)) e) by (assumption || lia).
  f_equal. lia.
Qed.

(** A mantissa with [k] more trailing zeros at an exponent [k] lower
    rounds to the same float. *)
Lemma binary_round_shift s q q0 k e :
  Zpos q = Zpos q0 * 2 ^ k -> 0 <= k -> Zpos q0 < 2 ^ 53 -> -1000 <= e <= 900 ->
  binary_round prec emax s q (e - k) = binary_round prec emax s q0 e.
Proof.
  intros Hq Hk Hq0 He.
  destruct (binary_round_small s q0 e Hq0 He) as (m & -> & Hm & Hd).
  pose proof (digits_le_53 q0 Hq0).
  assert (0 < Zpos (digits2_pos q0)) by lia.
  set (i := 53 - Zpos (digits2_pos q0)) in *.
  destruct (Z.le_gt_cases i k) as [Hik|Hik].
  - rewrite (binary_round_trail s q m (k - i) (e - k)); try lia.
    + f_equal. lia.
    + rewrite Hq, Hm. rewrite <- Z.mul_assoc, <- Z.pow_add_r by lia.
      f_equal. f_equal. lia.
  - rewrite (binary_round_pad s q m (i - k) (e - k)); try lia.
    + f_equal. lia.
    + rewrite Hq, Hm. rewrite <- Z.mul_assoc, <- Z.pow_add_r by lia.
      f_equal. f_equal. lia.
Qed.

Lemma dyadic_zero e : dyadic 0 e = S754_zero false.
Proof. reflexivity. Qed.

Lemma dyadic_finite z e :
  z <> 0 -> Z.abs z < 2 ^ 53 -> -1000 <= e <= 900 ->
  exists m,
    dyadic z e = S754_finite (z <? 0) m (e + Zdigits2 z - 53) /\
    Zpos m = Z.abs z * 2 ^ (53 - Zdigits2 z) /\
    Zpos (digits2_pos m) = 53 /\
    1 <= Zdigits2 z <= 53.
Proof.
  intros Hz Hb He. unfold dyadic, binary_normalize.
  destruct z as [|q|q]; [congruence| |].
  - destruct (binary_round_small false q e) as (m & Hr & Hm & Hd); [simpl in Hb; lia | lia |].
    exists m. simpl in Hb. pose proof (digits_le_53 q Hb). repeat split; try assumption; simpl; lia.
  - destruct (binary_round_small true q e) as (m & Hr & Hm & Hd); [simpl in Hb; lia | lia |].
    exists m. simpl in Hb. pose proof (digits_le_53 q Hb). repeat split; try assumption; simpl; lia.
Qed.

Lemma dyadic_shift z k e :
  0 <= k -> Z.abs z < 2 ^ 53 -> -1000 <= e <= 900 ->
  dyadic (z * 2 ^ k) (e - k) = dyadic z e.
Proof.
  intros Hk Hz He. pose proof (pow2_pos k Hk) as Hp. unfold dyadic, binary_normalize.
  destruct z as [|q|q]; [reflexivity| |].
  - destruct (Zpos q * 2 ^ k) as [|q'|q'] eqn:E; try lia.
    apply (binary_round_shift false q' q k e); simpl in Hz; lia.
  - destruct (Zneg q * 2 ^ k) as [|q'|q'] eqn:E; try lia.
    apply (binary_round_shift true q' q k e); simpl in Hz; lia.
Qed.

Lemma dyadic_normal z e :
  Z.abs z < 2 ^ 53 -> -1000 <= e <= 900 -> normal (dyadic z e).
Proof.
  intros Hz He. destruct (Z.eq_dec z 0) as [->|Hnz]; [exact I|].
  destruct (dyadic_finite z e Hnz Hz He) as (m & -> & Hm & Hd & Hdz).
  simpl. lia.
Qed.

Lemma dyadic_sval z e :
  Z.abs z < 2 ^ 53 -> -1000 <= e <= 900 ->
  sval (dyadic z e) = z * 2 ^ (e + 1074).
Proof.
  intros Hz He. destruct (Z.eq_dec z 0) as [->|Hnz]; [reflexivity|].
  destruct (dyadic_finite z e Hnz Hz He) as (m & -> & Hm & Hd & Hdz).
  cbn [sval]. rewrite Hm.
  rewrite <- Z.mul_assoc, <- Z.pow_add_r by lia.
  replace (53 - Zdigits2 z + (e + Zdigits2 z - 53 + 1074)) with (e + 1074) by lia.
  unfold cond_Zopp. destruct (Z.ltb_spec z 0); lia.
Qed.

Lemma Zdigits2_bounds z :
  z <> 0 -> 2 ^ (Zdigits2 z - 1) <= Z.abs z < 2 ^ Zdigits2 z.
Proof.
  intros Hz. destruct z as [|q|q]; [congruence| |]; simpl; apply digits_bounds.
Qed.

Lemma Zdigits2_mul_lower x y :
  x <> 0 -> y <> 0 -> Zdigits2 x + Zdigits2 y - 1 <= Zdigits2 (x * y).
Proof.
  intros Hx Hy.
  pose proof (Zdigits2_bounds x Hx) as [Hx1 _].
  pose proof (Zdigits2_bounds y Hy) as [Hy1 _].
  assert (Hxy : x * y <> 0) by nia.
  pose proof (Zdigits2_bounds (x * y) Hxy) as [_ Hxy2].
  assert (Hdx : 1 <= Zdigits2 x) by (destruct x; simpl; lia).
  assert (Hdy : 1 <= Zdigits2 y) by (destruct y; simpl; lia).
  assert (Hdxy : 1 <= Zdigits2 (x * y)) by (destruct (x * y); simpl; lia).
  destruct (Z.le_gt_cases (Zdigits2 x + Zdigits2 y - 1) (Zdigits2 (x * y))) as [?|Hgt]; [assumption|].
  exfalso.
  assert (H1 : 2 ^ Zdigits2 (x * y) <= 2 ^ ((Zdigits2 x - 1) + (Zdigits2 y - 1)))
    by (apply Z.pow_le_mono_r; lia).
  rewrite Z.pow_add_r in H1 by lia.
  rewrite Z.abs_mul in Hxy2.
  pose proof (pow2_pos (Zdigits2 x - 1)). pose proof (pow2_pos (Zdigits2 y - 1)).
  assert (2 ^ (Zdigits2 x - 1) * 2 ^ (Zdigits2 y - 1) <= Z.abs x * Z.abs y)
    by (apply Z.mul_le_mono_nonneg; lia).
  lia.
Qed.

Lemma dyadic_add x y e :
  Z.abs x < 2 ^ 53 -> Z.abs y < 2 ^ 53 -> Z.abs (x + y) < 2 ^ 53 ->
  -1000 <= e <= 900 ->
  SFadd prec emax (dyadic x e) (dyadic y e) = dyadic (x + y) e.
Proof.
  intros Hx Hy Hxy He.
  destruct (Z.eq_dec x 0) as [->|Hx0].
  { rewrite dyadic_zero, Z.add_0_l.
    destruct (Z.eq_dec y 0) as [->|Hy0]; [reflexivity|].
    destruct (dyadic_finite y e Hy0 Hy He) as (m & -> & _). reflexivity. }
  destruct (Z.eq_dec y 0) as [->|Hy0].
  { rewrite dyadic_zero, Z.add_0_r.
    destruct (dyadic_finite x e Hx0 Hx He) as (m & -> & _). reflexivity. }
  destruct (dyadic_finite x e Hx0 Hx He) as (mx & -> & Hmx & Hdx & Hzx).
  destruct (dyadic_finite y e Hy0 Hy He) as (my & -> & Hmy & Hdy & Hzy).
  cbv beta iota zeta delta [SFadd].
  set (ex := e + Zdigits2 x - 53). set (ey := e + Zdigits2 y - 53).
  set (ez := Z.min ex ey).
  destruct (shl_align_spec mx ex ez) as (ax & -> & Hax); [unfold ez; lia|].
  destruct (shl_align_spec my ey ez) as (ay & -> & Hay); [unfold ez; lia|].
  cbn [fst].
  assert (Hk : 0 <= e - ez) by (unfold ez, ex, ey; lia).
  assert (Hsx : cond_Zopp (x <? 0) (Zpos ax) = x * 2 ^ (e - ez)).
  { rewrite Hax, Hmx, <- Z.mul_assoc, <- Z.pow_add_r by (unfold ex; lia).
    replace (53 - Zdigits2 x + (ex - ez)) with (e - ez) by (unfold ex; lia).
    unfold cond_Zopp. destruct (Z.ltb_spec x 0); lia. }
  assert (Hsy : cond_Zopp (y <? 0) (Zpos ay) = y * 2 ^ (e - ez)).
  { rewrite Hay, Hmy, <- Z.mul_assoc, <- Z.pow_add_r by (unfold ey; lia).
    replace (53 - Zdigits2 y + (ey - ez)) with (e - ez) by (unfold ey; lia).
    unfold cond_Zopp. destruct (Z.ltb_spec y 0); lia. }
  rewrite Hsx, Hsy, <- Z.mul_add_distr_r.
  replace ez with (e - (e - ez)) at 2 by lia.
  apply dyadic_shift; lia.
Qed.

Lemma dyadic_mul x y e1 e2 :
  (x = 0 -> 0 <= y) -> (y = 0 -> 0 <= x) ->
  Z.abs x < 2 ^ 53 -> Z.abs y < 2 ^ 53 -> Z.abs (x * y) < 2 ^ 53 ->
  -1000 <= e1 <= 900 -> -1000 <= e2 <= 900 -> -1000 <= e1 + e2 <= 900 ->
  SFmul prec emax (dyadic x e1) (dyadic y e2) = dyadic (x * y) (e1 + e2).
Proof.
  intros Hx0 Hy0 Hx Hy Hxy He1 He2 He.
  destruct (Z.eq_dec x 0) as [->|Hxn].
  { rewrite dyadic_zero, Z.mul_0_l, dyadic_zero.
    destruct (Z.eq_dec y 0) as [->|Hyn]; [reflexivity|].
    destruct (dyadic_finite y e2 Hyn Hy He2) as (m & -> & _).
    cbn [SFmul xorb]. specialize (Hx0 eq_refl).
    destruct (Z.ltb_spec y 0); [lia | reflexivity]. }
  destruct (Z.eq_dec y 0) as [->|Hyn].
  { rewrite dyadic_zero, Z.mul_0_r, dyadic_zero.
    destruct (dyadic_finite x e1 Hxn Hx He1) as (m & -> & _).
    cbn [SFmul]. specialize (Hy0 eq_refl).
    destruct (Z.ltb_spec x 0); [lia | reflexivity]. }
  assert (Hxyn : x * y <> 0) by nia.
  destruct (dyadic_finite x e1 Hxn Hx He1) as (mx & -> & Hmx & Hdx & Hzx).
  destruct (dyadic_finite y e2 Hyn Hy He2) as (my & -> & Hmy & Hdy & Hzy).
  destruct (dyadic_finite (x * y) (e1 + e2) Hxyn Hxy He) as (m & -> & Hm & Hd & Hz).
  cbv beta iota delta [SFmul].
  pose proof (Zdigits2_mul_lower x y Hxn Hyn) as Hlow.
  set (j := 53 + Zdigits2 (x * y) - Zdigits2 x - Zdigits2 y).
  rewrite (bra_exact _ (mx * my) m j); try (unfold j; lia).
  - f_equal.
    + destruct (Z.ltb_spec x 0), (Z.ltb_spec y 0), (Z.ltb_spec (x * y) 0);
        simpl; try reflexivity; nia.
    + unfold j. lia.
  - assert (Hj : 2 ^ (53 - Zdigits2 (x * y)) * 2 ^ j
                 = 2 ^ (53 - Zdigits2 x) * 2 ^ (53 - Zdigits2 y)).
    { rewrite <- !Z.pow_add_r by (unfold j; lia). f_equal. unfold j. lia. }
    rewrite Pos2Z.inj_mul, Hmx, Hmy, Hm, Z.abs_mul.
    transitivity (Z.abs x * Z.abs y * (2 ^ (53 - Zdigits2 (x * y)) * 2 ^ j));
      [rewrite Hj|]; ring.
Qed.

(** Division of 53-digit mantissas. *)
Lemma div_core_53 mx ex my ey :
  Zpos (digits2_pos mx) = 53 -> Zpos (digits2_pos my) = 53 ->
  -1021 <= ex - ey ->
  SFdiv_core_binary prec emax (Zpos mx) ex (Zpos my) ey
  = ((Zpos mx * 2 ^ 53) / Zpos my, ex - ey - 53,
     new_location (Zpos my) ((Zpos mx * 2 ^ 53) mod Zpos my)).
Proof.
  intros Hdx Hdy He. unfold SFdiv_core_binary. cbn [Zdigits2].
  rewrite Hdx, Hdy.
  replace (53 + ex - (53 + ey)) with (ex - ey) by lia.
  rewrite fexp_normal by lia.
  replace (Z.min (ex - ey - 53) (ex - ey)) with (ex - ey - 53) by lia.
  replace (ex - ey - (ex - ey - 53)) with 53 by lia.
  cbv beta iota.
  rewrite Z.shiftl_mul_pow2 by lia.
  unfold Z.div, Z.modulo.
  destruct (Z.div_eucl (Zpos mx * 2 ^ 53) (Zpos my)) as [q r]. reflexivity.
Qed.

Lemma dyadic_two : dyadic 2 0 = S754_finite false (2 ^ 52) (-51).
Proof. reflexivity. Qed.

Lemma dyadic_half x e :
  Z.abs x < 2 ^ 53 -> -999 <= e <= 900 ->
  SFdiv prec emax (dyadic x e) (dyadic 2 0) = dyadic x (e - 1).
Proof.
  intros Hx He. rewrite dyadic_two.
  destruct (Z.eq_dec x 0) as [->|Hxn]; [reflexivity|].
  destruct (dyadic_finite x e Hxn Hx) as (mx & -> & Hmx & Hdx & Hzx); [lia|].
  destruct (dyadic_finite x (e - 1) Hxn Hx) as (mx' & -> & Hmx' & Hdx' & _); [lia|].
  assert (mx' = mx) by lia. subst mx'.
  cbv beta iota delta [SFdiv].
  rewrite div_core_53 by (try reflexivity; lia).
  assert (Hq : Zpos mx * 2 ^ 53 = (Zpos mx * 2) * Zpos (2 ^ 52)).
  { change (Zpos (2 ^ 52)) with (2 ^ 52). change (2 ^ 53) with (2 * 2 ^ 52). ring. }
  rewrite Hq, Z.div_mul, Z.mod_mul by lia.
  change (new_location (Zpos (2 ^ 52)) 0) with loc_Exact.
  change (Zpos mx * 2) with (Zpos (mx * 2)).
  rewrite (bra_exact _ (mx * 2) mx 1) by (rewrite ?Pos2Z.inj_mul; lia).
  rewrite xorb_false_r. f_equal. lia.
Qed.

(** Comparison and truncation through the scaled value. *)

Lemma sval_finite_pos m e :
  -1074 <= e -> 0 < Zpos m * 2 ^ (e + 1074).
Proof. intros He. pose proof (pow2_pos (e + 1074)). nia. Qed.

Lemma sval_lt_exp m1 e1 m2 e2 :
  Zpos (digits2_pos m1) = 53 -> Zpos (digits2_pos m2) = 53 ->
  -1074 <= e1 -> e1 < e2 ->
  Zpos m1 * 2 ^ (e1 + 1074) < Zpos m2 * 2 ^ (e2 + 1074).
Proof.
  intros H1 H2 He1 He.
  pose proof (digits_53_bounds m1 H1) as [_ Hb1].
  pose proof (digits_53_bounds m2 H2) as [Hb2 _].
  pose proof (pow2_pos (e1 + 1074)) as Hp1.
  assert (Hp2 : 2 * 2 ^ (e1 + 1074) <= 2 ^ (e2 + 1074)).
  { rewrite <- Z.pow_succ_r by lia. apply Z.pow_le_mono_r; lia. }
  change (2 ^ 53) with (2 * 2 ^ 52) in Hb1.
  pose proof (pow2_pos 52). nia.
Qed.

Lemma Zcompare_mul_r n m p : 0 < p -> (n * p ?= m * p) = (n ?= m).
Proof.
  intros Hp. destruct (Z.compare_spec n m) as [E|E|E].
  - subst. apply Z.compare_refl.
  - apply Z.compare_lt_iff. nia.
  - apply Z.compare_gt_iff. nia.
Qed.

Lemma Zcompare_opp_opp a b : (- a ?= - b) = (b ?= a).
Proof.
  destruct (Z.compare_spec b a) as [E|E|E].
  - subst. apply Z.compare_refl.
  - apply Z.compare_lt_iff. lia.
  - apply Z.compare_gt_iff. lia.
Qed.

Lemma SFcompare_sval x y :
  normal x -> normal y -> SFcompare x y = Some (sval x ?= sval y).
Proof.
  destruct x as [sx| | |sx mx ex]; try contradiction;
    destruct y as [sy| | |sy my ey]; try contradiction; intros Hx Hy.
  - reflexivity.
  - destruct Hy as [Hdy Hey]. pose proof (sval_finite_pos my ey) as Hp.
    destruct sy; cbn [SFcompare sval cond_Zopp]; f_equal; symmetry.
    + apply Z.compare_gt_iff. lia.
    + apply Z.compare_lt_iff. lia.
  - destruct Hx as [Hdx Hex]. pose proof (sval_finite_pos mx ex) as Hp.
    destruct sx; cbn [SFcompare sval cond_Zopp]; f_equal; symmetry.
    + apply Z.compare_lt_iff. lia.
    + apply Z.compare_gt_iff. lia.
  - destruct Hx as [Hdx Hex]. destruct Hy as [Hdy Hey].
    pose proof (sval_finite_pos mx ex) as Hpx. pose proof (sval_finite_pos my ey) as Hpy.
    cbn [SFcompare sval]. f_equal.
    destruct sx, sy; cbn [cond_Zopp].
    + destruct (Z.compare_spec ex ey) as [E|E|E].
      * subst ey. change (Pos.compare_cont Eq mx my) with (Pos.compare mx my).
        rewrite Zcompare_opp_opp, <- Pos.compare_antisym.
        rewrite Zcompare_mul_r by (apply pow2_pos; lia).
        reflexivity.
      * symmetry. apply Z.compare_gt_iff.
        pose proof (sval_lt_exp mx ex my ey). lia.
      * symmetry. apply Z.compare_lt_iff.
        pose proof (sval_lt_exp my ey mx ex). lia.
    + symmetry. apply Z.compare_lt_iff. lia.
    + symmetry. apply Z.compare_gt_iff. lia.
    + destruct (Z.compare_spec ex ey) as [E|E|E].
      * subst ey. change (Pos.compare_cont Eq mx my) with (Pos.compare mx my).
        rewrite Zcompare_mul_r by (apply pow2_pos; lia).
        reflexivity.
      * symmetry. apply Z.compare_lt_iff.
        pose proof (sval_lt_exp mx ex my ey). lia.
      * symmetry. apply Z.compare_gt_iff.
        pose proof (sval_lt_exp my ey mx ex). lia.
Qed.

Lemma f64_trunc_sval f :
  normal f -> f64_trunc f = Some (Z.quot (sval f) (2 ^ 1074)).
Proof.
  destruct f as [s| | |s m e]; try contradiction; intros Hf.
  - reflexivity.
  - destruct Hf as [Hd He]. cbn [f64_trunc sval]. f_equal.
    assert (Hv : (Zpos m * 2 ^ (e + 1074)) ÷ 2 ^ 1074
                 = match e with
                   | 0 => Zpos m
                   | Zpos p => Zpos m * 2 ^ Zpos p
                   | Zneg p => Zpos m / 2 ^ Zpos p
                   end).
    { pose proof (pow2_pos 1074) as HU.
      rewrite Z.quot_div_nonneg by (pose proof (sval_finite_pos m e); lia).
      destruct e as [|p|p].
      - simpl (0 + 1074). rewrite Z.div_mul by lia. reflexivity.
      - rewrite Z.pow_add_r, Z.mul_assoc, Z.div_mul by lia. reflexivity.
      - replace (2 ^ 1074) with (2 ^ (Zneg p + 1074) * 2 ^ Zpos p)
          by (rewrite <- Z.pow_add_r by lia; f_equal; lia).
        rewrite (Z.mul_comm (Zpos m)), Z.div_mul_cancel_l; try reflexivity;
          apply Z.neq_sym, Z.lt_neq, pow2_pos; lia. }
    destruct s; cbn [cond_Zopp].
    + rewrite Z.quot_opp_l by (pose proof (pow2_pos 1074); lia). rewrite Hv. reflexivity.
    + symmetry. exact Hv.
Qed.

(** Square root of a 53-digit mantissa. *)
Lemma div2_bounds x : 2 * Z.div2 x <= x <= 2 * Z.div2 x + 1.
Proof.
  rewrite Z.div2_div. pose proof (Z.div_mod x 2). pose proof (Z.mod_pos_bound x 2). lia.
Qed.

Lemma div2_add_even x k : Z.div2 (x + 2 * k) = Z.div2 x + k.
Proof.
  rewrite !Z.div2_div. rewrite (Z.mul_comm 2 k), Z.div_add by lia. reflexivity.
Qed.

Lemma sqrt_core_53 mx ex :
  Zpos (digits2_pos mx) = 53 -> -1074 <= ex <= 971 ->
  exists l,
    SFsqrt_core_binary prec emax (Zpos mx) ex
    = (Z.sqrt (Zpos mx * 2 ^ (ex - 2 * (Z.div2 ex - 26))), Z.div2 ex - 26, l).
Proof.
  intros Hd He. unfold SFsqrt_core_binary. cbn [Zdigits2]. rewrite Hd.
  pose proof (div2_bounds ex) as Hb.
  replace (53 + ex + 1) with (ex + 2 * 27) by lia. rewrite div2_add_even.
  rewrite fexp_normal by lia.
  replace (Z.min (Z.div2 ex + 27 - 53) (Z.div2 ex)) with (Z.div2 ex - 26) by lia.
  cbv zeta.
  destruct (ex - 2 * (Z.div2 ex - 26)) as [|s|s] eqn:Es; try lia.
  rewrite Z.shiftl_mul_pow2 by lia.
  rewrite <- Z.sqrtrem_sqrt.
  destruct (Z.sqrtrem (Zpos mx * 2 ^ Zpos s)) as [q r]. cbn [fst].
  eexists. reflexivity.
Qed.

Lemma sqrt_mantissa_53 mx s :
  Zpos (digits2_pos mx) = 53 -> 52 <= s <= 53 ->
  2 ^ 52 <= Z.sqrt (Zpos mx * 2 ^ s) < 2 ^ 53.
Proof.
  intros Hd Hs. pose proof (digits_53_bounds mx Hd) as [Hlo Hhi].
  assert (Hm : 2 ^ 52 * 2 ^ 52 <= Zpos mx * 2 ^ s < 2 ^ 53 * 2 ^ 53).
  { assert (H52 : 2 ^ 52 <= 2 ^ s) by (apply Z.pow_le_mono_r; lia).
    assert (H53 : 2 ^ s <= 2 ^ 53) by (apply Z.pow_le_mono_r; lia).
    pose proof (pow2_pos 52). split.
    - apply Z.mul_le_mono_nonneg; lia.
    - assert (Zpos mx * 2 ^ s <= Zpos mx * 2 ^ 53) by (apply Z.mul_le_mono_nonneg_l; lia).
      assert (Zpos mx * 2 ^ 53 < 2 ^ 53 * 2 ^ 53) by (apply Z.mul_lt_mono_pos_r; lia).
      lia. }
  split.
  - apply Z.sqrt_le_square; lia.
  - apply Z.sqrt_lt_square; lia.
Qed.

Lemma SFsqrt_faithful mx ex :
  Zpos (digits2_pos mx) = 53 -> -1074 <= ex <= 971 ->
  exists m' e1,
    SFsqrt prec emax (S754_finite false mx ex) = S754_finite false m' e1 /\
    Zpos (digits2_pos m') = 53 /\
    Z.div2 ex - 26 <= e1 <= Z.div2 ex - 26 + 1 /\
    Z.sqrt (Zpos mx * 2 ^ (ex - 2 * (Z.div2 ex - 26)))
      <= Zpos m' * 2 ^ (e1 - (Z.div2 ex - 26))
      <= Z.sqrt (Zpos mx * 2 ^ (ex - 2 * (Z.div2 ex - 26))) + 1.
Proof.
  intros Hd He. cbv beta iota delta [SFsqrt].
  destruct (sqrt_core_53 mx ex Hd He) as [l ->].
  pose proof (div2_bounds ex) as Hb.
  assert (Hs : 52 <= ex - 2 * (Z.div2 ex - 26) <= 53) by lia.
  pose proof (sqrt_mantissa_53 mx _ Hd Hs) as Hq.
  set (q := Z.sqrt (Zpos mx * 2 ^ (ex - 2 * (Z.div2 ex - 26)))) in *.
  destruct q as [|qp|qp] eqn:Eq; try lia.
  assert (Hdq : Zpos (digits2_pos qp) = 53 + 0) by (apply digits_unique; simpl; lia).
  assert (He' : -1074 <= Z.div2 ex - 26 + 0 <= 970) by lia.
  destruct (bra_faithful false qp (Z.div2 ex - 26) l 0 Hdq (Z.le_refl 0) He')
    as (m' & e1 & Hr & Hdm & He1 & Hv).
  exists m', e1. rewrite Hr. rewrite Z.div_1_r in Hv.
  repeat split; try lia.
  - replace (e1 - (Z.div2 ex - 26)) with (e1 - (Z.div2 ex - 26) - 0) by lia. lia.
  - replace (e1 - (Z.div2 ex - 26)) with (e1 - (Z.div2 ex - 26) - 0) by lia. lia.
Qed.

(** The integer part of the rounded square root of a half-integer is the
    integer square root: the rounding error is far below the distance of
    a square root of an integer or half-integer to the next integer. *)
Lemma isqrt_scaled K P q R :
  0 <= K <= 2 ^ 31 -> 2 ^ 20 <= P ->
  q * q <= K * (P * P) / 2 < (q + 1) * (q + 1) -> 0 <= q ->
  2 * (K * (P * P) / 2) = K * (P * P) ->
  q <= R <= q + 1 ->
  R / P = Z.sqrt (K / 2).
Proof.
  intros HK HP Hq Hq0 Heven HR.
  set (M := K * (P * P) / 2) in *.
  pose proof (Z.sqrt_spec (K / 2)) as Hn.
  assert (0 <= K / 2) by (apply Z.div_pos; lia).
  specialize (Hn ltac:(lia)). cbv zeta in Hn.
  set (n := Z.sqrt (K / 2)) in *.
  assert (Hn0 : 0 <= n) by apply Z.sqrt_nonneg.
  assert (HK2 : 2 * (K / 2) <= K <= 2 * (K / 2) + 1)
    by (pose proof (Z.div_mod K 2); pose proof (Z.mod_pos_bound K 2); lia).
  assert (Hn1 : 2 * (n * n) <= K) by lia.
  assert (Hn2 : K + 1 <= 2 * (Z.succ n * Z.succ n)) by lia.
  assert (Hnb : n < 2 ^ 16).
  { destruct (Z.lt_ge_cases n (2 ^ 16)) as [?|Hge]; [assumption|].
    assert (2 ^ 16 * 2 ^ 16 <= n * n) by (apply Z.mul_le_mono_nonneg; lia). lia. }
  assert (HPP : 0 < P * P) by nia.
  (* n * P <= q *)
  assert (Hlo : n * P <= q).
  { destruct (Z.le_gt_cases (n * P) q) as [?|Hgt]; [assumption|]. exfalso.
    assert (Hsq : (q + 1) * (q + 1) <= (n * P) * (n * P))
      by (apply Z.mul_le_mono_nonneg; lia).
    assert (2 * ((n * P) * (n * P)) <= K * (P * P)).
    { replace (2 * (n * P * (n * P))) with ((2 * (n * n)) * (P * P)) by ring.
      apply Z.mul_le_mono_nonneg_r; lia. }
    lia. }
  (* q + 1 < (n + 1) * P *)
  assert (Hhi : q + 2 <= (n + 1) * P).
  { destruct (Z.le_gt_cases (q + 2) ((n + 1) * P)) as [?|Hgt]; [assumption|]. exfalso.
    set (b := (n + 1) * P - 1) in *.
    assert (Hb0 : 0 <= b) by (unfold b; nia).
    assert (Hbq : b <= q) by (unfold b; lia).
    assert (Hsq : b * b <= q * q) by (apply Z.mul_le_mono_nonneg; lia).
    assert (Hexp : 2 * (b * b) = 2 * ((n + 1) * (n + 1)) * (P * P) - 4 * (n + 1) * P + 2)
      by (unfold b; ring).
    assert (Hk : (K + 1) * (P * P) <= 2 * ((n + 1) * (n + 1)) * (P * P)).
    { apply Z.mul_le_mono_nonneg_r; [lia|]. unfold Z.succ in Hn2. lia. }
    assert (4 * (n + 1) * P < P * P) by (apply Z.mul_lt_mono_pos_r; lia).
    lia. }
  symmetry. apply (Z.div_unique_pos R P n (R - n * P)); lia.
Qed.

Lemma sqrt_half_float K :
  0 < K <= 2 ^ 31 ->
  normal (SFsqrt prec emax (dyadic K (-1))) /\
  0 < sval (SFsqrt prec emax (dyadic K (-1))) /\
  sval (SFsqrt prec emax (dyadic K (-1))) ÷ 2 ^ 1074 = Z.sqrt (K / 2).
Proof.
  intros HK.
  destruct (dyadic_finite K (-1)) as (mx & -> & Hmx & Hdx & HdK); [lia | lia | lia |].
  replace (K <? 0) with false by (symmetry; apply Z.ltb_ge; lia).
  rewrite Z.abs_eq in Hmx by lia.
  assert (HdK' : Zdigits2 K <= 32).
  { pose proof (Zdigits2_bounds K ltac:(lia)) as [Hlo _]. rewrite Z.abs_eq in Hlo by lia.
    destruct (Z.le_gt_cases (Zdigits2 K) 32) as [?|Hgt]; [assumption|].
    assert (2 ^ 32 <= 2 ^ (Zdigits2 K - 1)) by (apply Z.pow_le_mono_r; lia). lia. }
  set (ex := -1 + Zdigits2 K - 53) in *.
  destruct (SFsqrt_faithful mx ex Hdx) as (m' & e1 & -> & Hdm & He1 & Hv); [unfold ex; lia|].
  pose proof (div2_bounds ex) as Hb.
  set (e' := Z.div2 ex - 26) in *.
  set (T := - e').
  assert (HT : 37 <= T <= 53) by (unfold T, e', ex in *; lia).
  set (q := Z.sqrt (Zpos mx * 2 ^ (ex - 2 * e'))) in *.
  set (R := Zpos m' * 2 ^ (e1 - e')) in *.
  assert (Hmm : Zpos mx * 2 ^ (ex - 2 * e') = K * (2 ^ T * 2 ^ T) / 2).
  { rewrite Hmx, <- Z.mul_assoc, <- !Z.pow_add_r by (unfold T, e', ex in *; lia).
    replace (T + T) with (Z.succ (53 - Zdigits2 K + (ex - 2 * e'))) by (unfold T, e', ex in *; lia).
    rewrite Z.pow_succ_r by (unfold T, e', ex in *; lia).
    replace (K * (2 * 2 ^ (53 - Zdigits2 K + (ex - 2 * e'))))
      with ((K * 2 ^ (53 - Zdigits2 K + (ex - 2 * e'))) * 2) by ring.
    rewrite Z.div_mul by lia. reflexivity. }
  assert (Heven : 2 * (K * (2 ^ T * 2 ^ T) / 2) = K * (2 ^ T * 2 ^ T)).
  { rewrite <- Z.pow_add_r by lia.
    replace (T + T) with (Z.succ (T + T - 1)) by lia.
    rewrite Z.pow_succ_r by lia.
    replace (K * (2 * 2 ^ (T + T - 1))) with ((K * 2 ^ (T + T - 1)) * 2) by ring.
    rewrite Z.div_mul by lia. ring. }
  assert (HP : 2 ^ 20 <= 2 ^ T) by (apply Z.pow_le_mono_r; lia).
  assert (Hq : q * q <= K * (2 ^ T * 2 ^ T) / 2 < (q + 1) * (q + 1)).
  { rewrite <- Hmm. pose proof (Z.sqrt_spec (Zpos mx * 2 ^ (ex - 2 * e'))) as Hs.
    assert (0 <= Zpos mx * 2 ^ (ex - 2 * e')).
    { apply Z.mul_nonneg_nonneg; [lia | apply Z.pow_nonneg; lia]. }
    specialize (Hs ltac:(assumption)). cbv zeta in Hs. unfold Z.succ in Hs. exact Hs. }
  assert (Hq0 : 0 <= q) by apply Z.sqrt_nonneg.
  pose proof (isqrt_scaled K (2 ^ T) q R ltac:(lia) HP Hq Hq0 Heven Hv) as Hdiv.
  assert (Hsv : Zpos m' * 2 ^ (e1 + 1074) = R * 2 ^ (1074 - T)).
  { unfold R. rewrite <- Z.mul_assoc, <- Z.pow_add_r by (unfold T; lia).
    f_equal. f_equal. unfold T. lia. }
  cbn [normal sval cond_Zopp]. split; [|split].
  - unfold e', ex in *; lia.
  - apply sval_finite_pos. unfold e', ex in *; lia.
  - rewrite Hsv.
    replace (2 ^ 1074) with (2 ^ (1074 - T) * 2 ^ T)
      by (rewrite <- Z.pow_add_r by lia; f_equal; lia).
    assert (0 < 2 ^ (1074 - T)) by (apply pow2_pos; lia).
    assert (0 < 2 ^ T) by (apply pow2_pos; lia).
    assert (0 <= R) by lia.
    rewrite Z.quot_div_nonneg by nia.
    rewrite (Z.mul_comm R), Z.div_mul_cancel_l by lia.
    exact Hdiv.
Qed.

(** *** Conversions between integers and floats *)

Lemma f64_of_int_dyadic z : f64_of_int z = dyadic z 0.
Proof. reflexivity. Qed.

Lemma f64_half_dyadic : f64_half = dyadic 1 (-1).
Proof. reflexivity. Qed.

Lemma SFabs_dyadic z e :
  Z.abs z < 2 ^ 53 -> -1000 <= e <= 900 ->
  SFabs (dyadic z e) = dyadic (Z.abs z) e.
Proof.
  intros Hz He. destruct (Z.eq_dec z 0) as [->|Hnz]; [reflexivity|].
  destruct (dyadic_finite z e Hnz Hz He) as (m & -> & Hm & Hd & _).
  destruct (dyadic_finite (Z.abs z) e) as (m' & -> & Hm' & Hd' & _); [lia | lia | lia |].
  assert (Hdz : Zdigits2 (Z.abs z) = Zdigits2 z) by (destruct z; reflexivity).
  rewrite Hdz in *. rewrite Z.abs_idemp in Hm'.
  assert (m' = m) by lia. subst m'.
  replace (Z.abs z <? 0) with false by (symmetry; apply Z.ltb_ge; lia).
  reflexivity.
Qed.

Lemma U_pos : 0 < 2 ^ 1074.
Proof. apply pow2_pos. lia. Qed.

Lemma int16_of_f64_int z :
  - 2 ^ 31 <= z < 2 ^ 31 -> int16_of_f64 (dyadic z 0) = wrap 16 z.
Proof.
  intros Hz. unfold int16_of_f64.
  rewrite f64_trunc_sval by (apply dyadic_normal; lia).
  rewrite dyadic_sval by lia. simpl (0 + 1074).
  rewrite Z.quot_mul by (pose proof U_pos; lia).
  destruct (Z.leb_spec (- 2 ^ 31) z); [|lia].
  destruct (Z.ltb_spec z (2 ^ 31)); [reflexivity|lia].
Qed.

(** ** FindPeakAmplitude *)

Lemma abs_int16_wrap s : is_int16 s -> abs_int16 s = wrap 16 (Z.abs s).
Proof.
  unfold is_int16, MinInt16, MaxInt16. intros Hs. unfold abs_int16, f64_abs.
  rewrite f64_of_int_dyadic, SFabs_dyadic by lia.
  apply int16_of_f64_int. lia.
Qed.

Lemma abs_int16_small s : -32767 <= s <= 32767 -> abs_int16 s = Z.abs s.
Proof.
  intros Hs. rewrite abs_int16_wrap by (unfold is_int16, MinInt16, MaxInt16; lia).
  apply wrap16_id. unfold is_int16, MinInt16, MaxInt16. lia.
Qed.

Lemma FindPeakAmplitude_fold (w : waveform) acc :
  Forall (fun s => -32767 <= s <= 32767) w -> 0 <= acc ->
  fold_left (fun maxAmplitude sample =>
               let abs := abs_int16 sample in
               if maxAmplitude <? abs then abs else maxAmplitude) w acc
  = Z.max acc (max_abs w).
Proof.
  intros Hw. revert acc. induction Hw as [|s w Hs Hw IH]; intros acc Hacc; simpl.
  - lia.
  - rewrite abs_int16_small by exact Hs.
    destruct (Z.ltb_spec acc (Z.abs s)); rewrite IH by lia; lia.
Qed.

(** On waveforms without the sample -32768 the peak is the largest
    absolute sample value. *)
Lemma FindPeakAmplitude_max (w : waveform) :
  Forall (fun s => -32767 <= s <= 32767) w -> FindPeakAmplitude w = max_abs w.
Proof.
  intros Hw. unfold FindPeakAmplitude. rewrite FindPeakAmplitude_fold by (assumption || lia).
  assert (0 <= max_abs w) by (clear Hw; induction w; simpl; lia). lia.
Qed.

(** C3.  The peak of [100, -200, 50] is 200 and the peak of the empty
    waveform is 0; but no cap is applied to the absolute value of -32768:
    [int16(math.Abs(-32768.0))] is -32768 again, never above the running
    maximum, so the sample is ignored: the peak of [-32768] is 0 and the
    peak of [-32768, 5] is 5, where the largest absolute value is 32768. *)
Theorem FindPeakAmplitude_min_sample_ignored :
  FindPeakAmplitude [100; -200; 50] = 200 /\
  FindPeakAmplitude [] = 0 /\
  abs_int16 (-32768) = -32768 /\
  FindPeakAmplitude [-32768] = 0 /\
  FindPeakAmplitude [-32768; 5] = 5 /\
  max_abs [-32768] = 32768 /\
  max_abs [-32768; 5] = 32768.
Proof. repeat split. Qed.

(** ** Saturation of a float *)

Lemma sval_MaxInt16 : sval (f64_of_int MaxInt16) = 32767 * 2 ^ 1074.
Proof. rewrite f64_of_int_dyadic. apply dyadic_sval; unfold MaxInt16; lia. Qed.

Lemma sval_MinInt16 : sval (f64_of_int MinInt16) = -32768 * 2 ^ 1074.
Proof. rewrite f64_of_int_dyadic. apply dyadic_sval; unfold MinInt16; lia. Qed.

Lemma SFltb_sval x y : normal x -> normal y -> SFltb x y = (sval x <? sval y).
Proof.
  intros Hx Hy. unfold SFltb. rewrite SFcompare_sval by assumption.
  unfold Z.ltb. destruct (sval x ?= sval y); reflexivity.
Qed.

(** Clamping a float and narrowing it to int16 is the saturation of its
    integer part. *)
Lemma int16_of_clamp r :
  normal r -> int16_of_f64 (clamp_f64 r) = saturate (Z.quot (sval r) (2 ^ 1074)).
Proof.
  intros Hr. pose proof U_pos as HU.
  assert (Hmax : normal (f64_of_int MaxInt16)) by (apply dyadic_normal; unfold MaxInt16; lia).
  assert (Hmin : normal (f64_of_int MinInt16)) by (apply dyadic_normal; unfold MinInt16; lia).
  unfold clamp_f64, f64_gt, f64_lt.
  rewrite !SFltb_sval by assumption. rewrite sval_MaxInt16, sval_MinInt16.
  unfold saturate, MaxInt16, MinInt16.
  destruct (Z.ltb_spec (32767 * 2 ^ 1074) (sval r)) as [H1|H1].
  - rewrite f64_of_int_dyadic, int16_of_f64_int, wrap16_id
      by (unfold is_int16, MinInt16, MaxInt16; lia).
    assert (32767 <= sval r ÷ 2 ^ 1074).
    { rewrite <- (Z.quot_mul 32767 (2 ^ 1074)) by lia. apply Z.quot_le_mono; lia. }
    lia.
  - destruct (Z.ltb_spec (sval r) (-32768 * 2 ^ 1074)) as [H2|H2].
    + rewrite f64_of_int_dyadic, int16_of_f64_int, wrap16_id
        by (unfold is_int16, MinInt16, MaxInt16; lia).
      assert (sval r ÷ 2 ^ 1074 <= -32768).
      { rewrite <- (Z.quot_mul (-32768) (2 ^ 1074)) by lia. apply Z.quot_le_mono; lia. }
      lia.
    + assert (Hq : -32768 <= sval r ÷ 2 ^ 1074 <= 32767).
      { split.
        - rewrite <- (Z.quot_mul (-32768) (2 ^ 1074)) by lia. apply Z.quot_le_mono; lia.
        - rewrite <- (Z.quot_mul 32767 (2 ^ 1074)) by lia. apply Z.quot_le_mono; lia. }
      unfold int16_of_f64. rewrite f64_trunc_sval by assumption.
      destruct (Z.leb_spec (- 2 ^ 31) (sval r ÷ 2 ^ 1074)); [|lia].
      destruct (Z.ltb_spec (sval r ÷ 2 ^ 1074) (2 ^ 31)); [|lia].
      cbn [andb]. rewrite wrap16_id by (unfold is_int16, MinInt16, MaxInt16; lia). lia.
Qed.

(** ** WeightedSummation with the weights 0.5 and 0.5 *)

Lemma map_seq_zip_with (g : Z -> Z -> Z) (a b : waveform) :
  length a = length b ->
  map (fun i => g (sample_at a i) (sample_at b i)) (seq 0 (length a)) = zip_with g a b.
Proof.
  intros Hl. apply list_eq. intros i.
  rewrite list_lookup_fmap, lookup_zip_with. unfold sample_at.
  destruct (decide (i < length a)%nat) as [Hi|Hi].
  - rewrite lookup_seq_lt by exact Hi.
    destruct (lookup_lt_is_Some_2 a i Hi) as [x Hx].
    destruct (lookup_lt_is_Some_2 b i) as [y Hy]; [lia|].
    simpl. rewrite !Hx, !Hy. reflexivity.
  - rewrite lookup_seq_ge by lia. rewrite (lookup_ge_None_2 a i) by lia. reflexivity.
Qed.

Lemma half_sum_float x y :
  is_int16 x -> is_int16 y ->
  f64_add (f64_add (f64_of_int 0) (f64_mul (f64_of_int x) f64_half))
          (f64_mul (f64_of_int y) f64_half)
  = dyadic (x + y) (-1).
Proof.
  unfold is_int16, MinInt16, MaxInt16. intros Hx Hy.
  unfold f64_add, f64_mul. rewrite !f64_of_int_dyadic, f64_half_dyadic.
  rewrite !dyadic_mul by lia. rewrite !Z.mul_1_r. simpl (0 + -1).
  change (dyadic 0 0) with (dyadic 0 (-1)).
  rewrite !dyadic_add by lia. reflexivity.
Qed.

Lemma half_sum_convert x y :
  is_int16 x -> is_int16 y ->
  int16_of_f64 (clamp_f64 (dyadic (x + y) (-1))) = Z.quot (x + y) 2.
Proof.
  unfold is_int16, MinInt16, MaxInt16. intros Hx Hy.
  rewrite int16_of_clamp by (apply dyadic_normal; lia).
  rewrite dyadic_sval by lia.
  replace (2 ^ 1074) with (2 * 2 ^ (-1 + 1074)) by reflexivity.
  rewrite Z.quot_mul_cancel_r by (try apply Z.neq_sym, Z.lt_neq, pow2_pos; lia).
  assert (Hq : -32768 <= (x + y) ÷ 2 <= 32767).
  { split.
    - apply Z.quot_le_lower_bound; lia.
    - apply Z.quot_le_upper_bound; lia. }
  unfold saturate, MinInt16, MaxInt16. lia.
Qed.

(** C6 (amended).  For two equal-length waveforms [a] and [b] and the
    weights 0.5 and 0.5, the per-index weighted sum is accumulated exactly
    in floating point, it is never clamped, and the conversion to int16
    drops its fraction: [output[i]] is [(a[i] + b[i]) / 2] truncated
    toward zero (not rounded to nearest). *)
Theorem WeightedSummation_halves (a b : waveform) :
  wf_waveform a -> wf_waveform b -> length a = length b ->
  WeightedSummation [f64_half; f64_half] [a; b]
  = Ret (zip_with (fun x y => Z.quot (x + y) 2) a b).
Proof.
  intros Ha Hb Hl. unfold WeightedSummation.
  destruct (decide (length [f64_half; f64_half] ≠ length [a; b])) as [Hd|_];
    [simpl in Hd; congruence|].
  cbv zeta. rewrite <- map_seq_zip_with by exact Hl.
  apply for_range_fill_all. intros i s Hi Hs.
  unfold weighted_body. cbn [for_each].
  rewrite (weighted_step_ok _ _ i 0%nat a _ f64_half) by (reflexivity || lia).
  cbn [mbind outcome_bind].
  rewrite (weighted_step_ok _ _ i 1%nat b _ f64_half) by (reflexivity || lia).
  cbn [mbind outcome_bind].
  pose proof (sample_at_int16 a i Ha Hi) as Hx.
  pose proof (sample_at_int16 b i Hb ltac:(lia)) as Hy.
  rewrite half_sum_float, half_sum_convert by assumption.
  apply store_in_range. lia.
Qed.

Lemma WeightedSummation_halves_witness :
  WeightedSummation [f64_half; f64_half] [[1000; -3; 7]; [2000; -4; 0]]
  = Ret (zip_with (fun x y => Z.quot (x + y) 2) [1000; -3; 7] [2000; -4; 0]).
Proof.
  apply (WeightedSummation_halves [1000; -3; 7] [2000; -4; 0]).
  - solve_wf.
  - solve_wf.
  - reflexivity.
Defined.

(** C6 as stated fails on an odd sum: for a = [1] and b = [2] the mean
    is 1.5, which rounds to 2 (ties away from zero or ties to even), and
    the output sample is 1. *)
Lemma WeightedSummation_halves_truncates :
  WeightedSummation [f64_half; f64_half] [[1]; [2]] = Ret [1] /\
  saturate (round_half_away (1 + 2)) = 2 /\
  saturate (round_half_even (1 + 2)) = 2.
Proof. repeat split. Qed.

(** ** RMSMixing of two waveforms *)

Lemma square_sum_float x y :
  is_int16 x -> is_int16 y ->
  f64_add (f64_add (f64_of_int 0) (f64_mul (f64_of_int x) (f64_of_int x)))
          (f64_mul (f64_of_int y) (f64_of_int y))
  = dyadic (x * x + y * y) 0.
Proof.
  unfold is_int16, MinInt16, MaxInt16. intros Hx Hy.
  unfold f64_add, f64_mul. rewrite !f64_of_int_dyadic.
  assert (0 <= x * x <= 2 ^ 30) by nia.
  assert (0 <= y * y <= 2 ^ 30) by nia.
  rewrite !dyadic_mul by lia. simpl (0 + 0).
  rewrite !dyadic_add by lia. reflexivity.
Qed.

Lemma rms_two_float x y :
  is_int16 x -> is_int16 y ->
  int16_of_f64
    (clamp_f64 (f64_sqrt (f64_div (dyadic (x * x + y * y) 0) (f64_of_int 2))))
  = Z.min 32767 (Z.sqrt ((x * x + y * y) / 2)).
Proof.
  unfold is_int16, MinInt16, MaxInt16. intros Hx Hy.
  assert (Hxx : 0 <= x * x <= 2 ^ 30) by nia.
  assert (Hyy : 0 <= y * y <= 2 ^ 30) by nia.
  set (K := x * x + y * y) in *.
  unfold f64_div, f64_sqrt. rewrite f64_of_int_dyadic, dyadic_half by lia.
  change (0 - 1) with (-1).
  destruct (Z.eq_dec K 0) as [HK|HK].
  - rewrite HK. reflexivity.
  - destruct (sqrt_half_float K) as (Hn & Hpos & Hq); [lia|].
    rewrite int16_of_clamp by exact Hn. rewrite Hq.
    pose proof (Z.sqrt_nonneg (K / 2)).
    unfold saturate, MinInt16, MaxInt16. lia.
Qed.

Lemma RMSMixing_pair (a b : waveform) :
  wf_waveform a -> wf_waveform b -> length a = length b ->
  RMSMixing [a; b]
  = Ret (zip_with (fun x y => Z.min 32767 (Z.sqrt ((x * x + y * y) / 2))) a b).
Proof.
  intros Ha Hb Hl. unfold RMSMixing. cbv zeta.
  rewrite <- map_seq_zip_with by exact Hl.
  apply for_range_fill_all. intros i s Hi Hs.
  unfold rms_body. cbn [for_each].
  rewrite (rms_step_ok _ i 0%nat a) by (reflexivity || lia).
  cbn [mbind outcome_bind].
  rewrite (rms_step_ok _ i 1%nat b) by lia.
  cbn [mbind outcome_bind].
  pose proof (sample_at_int16 a i Ha Hi) as Hx.
  pose proof (sample_at_int16 b i Hb ltac:(lia)) as Hy.
  rewrite square_sum_float by assumption.
  change (Z.of_nat (length [a; b])) with 2.
  rewrite rms_two_float by assumption.
  apply store_in_range. lia.
Qed.

(** C7 (amended).  For two equal-length waveforms [a] and [b],
    [output[i]] is the integer part (floor, not the nearest integer) of
    the square root of [(a[i]^2 + b[i]^2) / 2], clamped to 32767; for
    a = [1000] * 10 and b = [2000] * 10 every output sample is 1581. *)
Theorem RMSMixing_two :
  (forall a b : waveform,
      wf_waveform a -> wf_waveform b -> length a = length b ->
      RMSMixing [a; b]
      = Ret (zip_with (fun x y => Z.min 32767 (Z.sqrt ((x * x + y * y) / 2))) a b)) /\
  RMSMixing [replicate 10 1000; replicate 10 2000] = Ret (replicate 10 1581).
Proof.
  split; [exact RMSMixing_pair|].
  rewrite RMSMixing_pair; [reflexivity | | | reflexivity];
    apply Forall_replicate; unfold is_int16, MinInt16, MaxInt16; lia.
Qed.

Lemma RMSMixing_two_witness :
  RMSMixing [[3; -4; 32767]; [4; 3; -32768]]
  = Ret (zip_with (fun x y => Z.min 32767 (Z.sqrt ((x * x + y * y) / 2)))
                  [3; -4; 32767] [4; 3; -32768]).
Proof.
  destruct RMSMixing_two as [H _].
  apply (H [3; -4; 32767] [4; 3; -32768]).
  - solve_wf.
  - solve_wf.
  - reflexivity.
Defined.

(** C7 as stated fails where the square root has a fraction of one half
    or more: for a = [1] and b = [0] the root of 0.5 is about 0.707, its
    nearest integer is 1, and the output sample is 0. *)
Lemma RMSMixing_truncates :
  RMSMixing [[1]; [0]] = Ret [0] /\
  nearest_sqrt_half (1 * 1 + 0 * 0) 1 /\
  saturate 1 = 1.
Proof. repeat split; reflexivity || (simpl; lia). Qed.

(** ** RMSMixing never goes negative *)

(** A mantissa of 53 digits or more is rounded as it stands. *)
Lemma binary_round_big s q e n :
  Zpos (digits2_pos q) = 53 + n -> 0 <= n -> -1074 <= e + n ->
  binary_round prec emax s q e = binary_round_aux prec emax s (Zpos q) e loc_Exact.
Proof.
  intros Hd Hn He. unfold binary_round. rewrite fexp_normal by lia.
  unfold shl_align.
  destruct (Zpos (digits2_pos q) + e - 53 - e) as [|d|d] eqn:E; try lia; reflexivity.
Qed.

Lemma pos_shape_faithful q e l n lo :
  Zpos (digits2_pos q) = 53 + n -> 0 <= n -> -1074 <= e + n -> lo <= e + n ->
  pos_shape lo (binary_round_aux prec emax false (Zpos q) e l).
Proof.
  intros Hd Hn He Hlo.
  destruct (bra_faithful_gen false q e l n Hd Hn He)
    as [(m' & e' & -> & Hdm & He' & Hmax & _)|[-> _]]; simpl; [lia | exact I].
Qed.

Lemma dyadic_pos_shape z :
  0 < z < 2 ^ 53 ->
  exists m e, dyadic z 0 = S754_finite false m e /\
              Zpos (digits2_pos m) = 53 /\ -52 <= e <= 0.
Proof.
  intros Hz. destruct (dyadic_finite z 0) as (m & Hf & _ & Hd & Hdz); [lia | lia | lia |].
  exists m, (0 + Zdigits2 z - 53). rewrite Hf.
  replace (z <? 0) with false by (symmetry; apply Z.ltb_ge; lia).
  repeat split; (assumption || lia).
Qed.

Lemma add_pos_shape a z :
  pos_shape (-52) a -> 0 <= z < 2 ^ 53 ->
  pos_shape (-52) (f64_add a (dyadic z 0)).
Proof.
  intros Ha Hz. unfold f64_add.
  destruct (Z.eq_dec z 0) as [->|Hnz].
  { rewrite dyadic_zero. destruct a as [[|]|[|]| |[|] m e]; simpl in Ha |- *; tauto. }
  destruct (dyadic_pos_shape z) as (mz & ez & -> & Hdz & Hez); [lia|].
  destruct a as [[|]|[|]| |[|] ma ea]; simpl in Ha; try contradiction;
    try (simpl; lia); try exact I.
  destruct Ha as [Hda Hea].
  cbv beta iota zeta delta [SFadd].
  set (e0 := Z.min ea ez).
  destruct (shl_align_spec ma ea e0) as (ax & -> & Hax); [unfold e0; lia|].
  destruct (shl_align_spec mz ez e0) as (az & -> & Haz); [unfold e0; lia|].
  cbn [fst cond_Zopp].
  change (Zpos ax + Zpos az) with (Zpos (ax + az)).
  cbn [binary_normalize].
  pose proof (digits_53_bounds ma Hda) as Hba.
  pose proof (digits_53_bounds mz Hdz) as Hbz.
  assert (Hp1 : 1 <= 2 ^ (ea - e0)) by (pose proof (pow2_pos (ea - e0)); unfold e0 in *; lia).
  assert (Hp2 : 1 <= 2 ^ (ez - e0)) by (pose proof (pow2_pos (ez - e0)); unfold e0 in *; lia).
  assert (Hq : 2 ^ 52 <= Zpos (ax + az)) by (rewrite Pos2Z.inj_add; nia).
  assert (Hdq : 53 <= Zpos (digits2_pos (ax + az))).
  { pose proof (digits_bounds (ax + az)) as [_ Hhi].
    destruct (Z.le_gt_cases 53 (Zpos (digits2_pos (ax + az)))) as [?|Hlt]; [assumption|].
    assert (2 ^ Zpos (digits2_pos (ax + az)) <= 2 ^ 52) by (apply Z.pow_le_mono_r; lia).
    lia. }
  set (n := Zpos (digits2_pos (ax + az)) - 53).
  rewrite (binary_round_big false (ax + az) e0 n) by (unfold n, e0 in *; lia).
  apply (pos_shape_faithful (ax + az) e0 loc_Exact n); unfold n, e0 in *; lia.
Qed.

Lemma square_float x :
  is_int16 x -> f64_mul (f64_of_int x) (f64_of_int x) = dyadic (x * x) 0.
Proof.
  unfold is_int16, MinInt16, MaxInt16. intros Hx.
  unfold f64_mul. rewrite !f64_of_int_dyadic.
  assert (0 <= x * x <= 2 ^ 30) by nia.
  rewrite dyadic_mul by lia. reflexivity.
Qed.

(** The accumulated sum of squares is +0, a positive float or +infinity. *)
Lemma rms_inner_shape n i (samples : list waveform) :
  Forall wf_waveform samples ->
  Forall (fun w => length w = n) samples ->
  (i < n)%nat ->
  forall j0 acc,
    pos_shape (-52) acc ->
    exists sumSquares,
      for_each (rms_step n i) j0 samples acc = Ret sumSquares /\
      pos_shape (-52) sumSquares.
Proof.
  intros Hwf Hlen Hi.
  induction samples as [|w samples IH]; intros j0 acc Hacc; simpl.
  - exists acc. split; [reflexivity | assumption].
  - inversion Hwf as [|? ? Hw Hwf']; subst. inversion Hlen as [|? ? Hl Hlen']; subst.
    rewrite rms_step_ok by (reflexivity || exact Hi). simpl.
    apply IH; try assumption.
    pose proof (sample_at_int16 w i Hw Hi) as Hs.
    rewrite square_float by exact Hs.
    unfold is_int16, MinInt16, MaxInt16 in Hs.
    apply add_pos_shape; [assumption | nia].
Qed.

(** [float64(len(samples))] for a slice count: positive and finite. *)
Lemma f64_of_count N :
  1 <= N < 2 ^ 63 ->
  exists m e, f64_of_int N = S754_finite false m e /\
              Zpos (digits2_pos m) = 53 /\ -52 <= e <= 11.
Proof.
  intros HN. rewrite f64_of_int_dyadic.
  destruct (Z.lt_ge_cases N (2 ^ 53)) as [Hs|Hb].
  - destruct (dyadic_pos_shape N) as (m & e & Hf & Hd & He); [lia|].
    exists m, e. repeat split; (assumption || lia).
  - destruct N as [|p|p]; try lia. unfold dyadic. cbn [binary_normalize].
    pose proof (digits_bounds p) as [Hlo Hhi].
    set (d := Zpos (digits2_pos p)) in *.
    assert (Hd1 : 54 <= d).
    { destruct (Z.le_gt_cases 54 d) as [?|Hlt]; [assumption|].
      assert (2 ^ d <= 2 ^ 53) by (apply Z.pow_le_mono_r; unfold d; lia). lia. }
    assert (Hd2 : d <= 63).
    { destruct (Z.le_gt_cases d 63) as [?|Hgt]; [assumption|].
      assert (2 ^ 63 <= 2 ^ (d - 1)) by (apply Z.pow_le_mono_r; lia). lia. }
    rewrite (binary_round_big false p 0 (d - 53)) by (unfold d in *; lia).
    destruct (bra_faithful false p 0 loc_Exact (d - 53))
      as (m & e & -> & Hdm & He & _); try (unfold d in *; lia).
    exists m, e. repeat split; (assumption || lia).
Qed.

Lemma div_pos_shape a mN eN :
  pos_shape (-52) a ->
  Zpos (digits2_pos mN) = 53 -> -52 <= eN <= 11 ->
  pos_shape (-1074) (f64_div a (S754_finite false mN eN)).
Proof.
  intros Ha HdN HeN. unfold f64_div.
  destruct a as [[|]|[|]| |[|] ma ea]; simpl in Ha; try contradiction; try exact I.
  destruct Ha as [Hda Hea].
  cbv beta iota delta [SFdiv].
  rewrite div_core_53 by (assumption || lia).
  cbn [xorb].
  pose proof (digits_53_bounds ma Hda) as Hba.
  pose proof (digits_53_bounds mN HdN) as HbN.
  assert (Hq : 2 ^ 52 <= Zpos ma * 2 ^ 53 / Zpos mN < 2 ^ 54).
  { split.
    - apply Z.div_le_lower_bound; [lia|]. nia.
    - apply Z.div_lt_upper_bound; [lia|]. nia. }
  destruct (Zpos ma * 2 ^ 53 / Zpos mN) as [|qp|qp] eqn:Eq; try lia.
  destruct (Z.lt_ge_cases (Zpos qp) (2 ^ 53)) as [Hs|Hb].
  - apply (pos_shape_faithful qp _ _ 0); try lia.
    apply digits_unique. simpl. lia.
  - apply (pos_shape_faithful qp _ _ 1); try lia.
    apply digits_unique. simpl. lia.
Qed.

Lemma sqrt_pos_shape a :
  pos_shape (-1074) a -> pos_shape (-1074) (f64_sqrt a).
Proof.
  intros Ha. unfold f64_sqrt.
  destruct a as [[|]|[|]| |[|] ma ea]; simpl in Ha; try contradiction; try exact I.
  destruct Ha as [Hda Hea].
  destruct (SFsqrt_faithful ma ea Hda Hea) as (m' & e1 & -> & Hdm & He1 & _).
  pose proof (div2_bounds ea). simpl. lia.
Qed.

Lemma MinInt16_float :
  f64_of_int MinInt16 = S754_finite true (2 ^ 52) (-37).
Proof. reflexivity. Qed.

Lemma MaxInt16_float :
  f64_of_int MaxInt16 = S754_finite false 9006924376834048 (-38).
Proof. reflexivity. Qed.

(** A non-negative float is never below -32768, and its clamped
    conversion to int16 lies in [0, 32767]. *)
Lemma convert_pos_shape r :
  pos_shape (-1074) r ->
  f64_lt r (f64_of_int MinInt16) = false /\
  0 <= int16_of_f64 (clamp_f64 r) <= MaxInt16.
Proof.
  intros Hr. split.
  - rewrite MinInt16_float.
    destruct r as [[|]|[|]| |[|] m e]; simpl in Hr; try contradiction; reflexivity.
  - destruct r as [[|]|[|]| |[|] m e]; simpl in Hr; try contradiction.
    + rewrite int16_of_clamp by exact I. cbn [sval].
      rewrite Z.quot_0_l by (pose proof U_pos; lia).
      unfold saturate, MinInt16, MaxInt16. lia.
    + unfold clamp_f64, f64_gt. rewrite MaxInt16_float. cbn [SFltb SFcompare].
      rewrite <- MaxInt16_float, f64_of_int_dyadic, int16_of_f64_int
        by (unfold MaxInt16; lia).
      rewrite wrap16_id by (unfold is_int16, MinInt16, MaxInt16; lia).
      unfold MaxInt16. lia.
    + rewrite int16_of_clamp by (simpl; lia).
      cbn [sval cond_Zopp].
      pose proof (sval_finite_pos m e ltac:(lia)) as Hp.
      assert (0 <= (Zpos m * 2 ^ (e + 1074)) ÷ 2 ^ 1074).
      { apply Z.quot_pos; [lia | apply U_pos]. }
      unfold saturate, MinInt16, MaxInt16. lia.
Qed.

Lemma rms_inner_lengths n i (samples : list waveform) :
  forall j0 acc sumSquares,
    for_each (rms_step n i) j0 samples acc = Ret sumSquares ->
    Forall (fun w => length w = n) samples.
Proof.
  induction samples as [|w samples IH]; intros j0 acc sumSquares H.
  - constructor.
  - simpl in H. destruct (decide (length w = n)) as [Hl|Hl].
    + constructor; [assumption|].
      destruct (rms_step n i j0 w acc) as [acc'| |] eqn:E; simpl in H; try discriminate.
      eapply IH. exact H.
    + rewrite rms_step_mismatch in H by assumption. discriminate.
Qed.

(** The root mean square at one index: a non-negative float. *)
Lemma rms_value_shape n i (samples : list waveform) sumSquares :
  Forall wf_waveform samples ->
  Forall (fun w => length w = n) samples ->
  (i < n)%nat ->
  1 <= Z.of_nat (length samples) < 2 ^ 63 ->
  for_each (rms_step n i) 0 samples (f64_of_int 0) = Ret sumSquares ->
  pos_shape (-1074)
    (f64_sqrt (f64_div sumSquares (f64_of_int (Z.of_nat (length samples))))).
Proof.
  intros Hwf Hlen Hi HN Hsum.
  destruct (rms_inner_shape n i samples Hwf Hlen Hi 0%nat (f64_of_int 0) I)
    as (ss & Hss & Hshape).
  rewrite Hsum in Hss. injection Hss as <-.
  destruct (f64_of_count _ HN) as (mN & eN & -> & HdN & HeN).
  apply sqrt_pos_shape, div_pos_shape; assumption.
Qed.

(** On equal-length inputs RMSMixing returns, and every sample of the
    result lies in [0, 32767]. *)
Lemma RMSMixing_returns (samples : list waveform) first rest :
  samples = first :: rest ->
  Forall wf_waveform samples ->
  Forall (fun w => length w = length first) samples ->
  Z.of_nat (length samples) < 2 ^ 63 ->
  exists out,
    RMSMixing samples = Ret out /\ length out = length first /\
    Forall (fun z => 0 <= z <= MaxInt16) out.
Proof.
  intros Es Hwf Hlen HN.
  assert (HN1 : 1 <= Z.of_nat (length samples)) by (rewrite Es; simpl length; lia).
  destruct (for_range_inv (rms_body (length first) samples)
              (fun s => length s = length first /\ Forall (fun z => 0 <= z <= MaxInt16) s)
              (length first)) with (count := length first) (start := 0%nat)
              (s := replicate (length first) 0) as (out & Hout & Hl & Hall);
    [| | | exists out; split; [|split; assumption];
           unfold RMSMixing; rewrite Es at 1; exact Hout].
  - intros i s Hi [Hl Hs]. unfold rms_body.
    destruct (rms_inner_shape (length first) i samples Hwf Hlen Hi 0%nat (f64_of_int 0) I)
      as (ss & Hss & _).
    rewrite Hss. cbn [mbind outcome_bind].
    rewrite store_in_range by lia.
    eexists. split; [reflexivity|]. split; [rewrite length_insert; exact Hl|].
    apply Forall_insert; [exact Hs|].
    apply convert_pos_shape.
    apply (rms_value_shape (length first) i); try assumption. lia.
  - lia.
  - split; [apply length_replicate|]. apply Forall_replicate. unfold MaxInt16. lia.
Qed.

(** C8.  On equal-length int16 waveforms RMSMixing succeeds, and every
    sample of a successful RMSMixing lies in [0, 32767]: the value that
    is clamped is +0, a positive float or +infinity, so the comparison
    that guards the clamp to -32768 is never true. *)
Theorem RMSMixing_nonnegative (samples : list waveform) :
  Forall wf_waveform samples ->
  Z.of_nat (length samples) < 2 ^ 63 ->
  (forall first rest,
      samples = first :: rest ->
      Forall (fun w => length w = length first) samples ->
      exists out, RMSMixing samples = Ret out /\ length out = length first) /\
  (forall out, RMSMixing samples = Ret out ->
               Forall (fun z => 0 <= z <= MaxInt16) out) /\
  (forall first rest i sumSquares,
      samples = first :: rest -> (i < length first)%nat ->
      for_each (rms_step (length first) i) 0 samples (f64_of_int 0) = Ret sumSquares ->
      f64_lt (f64_sqrt (f64_div sumSquares (f64_of_int (Z.of_nat (length samples)))))
             (f64_of_int MinInt16) = false).
Proof.
  intros Hwf HN. split; [|split].
  - intros first rest Es Hlen.
    destruct (RMSMixing_returns samples first rest Es Hwf Hlen HN) as (out & Hout & Hl & _).
    exists out. split; assumption.
  - intros out Hout. destruct samples as [|first rest] eqn:Es; [discriminate|].
    rewrite <- Es in *.
    destruct (decide (Forall (fun w : waveform => length w = length first) samples))
      as [Hlen|Hlen].
    + destruct (RMSMixing_returns samples first rest Es Hwf Hlen HN)
        as (out' & Hout' & _ & Hall).
      rewrite Hout' in Hout. injection Hout as <-. exact Hall.
    + apply not_Forall_Exists in Hlen; [|intros w; apply _].
      destruct first as [|s0 first'] eqn:Ef.
      * unfold RMSMixing in Hout. rewrite Es in Hout at 1. simpl in Hout.
        injection Hout as <-. constructor.
      * rewrite <- Ef in *.
        rewrite (RMSMixing_mismatch samples first rest Es) in Hout;
          [discriminate | rewrite Ef; discriminate | exact Hlen].
  - intros first rest i sumSquares Es Hi Hsum.
    apply convert_pos_shape.
    apply (rms_value_shape (length first) i); try assumption.
    + eapply rms_inner_lengths. exact Hsum.
    + assert (1 <= Z.of_nat (length samples)) by (rewrite Es; simpl length; lia). lia.
Qed.

Lemma RMSMixing_nonnegative_witness :
  (forall first rest,
      [[-32768; 3; 0]; [-5; 4; 0]; [7; -1; 0]] = first :: rest ->
      Forall (fun w : waveform => length w = length first)
             [[-32768; 3; 0]; [-5; 4; 0]; [7; -1; 0]] ->
      exists out, RMSMixing [[-32768; 3; 0]; [-5; 4; 0]; [7; -1; 0]] = Ret out /\
                  length out = length first) /\
  (forall out, RMSMixing [[-32768; 3; 0]; [-5; 4; 0]; [7; -1; 0]] = Ret out ->
               Forall (fun z => 0 <= z <= MaxInt16) out) /\
  (forall first rest i sumSquares,
      [[-32768; 3; 0]; [-5; 4; 0]; [7; -1; 0]] = first :: rest -> (i < length first)%nat ->
      for_each (rms_step (length first) i) 0 [[-32768; 3; 0]; [-5; 4; 0]; [7; -1; 0]]
               (f64_of_int 0) = Ret sumSquares ->
      f64_lt (f64_sqrt (f64_div sumSquares
                (f64_of_int (Z.of_nat (length [[-32768; 3; 0]; [-5; 4; 0]; [7; -1; 0]])))))
             (f64_of_int MinInt16) = false).
Proof.
  apply (RMSMixing_nonnegative [[-32768; 3; 0]; [-5; 4; 0]; [7; -1; 0]]).
  - repeat (apply Forall_cons; split); try apply Forall_nil; solve_wf.
  - simpl. lia.
Defined.

(** ** Products and quotients of normal floats *)

Lemma SFdiv_faithful sx mx ex sy my ey :
  Zpos (digits2_pos mx) = 53 -> Zpos (digits2_pos my) = 53 ->
  -1021 <= ex - ey <= 1021 ->
  exists m e n,
    SFdiv prec emax (S754_finite sx mx ex) (S754_finite sy my ey)
    = S754_finite (xorb sx sy) m e /\
    Zpos (digits2_pos m) = 53 /\ 0 <= n <= 1 /\
    ex - ey - 53 + n <= e <= ex - ey - 53 + n + 1 /\
    2 ^ (52 + n) <= Zpos mx * 2 ^ 53 / Zpos my < 2 ^ (53 + n) /\
    Zpos mx * 2 ^ 53 / Zpos my / 2 ^ n
      <= Zpos m * 2 ^ (e - (ex - ey - 53) - n)
      <= Zpos mx * 2 ^ 53 / Zpos my / 2 ^ n + 1.
Proof.
  intros Hdx Hdy He.
  cbv beta iota delta [SFdiv].
  rewrite div_core_53 by (assumption || lia).
  pose proof (digits_53_bounds mx Hdx) as Hbx.
  pose proof (digits_53_bounds my Hdy) as Hby.
  assert (Hq : 2 ^ 52 <= Zpos mx * 2 ^ 53 / Zpos my < 2 ^ 54).
  { split.
    - apply Z.div_le_lower_bound; [lia|]. nia.
    - apply Z.div_lt_upper_bound; [lia|]. nia. }
  destruct (Zpos mx * 2 ^ 53 / Zpos my) as [|qp|qp] eqn:Eq; try lia.
  destruct (Z.lt_ge_cases (Zpos qp) (2 ^ 53)) as [Hs|Hb].
  - assert (Hdq : Zpos (digits2_pos qp) = 53 + 0) by (apply digits_unique; simpl; lia).
    destruct (bra_faithful (xorb sx sy) qp (ex - ey - 53)
                (new_location (Zpos my) ((Zpos mx * 2 ^ 53) mod Zpos my)) 0 Hdq)
      as (m & e & Hr & Hdm & He' & Hv); try lia.
    exists m, e, 0. rewrite Hr. repeat split; try (assumption || lia).
  - assert (Hdq : Zpos (digits2_pos qp) = 53 + 1) by (apply digits_unique; simpl; lia).
    destruct (bra_faithful (xorb sx sy) qp (ex - ey - 53)
                (new_location (Zpos my) ((Zpos mx * 2 ^ 53) mod Zpos my)) 1 Hdq)
      as (m & e & Hr & Hdm & He' & Hv); try lia.
    exists m, e, 1. rewrite Hr. repeat split; try (assumption || lia).
Qed.

Lemma SFmul_faithful sx mx ex sy my ey :
  Zpos (digits2_pos mx) = 53 -> Zpos (digits2_pos my) = 53 ->
  -1126 <= ex + ey <= 916 ->
  exists m e n,
    SFmul prec emax (S754_finite sx mx ex) (S754_finite sy my ey)
    = S754_finite (xorb sx sy) m e /\
    Zpos (digits2_pos m) = 53 /\ 52 <= n <= 53 /\
    ex + ey + n <= e <= ex + ey + n + 1 /\
    2 ^ (52 + n) <= Zpos mx * Zpos my < 2 ^ (53 + n) /\
    Zpos mx * Zpos my / 2 ^ n
      <= Zpos m * 2 ^ (e - (ex + ey) - n)
      <= Zpos mx * Zpos my / 2 ^ n + 1.
Proof.
  intros Hdx Hdy He.
  cbv beta iota delta [SFmul].
  pose proof (digits_53_bounds mx Hdx) as Hbx.
  pose proof (digits_53_bounds my Hdy) as Hby.
  assert (Hq : 2 ^ 104 <= Zpos (mx * my) < 2 ^ 106) by (rewrite Pos2Z.inj_mul; nia).
  rewrite <- Pos2Z.inj_mul.
  destruct (Z.lt_ge_cases (Zpos (mx * my)) (2 ^ 105)) as [Hs|Hb].
  - assert (Hdq : Zpos (digits2_pos (mx * my)) = 53 + 52) by (apply digits_unique; simpl; lia).
    destruct (bra_faithful (xorb sx sy) (mx * my) (ex + ey) loc_Exact 52 Hdq)
      as (m & e & Hr & Hdm & He' & Hv); try lia.
    exists m, e, 52. rewrite Hr. repeat split; try (assumption || lia).
  - assert (Hdq : Zpos (digits2_pos (mx * my)) = 53 + 53) by (apply digits_unique; simpl; lia).
    destruct (bra_faithful (xorb sx sy) (mx * my) (ex + ey) loc_Exact 53 Hdq)
      as (m & e & Hr & Hdm & He' & Hv); try lia.
    exists m, e, 53. rewrite Hr. repeat split; try (assumption || lia).
Qed.

(** [float64(z)] for a non-zero 64-bit integer. *)
Lemma f64_of_int64 z :
  z <> 0 -> - 2 ^ 63 <= z < 2 ^ 63 ->
  exists m e, f64_of_int z = S754_finite (z <? 0) m e /\
              Zpos (digits2_pos m) = 53 /\ -52 <= e <= 12.
Proof.
  intros Hnz Hz. rewrite f64_of_int_dyadic.
  destruct (Z.lt_ge_cases (Z.abs z) (2 ^ 53)) as [Hs|Hb].
  - destruct (dyadic_finite z 0 Hnz Hs) as (m & Hf & _ & Hd & Hdz); [lia|].
    exists m, (0 + Zdigits2 z - 53). repeat split; (assumption || lia).
  - assert (Hbig : forall s p, 2 ^ 53 <= Zpos p <= 2 ^ 63 ->
              exists m e, binary_round prec emax s p 0 = S754_finite s m e /\
                          Zpos (digits2_pos m) = 53 /\ -52 <= e <= 12).
    { intros s p Hp. pose proof (digits_bounds p) as [Hlo Hhi].
      set (d := Zpos (digits2_pos p)) in *.
      assert (Hd1 : 54 <= d).
      { destruct (Z.le_gt_cases 54 d) as [?|Hlt]; [assumption|].
        assert (2 ^ d <= 2 ^ 53) by (apply Z.pow_le_mono_r; unfold d; lia). lia. }
      assert (Hd2 : d <= 64).
      { destruct (Z.le_gt_cases d 64) as [?|Hgt]; [assumption|].
        assert (2 ^ 64 <= 2 ^ (d - 1)) by (apply Z.pow_le_mono_r; lia). lia. }
      rewrite (binary_round_big s p 0 (d - 53)) by (unfold d in *; lia).
      destruct (bra_faithful s p 0 loc_Exact (d - 53))
        as (m & e & -> & Hdm & He & _); try (unfold d in *; lia).
      exists m, e. repeat split; (assumption || lia). }
    destruct z as [|p|p]; try lia; unfold dyadic; cbn [binary_normalize].
    + apply Hbig. simpl in Hb. lia.
    + apply Hbig. simpl in Hb. lia.
Qed.

(** ** AnalyzeHighestFrequency *)

Lemma crossing_strict a b :
  crossing a b = true <-> (0 < a /\ b < 0) \/ (a < 0 /\ 0 < b).
Proof.
  unfold crossing.
  destruct (Z.ltb_spec 0 a), (Z.ltb_spec b 0), (Z.ltb_spec a 0), (Z.ltb_spec 0 b);
    simpl; split; intros Hc; try discriminate; try reflexivity; lia.
Qed.

Lemma crossing_zero a : crossing a 0 = false /\ crossing 0 a = false.
Proof.
  unfold crossing. split.
  - destruct (0 <? a), (a <? 0); reflexivity.
  - destruct (a <? 0), (0 <? a); reflexivity.
Qed.

Lemma crossings_body_ok (w : waveform) i a b zeroCrossings :
  w !! (i - 1)%nat = Some a -> w !! i = Some b ->
  crossings_body w i zeroCrossings
  = Ret (if crossing a b then zeroCrossings + 1 else zeroCrossings).
Proof.
  intros Ha Hb. unfold crossings_body, index. rewrite Ha, Hb. reflexivity.
Qed.

(** The index loop counts the sign changes between neighbours. *)
Lemma crossings_loop (w : waveform) :
  forall tl pre a acc,
    w = pre ++ a :: tl ->
    for_range (crossings_body w) (length pre + 1) (length tl) acc
    = Ret (acc + count_sign_changes (a :: tl)).
Proof.
  induction tl as [|b tl IH]; intros pre a acc Hw.
  - simpl. f_equal. lia.
  - cbn [length for_range].
    assert (Ha : w !! (length pre + 1 - 1)%nat = Some a).
    { rewrite Hw. apply list_lookup_middle. lia. }
    assert (Hb : w !! (length pre + 1)%nat = Some b).
    { rewrite Hw. rewrite (cons_middle a pre (b :: tl)), app_assoc.
      apply list_lookup_middle. rewrite length_app. simpl. lia. }
    rewrite (crossings_body_ok w _ a b acc Ha Hb). cbn [mbind outcome_bind].
    replace (Datatypes.S (length pre + 1)) with (length (pre ++ [a]) + 1)%nat
      by (rewrite length_app; simpl; lia).
    rewrite (IH (pre ++ [a]) b) by (rewrite Hw, <- app_assoc; reflexivity).
    f_equal. cbn [count_sign_changes]. destruct (crossing a b); lia.
Qed.

Lemma crossings_count (w : waveform) :
  for_range (crossings_body w) 1 (length w - 1) 0 = Ret (count_sign_changes w).
Proof.
  destruct w as [|a tl]; [reflexivity|].
  cbn [length]. replace (Datatypes.S (length tl) - 1)%nat with (length tl) by lia.
  apply (crossings_loop (a :: tl) tl [] a 0). reflexivity.
Qed.

(** One sample: no crossing, and a denominator that is not zero. *)
Lemma frequency_of_one_sample sampleRate :
  - 2 ^ 63 <= sampleRate < 2 ^ 63 ->
  f64_div (f64_of_int 0)
          (f64_mul (f64_of_int 2) (f64_div (f64_of_int 1) (f64_of_int sampleRate)))
  = S754_zero (sampleRate <? 0).
Proof.
  intros Hsr. destruct (Z.eq_dec sampleRate 0) as [->|Hnz]; [reflexivity|].
  destruct (f64_of_int64 sampleRate Hnz Hsr) as (mN & eN & -> & HdN & HeN).
  change (f64_of_int 1) with (S754_finite false (2 ^ 52) (-52)).
  change (f64_of_int 2) with (S754_finite false (2 ^ 52) (-51)).
  change (f64_of_int 0) with (S754_zero false).
  unfold f64_div, f64_mul.
  destruct (SFdiv_faithful false (2 ^ 52) (-52) (sampleRate <? 0) mN eN)
    as (m & e & n & -> & Hdm & Hn & He & _); [reflexivity | assumption | lia |].
  destruct (SFmul_faithful false (2 ^ 52) (-51) (xorb false (sampleRate <? 0)) m e)
    as (m' & e' & n' & -> & _); [reflexivity | assumption | lia |].
  cbn [SFdiv xorb]. reflexivity.
Qed.

(** C9 (amended).  AnalyzeHighestFrequency counts the strict sign changes
    between consecutive samples (a zero sample never takes part in one)
    and returns [zeroCrossings / (2 * duration)] with
    [duration = length / sampleRate], computed in float64; for a waveform
    of length 1 the result is zero. *)
Theorem AnalyzeHighestFrequency_crossings :
  (forall (w : waveform) sampleRate,
      AnalyzeHighestFrequency w sampleRate
      = Ret (f64_div (f64_of_int (count_sign_changes w))
                     (f64_mul (f64_of_int 2)
                              (f64_div (f64_of_int (Z.of_nat (length w)))
                                       (f64_of_int sampleRate))))) /\
  (forall a b, crossing a b = true <-> (0 < a /\ b < 0) \/ (a < 0 /\ 0 < b)) /\
  (forall a, crossing a 0 = false /\ crossing 0 a = false) /\
  (forall s sampleRate,
      - 2 ^ 63 <= sampleRate < 2 ^ 63 ->
      AnalyzeHighestFrequency [s] sampleRate = Ret (S754_zero (sampleRate <? 0))).
Proof.
  split; [|split; [exact crossing_strict | split; [exact crossing_zero|]]].
  - intros w sampleRate. unfold AnalyzeHighestFrequency. cbv zeta.
    rewrite crossings_count. reflexivity.
  - intros s sampleRate Hsr. unfold AnalyzeHighestFrequency. cbv zeta.
    rewrite crossings_count. cbn [mbind outcome_bind count_sign_changes length].
    f_equal. apply frequency_of_one_sample. exact Hsr.
Qed.

Lemma AnalyzeHighestFrequency_crossings_witness :
  AnalyzeHighestFrequency [1000] 44100 = Ret (S754_zero false).
Proof.
  destruct AnalyzeHighestFrequency_crossings as (_ & _ & _ & H).
  apply (H 1000 44100). lia.
Defined.

(** C9 as stated fails on the empty waveform: the duration is 0 and the
    quotient 0 / 0 is a NaN, not 0.  On [1000, -1000, 1000, -1000] there
    are 3 crossings and the estimate is 16537.5. *)
Lemma AnalyzeHighestFrequency_empty_nan :
  AnalyzeHighestFrequency [] 44100 = Ret S754_nan /\
  count_sign_changes [1000; -1000; 1000; -1000] = 3 /\
  AnalyzeHighestFrequency [1000; -1000; 1000; -1000] 44100 = Ret (dyadic 33075 (-1)).
Proof. repeat split. Qed.

(** ** NormalizeSamples *)

(** Relative error of a faithfully rounded mantissa. *)
Lemma rel_error c p A M W V :
  0 < c -> 0 < p -> 0 < W -> c <= A -> A <= M <= A + 1 ->
  p * A * W <= V < p * (A + 1) * W ->
  c * (p * (M * W)) <= (c + 1) * V /\ (c - 1) * V <= c * (p * (M * W)).
Proof.
  intros Hc Hp HW HA HM HV.
  set (pw := p * W). assert (Hpw : 0 < pw) by (unfold pw; nia).
  replace (p * A * W) with (A * pw) in HV by (unfold pw; ring).
  replace (p * (A + 1) * W) with (A * pw + pw) in HV by (unfold pw; ring).
  replace (p * (M * W)) with (M * pw) by (unfold pw; ring).
  assert (H1 : c * pw <= A * pw) by (apply Z.mul_le_mono_nonneg_r; lia).
  assert (H2 : A * pw <= M * pw) by (apply Z.mul_le_mono_nonneg_r; lia).
  assert (H3 : M * pw <= A * pw + pw).
  { replace (A * pw + pw) with ((A + 1) * pw) by ring.
    apply Z.mul_le_mono_nonneg_r; lia. }
  assert (H4 : c * (M * pw) <= c * (A * pw + pw)) by (apply Z.mul_le_mono_nonneg_l; lia).
  assert (H5 : c * (A * pw) <= c * (M * pw)) by (apply Z.mul_le_mono_nonneg_l; lia).
  assert (H6 : c * (A * pw) <= c * V) by (apply Z.mul_le_mono_nonneg_l; lia).
  assert (H7 : c * V < c * (A * pw + pw)) by (apply Z.mul_lt_mono_pos_l; lia).
  split; lia.
Qed.

(** The exact quotient lies between two neighbouring multiples of the
    unit in the last place of the rounded quotient. *)
Lemma div_bracket mt et mp ep t p n :
  0 < Zpos mp -> 0 <= n ->
  0 <= et + 1074 -> 0 <= ep + 1074 -> 0 <= et - ep - 53 + n + 1074 ->
  Zpos mt * 2 ^ (et + 1074) = t * 2 ^ 1074 ->
  Zpos mp * 2 ^ (ep + 1074) = p * 2 ^ 1074 ->
  let A := Zpos mt * 2 ^ 53 / Zpos mp / 2 ^ n in
  let W := 2 ^ (et - ep - 53 + n + 1074) in
  p * A * W <= t * 2 ^ 1074 < p * (A + 1) * W.
Proof.
  intros Hmp Hn Het Hep Hw Ht Hp A W.
  set (Q := Zpos mt * 2 ^ 53 / Zpos mp) in *.
  set (c := 2 ^ n). set (Et := 2 ^ (et + 1074)) in *. set (Ep := 2 ^ (ep + 1074)) in *.
  set (U := 2 ^ 1074) in *.
  assert (Hc : 0 < c) by (apply pow2_pos; lia).
  assert (HU : 0 < U) by (apply pow2_pos; lia).
  assert (HEt : 0 < Et) by (apply pow2_pos; lia).
  assert (HEp : 0 < Ep) by (apply pow2_pos; lia).
  assert (HW : 0 < W) by (apply pow2_pos; lia).
  assert (Hscale : W * 2 ^ 53 * Ep = c * Et * U).
  { unfold W, Ep, c, Et, U. rewrite <- !Z.pow_add_r by lia. f_equal. lia. }
  assert (HQ : Q * Zpos mp <= Zpos mt * 2 ^ 53 < (Q + 1) * Zpos mp).
  { pose proof (Z.mul_div_le (Zpos mt * 2 ^ 53) (Zpos mp) Hmp) as H1.
    pose proof (Z.mul_succ_div_gt (Zpos mt * 2 ^ 53) (Zpos mp) Hmp) as H2.
    fold Q in H1, H2. unfold Z.succ in H2.
    rewrite (Z.mul_comm Q), (Z.mul_comm (Q + 1)). split; assumption. }
  assert (HA : A * c <= Q < (A + 1) * c).
  { pose proof (Z.mul_div_le Q c Hc) as H1.
    pose proof (Z.mul_succ_div_gt Q c Hc) as H2.
    fold A in H1, H2. unfold Z.succ in H2.
    rewrite (Z.mul_comm A), (Z.mul_comm (A + 1)). split; assumption. }
  assert (HQ0 : 0 <= Q) by (apply Z.div_pos; [pose proof (pow2_pos 53); nia | lia]).
  assert (HA0 : 0 <= A) by (apply Z.div_pos; lia).
  assert (Hcancel : 0 < U * c * 2 ^ 53) by (pose proof (pow2_pos 53); nia).
  assert (Hp0 : 0 < p) by nia.
  split.
  - apply (Z.mul_le_mono_pos_r _ _ (U * c * 2 ^ 53)); [exact Hcancel|].
    replace (p * A * W * (U * c * 2 ^ 53)) with ((p * U) * (A * c) * (W * 2 ^ 53)) by ring.
    rewrite <- Hp.
    replace (Zpos mp * Ep * (A * c) * (W * 2 ^ 53))
      with ((A * c * Zpos mp) * (W * 2 ^ 53 * Ep)) by ring.
    rewrite Hscale.
    replace (t * U * (U * c * 2 ^ 53)) with ((t * U) * 2 ^ 53 * (c * U)) by ring.
    rewrite <- Ht.
    replace (Zpos mt * Et * 2 ^ 53 * (c * U)) with ((Zpos mt * 2 ^ 53) * (c * Et * U)) by ring.
    apply Z.mul_le_mono_nonneg_r; [nia|].
    assert (A * c * Zpos mp <= Q * Zpos mp) by (apply Z.mul_le_mono_nonneg_r; lia).
    lia.
  - apply (Z.mul_lt_mono_pos_r (U * c * 2 ^ 53)); [exact Hcancel|].
    replace (p * (A + 1) * W * (U * c * 2 ^ 53))
      with ((p * U) * ((A + 1) * c) * (W * 2 ^ 53)) by ring.
    rewrite <- Hp.
    replace (Zpos mp * Ep * ((A + 1) * c) * (W * 2 ^ 53))
      with (((A + 1) * c * Zpos mp) * (W * 2 ^ 53 * Ep)) by ring.
    rewrite Hscale.
    replace (t * U * (U * c * 2 ^ 53)) with ((t * U) * 2 ^ 53 * (c * U)) by ring.
    rewrite <- Ht.
    replace (Zpos mt * Et * 2 ^ 53 * (c * U)) with ((Zpos mt * 2 ^ 53) * (c * Et * U)) by ring.
    apply Z.mul_lt_mono_pos_r; [nia|].
    assert ((Q + 1) * Zpos mp <= (A + 1) * c * Zpos mp)
      by (apply Z.mul_le_mono_nonneg_r; lia).
    lia.
Qed.

(** The same for a product. *)
Lemma mul_bracket ms es mD eD a n :
  0 <= n -> 0 <= es + 1074 -> 0 <= eD + 1074 -> 0 <= es + eD + n + 1074 ->
  Zpos ms * 2 ^ (es + 1074) = a * 2 ^ 1074 ->
  let X := Zpos mD * 2 ^ (eD + 1074) in
  let B := Zpos ms * Zpos mD / 2 ^ n in
  let V := 2 ^ (es + eD + n + 1074) in
  1 * B * V <= a * X < 1 * (B + 1) * V.
Proof.
  intros Hn Hes HeD Hv Hs X B V.
  set (P := Zpos ms * Zpos mD) in *.
  set (c := 2 ^ n). set (Es := 2 ^ (es + 1074)) in *. set (ED := 2 ^ (eD + 1074)) in *.
  set (U := 2 ^ 1074) in *.
  assert (Hc : 0 < c) by (apply pow2_pos; lia).
  assert (HU : 0 < U) by (apply pow2_pos; lia).
  assert (HEs : 0 < Es) by (apply pow2_pos; lia).
  assert (HED : 0 < ED) by (apply pow2_pos; lia).
  assert (HV : 0 < V) by (apply pow2_pos; lia).
  assert (Hscale : V * U = c * (Es * ED)).
  { unfold V, U, c, Es, ED. rewrite <- !Z.pow_add_r by lia. f_equal. lia. }
  assert (HB : B * c <= P < (B + 1) * c).
  { pose proof (Z.mul_div_le P c Hc) as H1.
    pose proof (Z.mul_succ_div_gt P c Hc) as H2.
    fold B in H1, H2. unfold Z.succ in H2.
    rewrite (Z.mul_comm B), (Z.mul_comm (B + 1)). split; assumption. }
  assert (HaX : a * X * (U * c) = P * (c * (Es * ED))).
  { unfold X. fold ED. replace (a * (Zpos mD * ED) * (U * c)) with ((a * U) * Zpos mD * ED * c) by ring.
    rewrite <- Hs. unfold P. ring. }
  assert (Hcancel : 0 < U * c) by nia.
  assert (HEE : 0 < c * (Es * ED)) by nia.
  split.
  - apply (Z.mul_le_mono_pos_r _ _ (U * c)); [exact Hcancel|].
    rewrite HaX.
    replace (1 * B * V * (U * c)) with ((B * c) * (V * U)) by ring.
    rewrite Hscale. apply Z.mul_le_mono_nonneg_r; lia.
  - apply (Z.mul_lt_mono_pos_r (U * c)); [exact Hcancel|].
    rewrite HaX.
    replace (1 * (B + 1) * V * (U * c)) with (((B + 1) * c) * (V * U)) by ring.
    rewrite Hscale. apply Z.mul_lt_mono_pos_r; lia.
Qed.

Lemma float_of_nonzero z :
  z <> 0 -> Z.abs z < 2 ^ 53 ->
  exists m e, f64_of_int z = S754_finite (z <? 0) m e /\
              Zpos (digits2_pos m) = 53 /\ -52 <= e <= 0 /\
              Zpos m * 2 ^ (e + 1074) = Z.abs z * 2 ^ 1074.
Proof.
  intros Hnz Hz. rewrite f64_of_int_dyadic.
  destruct (dyadic_finite z 0 Hnz Hz) as (m & Hf & Hm & Hd & Hdz); [lia|].
  exists m, (0 + Zdigits2 z - 53). repeat split; try (assumption || lia).
  rewrite Hm, <- Z.mul_assoc, <- Z.pow_add_r by lia. f_equal. f_equal. lia.
Qed.

(** The scale factor [targetPeak / currentPeak]: a normal float within
    a relative error of 2^-52 of the exact quotient. *)
Lemma scale_error t p :
  1 <= t <= 32767 -> 1 <= p <= 32767 ->
  exists mD eD,
    f64_div (f64_of_int t) (f64_of_int p) = S754_finite false mD eD /\
    Zpos (digits2_pos mD) = 53 /\ -106 <= eD <= 1 /\
    2 ^ 52 * (p * (Zpos mD * 2 ^ (eD + 1074))) <= (2 ^ 52 + 1) * (t * 2 ^ 1074) /\
    (2 ^ 52 - 1) * (t * 2 ^ 1074) <= 2 ^ 52 * (p * (Zpos mD * 2 ^ (eD + 1074))).
Proof.
  intros Ht Hp.
  destruct (float_of_nonzero t) as (mt & et & -> & Hdt & Het & Hvt); [lia | lia |].
  destruct (float_of_nonzero p) as (mp & ep & -> & Hdp & Hep & Hvp); [lia | lia |].
  replace (t <? 0) with false by (symmetry; apply Z.ltb_ge; lia).
  replace (p <? 0) with false by (symmetry; apply Z.ltb_ge; lia).
  rewrite Z.abs_eq in Hvt, Hvp by lia.
  unfold f64_div.
  destruct (SFdiv_faithful false mt et false mp ep Hdt Hdp)
    as (m & e & n & -> & Hdm & Hn & He & HQ & Hv); [lia|].
  exists m, e. cbn [xorb]. split; [reflexivity|]. split; [assumption|]. split; [lia|].
  pose proof (div_bracket mt et mp ep t p n ltac:(lia) ltac:(lia) ltac:(lia) ltac:(lia)
                ltac:(lia) Hvt Hvp) as Hbr.
  cbv zeta in Hbr.
  assert (HA : 2 ^ 52 <= Zpos mt * 2 ^ 53 / Zpos mp / 2 ^ n).
  { apply Z.div_le_lower_bound; [apply pow2_pos; lia|].
    rewrite <- Z.pow_add_r by lia. replace (n + 52) with (52 + n) by lia. lia. }
  assert (HX : Zpos m * 2 ^ (e + 1074)
               = (Zpos m * 2 ^ (e - (et - ep - 53) - n)) * 2 ^ (et - ep - 53 + n + 1074)).
  { rewrite <- Z.mul_assoc, <- Z.pow_add_r by lia. f_equal. f_equal. lia. }
  rewrite HX.
  apply (rel_error (2 ^ 52) p (Zpos mt * 2 ^ 53 / Zpos mp / 2 ^ n)); try lia;
    apply pow2_pos; lia.
Qed.

(** A sample times the scale factor: again within 2^-52. *)
Lemma product_error s mD eD :
  s <> 0 -> Z.abs s <= 32767 ->
  Zpos (digits2_pos mD) = 53 -> -106 <= eD <= 1 ->
  exists mr er,
    f64_mul (f64_of_int s) (S754_finite false mD eD) = S754_finite (s <? 0) mr er /\
    Zpos (digits2_pos mr) = 53 /\ -1074 <= er <= 971 /\
    2 ^ 52 * (Zpos mr * 2 ^ (er + 1074))
      <= (2 ^ 52 + 1) * (Z.abs s * (Zpos mD * 2 ^ (eD + 1074))) /\
    (2 ^ 52 - 1) * (Z.abs s * (Zpos mD * 2 ^ (eD + 1074)))
      <= 2 ^ 52 * (Zpos mr * 2 ^ (er + 1074)).
Proof.
  intros Hnz Hs HdD HeD.
  destruct (float_of_nonzero s) as (ms & es & -> & Hds & Hes & Hvs); [lia | lia |].
  unfold f64_mul.
  destruct (SFmul_faithful (s <? 0) ms es false mD eD Hds HdD)
    as (m & e & n & -> & Hdm & Hn & He & HP & Hv); [lia|].
  exists m, e. rewrite xorb_false_r. split; [reflexivity|]. split; [assumption|].
  split; [lia|].
  pose proof (mul_bracket ms es mD eD (Z.abs s) n ltac:(lia) ltac:(lia) ltac:(lia)
                ltac:(lia) Hvs) as Hbr.
  cbv zeta in Hbr.
  assert (HB : 2 ^ 52 <= Zpos ms * Zpos mD / 2 ^ n).
  { apply Z.div_le_lower_bound; [apply pow2_pos; lia|].
    rewrite <- Z.pow_add_r by lia. replace (n + 52) with (52 + n) by lia. lia. }
  assert (HY : Zpos m * 2 ^ (e + 1074)
               = 1 * ((Zpos m * 2 ^ (e - (es + eD) - n)) * 2 ^ (es + eD + n + 1074))).
  { rewrite Z.mul_1_l, <- Z.mul_assoc, <- Z.pow_add_r by lia. f_equal. f_equal. lia. }
  rewrite HY.
  apply (rel_error (2 ^ 52) 1 (Zpos ms * Zpos mD / 2 ^ n)); try lia;
    apply pow2_pos; lia.
Qed.

Lemma quot_bounds Y t :
  0 <= t -> 0 <= Y < (t + 1) * 2 ^ 1074 ->
  0 <= Y ÷ 2 ^ 1074 <= t /\ ((t - 1) * 2 ^ 1074 <= Y -> t - 1 <= Y ÷ 2 ^ 1074).
Proof.
  intros Ht HY. pose proof U_pos as HU.
  rewrite Z.quot_div_nonneg by lia. repeat split.
  - apply Z.div_pos; lia.
  - assert (Y / 2 ^ 1074 < t + 1) by (apply Z.div_lt_upper_bound; lia). lia.
  - intros Hlo. apply Z.div_le_lower_bound; lia.
Qed.

(** With the scale factor [t / p], a sample of absolute value at most [p]
    is mapped to a sample of absolute value at most [t], and a sample of
    absolute value [p] to one of absolute value [t - 1] or [t]. *)
Lemma normalize_sample_bounds t p s :
  0 <= t <= 32767 -> 1 <= p <= 32767 -> Z.abs s <= p ->
  Z.abs (normalize_sample (f64_div (f64_of_int t) (f64_of_int p)) s) <= t /\
  (Z.abs s = p ->
   t - 1 <= Z.abs (normalize_sample (f64_div (f64_of_int t) (f64_of_int p)) s)).
Proof.
  intros Ht Hp Hs. pose proof U_pos as HU. unfold normalize_sample.
  destruct (Z.eq_dec t 0) as [->|Ht0].
  { (* a zero target: every product is a zero *)
    destruct (float_of_nonzero p) as (mp & ep & -> & _); [lia | lia |].
    change (f64_of_int 0) with (S754_zero false). cbn [f64_div SFdiv xorb].
    replace (p <? 0) with false by (symmetry; apply Z.ltb_ge; lia).
    assert (Hz : exists sg, f64_mul (f64_of_int s) (S754_zero false) = S754_zero sg).
    { destruct (Z.eq_dec s 0) as [->|Hs0]; [exists false; reflexivity|].
      destruct (float_of_nonzero s) as (ms & es & -> & _); [lia | lia |].
      eexists. reflexivity. }
    destruct Hz as [sg ->]. rewrite int16_of_clamp by exact I.
    cbn [sval]. rewrite Z.quot_0_l by lia. unfold saturate, MinInt16, MaxInt16. lia. }
  destruct (scale_error t p) as (mD & eD & -> & HdD & HeD & Hup & Hlo); [lia | lia |].
  destruct (Z.eq_dec s 0) as [->|Hs0].
  { change (f64_of_int 0) with (S754_zero false). cbn [f64_mul SFmul xorb].
    rewrite int16_of_clamp by exact I.
    cbn [sval]. rewrite Z.quot_0_l by lia. unfold saturate, MinInt16, MaxInt16. lia. }
  destruct (product_error s mD eD Hs0) as (mr & er & -> & Hdr & Her & Hup2 & Hlo2);
    [lia | assumption | assumption |].
  rewrite int16_of_clamp by (simpl; lia).
  cbn [sval].
  set (X := Zpos mD * 2 ^ (eD + 1074)) in *.
  set (Y := Zpos mr * 2 ^ (er + 1074)) in *.
  set (TU := t * 2 ^ 1074) in *.
  assert (HX : 0 < X) by (apply sval_finite_pos; lia).
  assert (HY : 0 < Y) by (apply sval_finite_pos; lia).
  assert (HTU : 2 ^ 1074 <= TU <= 32767 * 2 ^ 1074) by (unfold TU; nia).
  assert (HsX : Z.abs s * X <= p * X) by (apply Z.mul_le_mono_nonneg_r; lia).
  (* the product is below t + 1 *)
  assert (Hbelow : Y < (t + 1) * 2 ^ 1074).
  { assert (2 ^ 52 * (2 ^ 52 * Y) <= (2 ^ 52 + 1) * ((2 ^ 52 + 1) * TU)).
    { transitivity ((2 ^ 52 + 1) * (2 ^ 52 * (p * X))).
      - assert (2 ^ 52 * (2 ^ 52 * Y) <= 2 ^ 52 * ((2 ^ 52 + 1) * (p * X)))
          by (apply Z.mul_le_mono_nonneg_l; lia).
        lia.
      - apply Z.mul_le_mono_nonneg_l; lia. }
    replace ((t + 1) * 2 ^ 1074) with (TU + 2 ^ 1074) by (unfold TU; ring). lia. }
  destruct (quot_bounds Y t ltac:(lia) ltac:(lia)) as ([Hq0 Hqt] & Hqlo).
  assert (Hsat : forall b, Z.abs (saturate (cond_Zopp b Y ÷ 2 ^ 1074)) = Y ÷ 2 ^ 1074).
  { intros b. destruct b; cbn [cond_Zopp].
    - rewrite Z.quot_opp_l by lia. unfold saturate, MinInt16, MaxInt16. lia.
    - unfold saturate, MinInt16, MaxInt16. lia. }
  rewrite Hsat. split; [exact Hqt|].
  intros Hsp. apply Hqlo.
  (* the product of a peak sample is at least t - 1 *)
  rewrite Hsp in Hlo2.
  assert ((2 ^ 52 - 1) * ((2 ^ 52 - 1) * TU) <= 2 ^ 52 * (2 ^ 52 * Y)).
  { transitivity ((2 ^ 52 - 1) * (2 ^ 52 * (p * X))).
    - apply Z.mul_le_mono_nonneg_l; lia.
    - assert (2 ^ 52 * ((2 ^ 52 - 1) * (p * X)) <= 2 ^ 52 * (2 ^ 52 * Y))
        by (apply Z.mul_le_mono_nonneg_l; lia).
      lia. }
  replace ((t - 1) * 2 ^ 1074) with (TU - 2 ^ 1074) by (unfold TU; ring). lia.
Qed.

Lemma normalize_body_store (samples : waveform) scale i s (combined : waveform) :
  samples !! i = Some s -> (i < length combined)%nat ->
  normalize_body samples scale i combined
  = Ret (<[i := normalize_sample scale s]> combined).
Proof.
  intros Hs Hi. unfold normalize_body, index. rewrite Hs. cbn [mbind outcome_bind].
  unfold normalize_sample, clamp_f64.
  destruct (f64_gt (f64_mul (f64_of_int s) scale) (f64_of_int MaxInt16)).
  - rewrite store_in_range by exact Hi. reflexivity.
  - destruct (f64_lt (f64_mul (f64_of_int s) scale) (f64_of_int MinInt16));
      rewrite store_in_range by exact Hi; reflexivity.
Qed.

Lemma map_seq_sample_at (g : Z -> Z) (w : waveform) :
  map (fun i => g (sample_at w i)) (seq 0 (length w)) = map g w.
Proof.
  apply list_eq. intros i. rewrite !list_lookup_fmap. unfold sample_at.
  destruct (decide (i < length w)%nat) as [Hi|Hi].
  - rewrite lookup_seq_lt by exact Hi.
    destruct (lookup_lt_is_Some_2 w i Hi) as [x Hx]. simpl. rewrite !Hx. reflexivity.
  - rewrite lookup_seq_ge by lia. rewrite (lookup_ge_None_2 w i) by lia. reflexivity.
Qed.

(** Every output sample is the input sample times the scale factor,
    clamped and truncated. *)
Lemma NormalizeSamples_map (w : waveform) targetPeak :
  FindPeakAmplitude w <> 0 ->
  NormalizeSamples w targetPeak
  = Ret (map (normalize_sample
                (f64_div (f64_of_int targetPeak) (f64_of_int (FindPeakAmplitude w)))) w).
Proof.
  intros Hpk. unfold NormalizeSamples. cbv zeta.
  destruct (Z.eqb_spec (FindPeakAmplitude w) 0) as [E|_]; [contradiction|].
  rewrite <- map_seq_sample_at.
  apply for_range_fill_all. intros i s Hi Hs.
  destruct (lookup_lt_is_Some_2 w i Hi) as [x Hx].
  rewrite (normalize_body_store w _ i x s Hx) by lia.
  unfold sample_at. rewrite Hx. reflexivity.
Qed.

Lemma max_abs_nonneg (w : waveform) : 0 <= max_abs w.
Proof. induction w; simpl; lia. Qed.

Lemma max_abs_ge (w : waveform) s : s ∈ w -> Z.abs s <= max_abs w.
Proof.
  induction w as [|x w IH]; intros Hin.
  - inversion Hin.
  - simpl. apply elem_of_cons in Hin as [->|Hin]; [lia|]. specialize (IH Hin). lia.
Qed.

Lemma max_abs_attained (w : waveform) :
  0 < max_abs w -> exists s, s ∈ w /\ Z.abs s = max_abs w.
Proof.
  induction w as [|x w IH]; simpl; intros Hpos; [lia|].
  destruct (Z.le_gt_cases (max_abs w) (Z.abs x)) as [Hle|Hgt].
  - exists x. split; [apply list_elem_of_here | lia].
  - destruct IH as (s & Hin & Hs); [lia|].
    exists s. split; [apply list_elem_of_further; exact Hin | lia].
Qed.

Lemma max_abs_le (w : waveform) b :
  0 <= b -> Forall (fun s => Z.abs s <= b) w -> max_abs w <= b.
Proof.
  intros Hb Hw. induction Hw as [|x w Hx Hw IH]; simpl; lia.
Qed.

(** C2 (amended).  When the peak of the input is 0, NormalizeSamples
    returns the input unchanged.  Otherwise, for samples other than
    -32768 and a target peak [t] in [0, 32767], every output sample is
    the input sample times the float [t / currentPeak], clamped and
    truncated toward zero, and the peak of the output is [t] or
    [t - 1]. *)
Theorem NormalizeSamples_peak :
  (forall (w : waveform) targetPeak,
      FindPeakAmplitude w = 0 -> NormalizeSamples w targetPeak = Ret w) /\
  (forall (w : waveform) targetPeak,
      Forall (fun s => -32767 <= s <= 32767) w ->
      FindPeakAmplitude w <> 0 ->
      0 <= targetPeak <= 32767 ->
      exists out,
        NormalizeSamples w targetPeak = Ret out /\
        out = map (normalize_sample
                     (f64_div (f64_of_int targetPeak) (f64_of_int (FindPeakAmplitude w)))) w /\
        targetPeak - 1 <= FindPeakAmplitude out <= targetPeak).
Proof.
  split.
  - intros w targetPeak Hpk. unfold NormalizeSamples. cbv zeta. rewrite Hpk. reflexivity.
  - intros w t Hw Hpk Ht.
    rewrite NormalizeSamples_map by exact Hpk.
    eexists. split; [reflexivity|]. split; [reflexivity|].
    rewrite (FindPeakAmplitude_max w Hw) in *.
    set (p := max_abs w) in *.
    pose proof (max_abs_nonneg w) as Hp0. fold p in Hp0.
    assert (Hp : 1 <= p <= 32767).
    { split; [lia|]. apply max_abs_le; [lia|].
      eapply Forall_impl; [exact Hw|]. simpl. intros. lia. }
    set (g := normalize_sample (f64_div (f64_of_int t) (f64_of_int p))).
    assert (Hg : Forall (fun v => Z.abs v <= t) (map g w)).
    { apply Forall_fmap, Forall_forall. intros s Hin.
      apply (normalize_sample_bounds t p s); try lia.
      apply max_abs_ge. exact Hin. }
    rewrite FindPeakAmplitude_max
      by (eapply Forall_impl; [exact Hg|]; simpl; intros; lia).
    split.
    + destruct (max_abs_attained w) as (s & Hin & Hs); [fold p; lia|].
      transitivity (Z.abs (g s)).
      * apply (normalize_sample_bounds t p s); lia.
      * apply max_abs_ge. apply list_elem_of_fmap_2. exact Hin.
    + apply max_abs_le; [lia | exact Hg].
Qed.

Lemma NormalizeSamples_peak_witness :
  exists out,
    NormalizeSamples [100; 200; -300] 1000 = Ret out /\
    out = map (normalize_sample
                 (f64_div (f64_of_int 1000) (f64_of_int (FindPeakAmplitude [100; 200; -300]))))
              [100; 200; -300] /\
    1000 - 1 <= FindPeakAmplitude out <= 1000.
Proof.
  destruct NormalizeSamples_peak as [_ H].
  apply (H [100; 200; -300] 1000).
  - repeat (apply Forall_cons; split); try apply Forall_nil; lia.
  - vm_compute. discriminate.
  - lia.
Defined.

(** C2 as stated fails: the product is truncated, not rounded, and the
    float product of 49 and 1/49 falls just below 1, so [49] normalized
    to the peak 1 is [0]; and a negative target is not reached as a
    peak, [10] normalized to -5 is [-5] with peak 5. *)
Lemma NormalizeSamples_misses_target :
  FindPeakAmplitude [49] = 49 /\
  NormalizeSamples [49] 1 = Ret [0] /\
  FindPeakAmplitude [0] = 0 /\
  NormalizeSamples [10] (-5) = Ret [-5] /\
  FindPeakAmplitude [-5] = 5.
Proof. repeat split. Qed.

(** ** PadSamples *)

Lemma copy_into_zeros (w : waveform) n :
  (length w <= n)%nat ->
  copy (replicate n 0) w = w ++ replicate (n - length w) 0.
Proof.
  intros H. unfold copy. rewrite length_replicate, take_ge by lia.
  rewrite drop_replicate. reflexivity.
Qed.

Lemma PadSamples_app (wave1 wave2 : waveform) :
  PadSamples wave1 wave2
  = (wave1 ++ replicate (length wave2 - length wave1) 0,
     wave2 ++ replicate (length wave1 - length wave2) 0).
Proof.
  unfold PadSamples.
  destruct (decide (length wave1 = length wave2)) as [E|E].
  - rewrite E, Nat.sub_diag. simpl. rewrite !app_nil_r. reflexivity.
  - destruct (decide (length wave1 < length wave2)%nat) as [L|L].
    + rewrite copy_into_zeros by lia.
      replace (length wave1 - length wave2)%nat with 0%nat by lia.
      simpl. rewrite app_nil_r. reflexivity.
    + rewrite copy_into_zeros by lia.
      replace (length wave2 - length wave1)%nat with 0%nat by lia.
      simpl. rewrite app_nil_r. reflexivity.
Qed.

(** X1. PadSamples returns two waveforms of the same length, the larger
    of the two input lengths; each one is its input followed by zeros
    only, so no sample is dropped or changed, and the longer input (or
    both, when the lengths agree) comes back as it was. *)
Theorem PadSamples_pads_with_zeros (wave1 wave2 : waveform) :
  let '(padded1, padded2) := PadSamples wave1 wave2 in
  length padded1 = length padded2 /\
  length padded1 = Nat.max (length wave1) (length wave2) /\
  padded1 = wave1 ++ replicate (length wave2 - length wave1) 0 /\
  padded2 = wave2 ++ replicate (length wave1 - length wave2) 0 /\
  ((length wave2 <= length wave1)%nat -> padded1 = wave1) /\
  ((length wave1 <= length wave2)%nat -> padded2 = wave2).
Proof.
  rewrite PadSamples_app.
  repeat split.
  - rewrite !length_app, !length_replicate. lia.
  - rewrite length_app, length_replicate. lia.
  - intros H. replace (length wave2 - length wave1)%nat with 0%nat by lia.
    simpl. apply app_nil_r.
  - intros H. replace (length wave1 - length wave2)%nat with 0%nat by lia.
    simpl. apply app_nil_r.
Qed.

Lemma PadSamples_lengths (wave1 wave2 : waveform) :
  length (PadSamples wave1 wave2).1 = length (PadSamples wave1 wave2).2.
Proof.
  rewrite PadSamples_app. simpl. rewrite !length_app, !length_replicate. lia.
Qed.

Lemma wf_waveform_pad (w : waveform) k :
  wf_waveform w -> wf_waveform (w ++ replicate k 0).
Proof.
  intros H. apply Forall_app. split; [exact H|].
  apply Forall_replicate. unfold is_int16, MinInt16, MaxInt16. lia.
Qed.

Lemma PadSamples_wf (wave1 wave2 : waveform) :
  wf_waveform wave1 -> wf_waveform wave2 ->
  wf_waveform (PadSamples wave1 wave2).1 /\ wf_waveform (PadSamples wave1 wave2).2.
Proof.
  intros H1 H2. rewrite PadSamples_app. simpl.
  split; apply wf_waveform_pad; assumption.
Qed.

(** X2. Padding is idempotent: padding an already padded pair changes
    nothing. *)
Theorem PadSamples_idempotent (wave1 wave2 : waveform) :
  let '(padded1, padded2) := PadSamples wave1 wave2 in
  PadSamples padded1 padded2 = (padded1, padded2).
Proof.
  pose proof (PadSamples_lengths wave1 wave2) as H.
  destruct (PadSamples wave1 wave2) as [p1 p2]. simpl in H.
  unfold PadSamples. destruct (decide (length p1 = length p2)); [reflexivity|contradiction].
Qed.

(** ** FindPeakAmplitude on every waveform *)

Lemma peak_fold_general (w : waveform) acc :
  wf_waveform w -> 0 <= acc ->
  fold_left (fun maxAmplitude sample =>
               let abs := abs_int16 sample in
               if maxAmplitude <? abs then abs else maxAmplitude) w acc
  = Z.max acc (max_abs (filter (fun s => s <> MinInt16) w)).
Proof.
  intros Hw. revert acc. induction Hw as [|s w Hs Hw IH]; intros acc Hacc.
  - simpl. lia.
  - cbn [fold_left]. destruct (decide (s = MinInt16)) as [E|E].
    + subst s. rewrite filter_cons_False by (intros H; apply H; reflexivity).
      change (abs_int16 MinInt16) with (-32768).
      destruct (Z.ltb_spec acc (-32768)); [lia|]. apply IH. exact Hacc.
    + rewrite filter_cons_True by exact E.
      unfold is_int16, MinInt16, MaxInt16 in Hs, E.
      rewrite abs_int16_small by lia. cbn [max_abs foldr].
      fold (max_abs (filter (fun s0 => s0 <> MinInt16) w)).
      destruct (Z.ltb_spec acc (Z.abs s)); rewrite IH by lia; lia.
Qed.

Lemma FindPeakAmplitude_general (w : waveform) :
  wf_waveform w ->
  FindPeakAmplitude w = max_abs (filter (fun s => s <> MinInt16) w) /\
  0 <= FindPeakAmplitude w <= MaxInt16.
Proof.
  intros Hw. unfold FindPeakAmplitude. rewrite peak_fold_general by (assumption || lia).
  pose proof (max_abs_nonneg (filter (fun s => s <> MinInt16) w)) as Hn.
  split; [lia|]. split; [lia|].
  rewrite Z.max_r by lia. apply max_abs_le; [unfold MaxInt16; lia|].
  apply Forall_forall. intros s Hs. apply list_elem_of_filter in Hs as [Hne Hin].
  unfold wf_waveform in Hw. rewrite Forall_forall in Hw. specialize (Hw s Hin).
  unfold is_int16, MinInt16, MaxInt16 in *. lia.
Qed.

(** X3. On every waveform of int16 samples FindPeakAmplitude returns the
    largest absolute value among the samples other than -32768, which it
    skips; the result lies in [0, 32767], it bounds the absolute value of
    every sample other than -32768, and it is the largest absolute value
    of all samples when -32768 does not occur. *)
Theorem FindPeakAmplitude_skips_min (w : waveform) :
  wf_waveform w ->
  FindPeakAmplitude w = max_abs (filter (fun s => s <> MinInt16) w) /\
  0 <= FindPeakAmplitude w <= MaxInt16 /\
  (forall s, s ∈ w -> s <> MinInt16 -> Z.abs s <= FindPeakAmplitude w) /\
  (MinInt16 ∉ w -> FindPeakAmplitude w = max_abs w).
Proof.
  intros Hw. destruct (FindPeakAmplitude_general w Hw) as [E B].
  split; [exact E|]. split; [exact B|]. split.
  - intros s Hin Hne. rewrite E. apply max_abs_ge.
    apply list_elem_of_filter. split; assumption.
  - intros Hnot. rewrite E. f_equal.
    clear E B Hw. induction w as [|a w IH]; [reflexivity|].
    rewrite filter_cons_True.
    + f_equal. apply IH. intros H. apply Hnot. right. exact H.
    + intros ->. apply Hnot. left.
Qed.

Lemma FindPeakAmplitude_skips_min_witness :
  FindPeakAmplitude [-32768; 5; -7]
  = max_abs (filter (fun s => s <> MinInt16) [-32768; 5; -7]) /\
  0 <= FindPeakAmplitude [-32768; 5; -7] <= MaxInt16 /\
  (forall s, s ∈ [-32768; 5; -7] -> s <> MinInt16 ->
             Z.abs s <= FindPeakAmplitude [-32768; 5; -7]) /\
  (MinInt16 ∉ [-32768; 5; -7] -> FindPeakAmplitude [-32768; 5; -7] = max_abs [-32768; 5; -7]).
Proof.
  apply (FindPeakAmplitude_skips_min [-32768; 5; -7]). solve_wf.
Defined.

(** ** Trailing silence *)

Lemma peak_fold_nonneg (w : waveform) acc :
  0 <= acc ->
  0 <= fold_left (fun maxAmplitude sample =>
               let abs := abs_int16 sample in
               if maxAmplitude <? abs then abs else maxAmplitude) w acc.
Proof.
  revert acc. induction w as [|s w IH]; intros acc H; [exact H|].
  cbn [fold_left]. apply IH. destruct (Z.ltb_spec acc (abs_int16 s)); lia.
Qed.

Lemma peak_fold_zeros k acc :
  0 <= acc ->
  fold_left (fun maxAmplitude sample =>
               let abs := abs_int16 sample in
               if maxAmplitude <? abs then abs else maxAmplitude) (replicate k 0) acc
  = acc.
Proof.
  intros H. induction k as [|k IH]; [reflexivity|].
  cbn [replicate fold_left]. change (abs_int16 0) with 0.
  destruct (Z.ltb_spec acc 0); [lia|]. exact IH.
Qed.

Lemma FindPeakAmplitude_trailing_zeros (w : waveform) k :
  FindPeakAmplitude (w ++ replicate k 0) = FindPeakAmplitude w.
Proof.
  unfold FindPeakAmplitude. rewrite fold_left_app.
  apply peak_fold_zeros, peak_fold_nonneg. lia.
Qed.

(** X4. Padding leaves the peaks alone: each waveform returned by
    PadSamples has the peak amplitude of the waveform it was made from,
    whatever the samples are. *)
Theorem PadSamples_keeps_peak (wave1 wave2 : waveform) :
  let '(padded1, padded2) := PadSamples wave1 wave2 in
  FindPeakAmplitude padded1 = FindPeakAmplitude wave1 /\
  FindPeakAmplitude padded2 = FindPeakAmplitude wave2.
Proof.
  rewrite PadSamples_app. split; apply FindPeakAmplitude_trailing_zeros.
Qed.

(** ** The outcomes of the three mixers *)

Lemma rms_inner_ok n i (samples : list waveform) :
  Forall (fun w => length w = n) samples -> (i < n)%nat ->
  forall j0 acc, exists sumSquares,
    for_each (rms_step n i) j0 samples acc = Ret sumSquares.
Proof.
  intros Hl Hi. induction Hl as [|w samples Hw Hl IH]; intros j0 acc.
  - simpl. eauto.
  - cbn [for_each]. rewrite rms_step_ok by assumption. apply IH.
Qed.

Lemma weighted_inner_ok n (weights : list float64) i (samples : list waveform) :
  Forall (fun w => length w = n) samples -> (i < n)%nat ->
  forall j0 acc, (j0 + length samples <= length weights)%nat ->
    exists sum, for_each (weighted_step n weights i) j0 samples acc = Ret sum.
Proof.
  intros Hl Hi. induction Hl as [|w samples Hw Hl IH]; intros j0 acc Hj.
  - simpl. eauto.
  - cbn [for_each]. cbn [length] in Hj.
    destruct (lookup_lt_is_Some_2 weights j0 ltac:(lia)) as [wj Hwj].
    rewrite (weighted_step_ok n weights i j0 w acc wj) by assumption.
    apply IH. lia.
Qed.

Lemma RMSMixing_equal_lengths (first : waveform) rest :
  Forall (fun w => length w = length first) (first :: rest) ->
  exists out, RMSMixing (first :: rest) = Ret out /\ length out = length first.
Proof.
  intros Hl. unfold RMSMixing.
  apply (for_range_inv (rms_body (length first) (first :: rest))
           (fun s : waveform => length s = length first) (length first)).
  - intros i s Hi Hs. unfold rms_body.
    destruct (rms_inner_ok (length first) i (first :: rest) Hl Hi 0%nat (f64_of_int 0))
      as [sq ->].
    cbn [mbind outcome_bind]. rewrite store_in_range by lia.
    eexists. split; [reflexivity|]. rewrite length_insert. exact Hs.
  - lia.
  - apply length_replicate.
Qed.

Lemma WeightedSummation_equal_lengths (weights : list float64) (first : waveform) rest :
  length weights = length (first :: rest) ->
  Forall (fun w => length w = length first) (first :: rest) ->
  exists out, WeightedSummation weights (first :: rest) = Ret out /\
              length out = length first.
Proof.
  intros Hw Hl. unfold WeightedSummation.
  destruct (decide (length weights ≠ length (first :: rest))) as [N|_]; [contradiction|].
  apply (for_range_inv (weighted_body (length first) weights (first :: rest))
           (fun s : waveform => length s = length first) (length first)).
  - intros i s Hi Hs. unfold weighted_body.
    destruct (weighted_inner_ok (length first) weights i (first :: rest) Hl Hi
                0%nat (f64_of_int 0) ltac:(lia)) as [sq ->].
    cbn [mbind outcome_bind]. rewrite store_in_range by lia.
    eexists. split; [reflexivity|]. rewrite length_insert. exact Hs.
  - lia.
  - apply length_replicate.
Qed.

Lemma lengths_agree_or_not (samples : list waveform) n :
  Forall (fun w => length w = n) samples \/ Exists (fun w => length w ≠ n) samples.
Proof.
  induction samples as [|w samples IH].
  - left. constructor.
  - destruct (decide (length w = n)) as [E|E].
    + destruct IH as [IH|IH]; [left; constructor; assumption | right; right; exact IH].
    + right. left. exact E.
Qed.

Lemma LinearSummation_cases (first : waveform) rest :
  ((first = [] \/ Forall (fun w => length w = length first) (first :: rest)) /\
   exists out, LinearSummation (first :: rest) = Ret out /\ length out = length first) \/
  (first <> [] /\ Exists (fun w => length w ≠ length first) (first :: rest) /\
   LinearSummation (first :: rest) = Fail LengthMismatch).
Proof.
  destruct first as [|s first].
  - left. split; [left; reflexivity|]. exists []. split; reflexivity.
  - destruct (lengths_agree_or_not ((s :: first) :: rest) (length (s :: first))) as [H|H].
    + left. split; [right; exact H|].
      rewrite (LinearSummation_wrapped _ (s :: first) rest eq_refl H).
      eexists. split; [reflexivity|]. rewrite length_map, length_seq. reflexivity.
    + right. split; [discriminate|]. split; [exact H|].
      apply (LinearSummation_mismatch _ (s :: first) rest eq_refl); [discriminate|exact H].
Qed.

Lemma RMSMixing_cases (first : waveform) rest :
  ((first = [] \/ Forall (fun w => length w = length first) (first :: rest)) /\
   exists out, RMSMixing (first :: rest) = Ret out /\ length out = length first) \/
  (first <> [] /\ Exists (fun w => length w ≠ length first) (first :: rest) /\
   RMSMixing (first :: rest) = Fail LengthMismatch).
Proof.
  destruct first as [|s first].
  - left. split; [left; reflexivity|]. exists []. split; reflexivity.
  - destruct (lengths_agree_or_not ((s :: first) :: rest) (length (s :: first))) as [H|H].
    + left. split; [right; exact H|]. apply RMSMixing_equal_lengths. exact H.
    + right. split; [discriminate|]. split; [exact H|].
      apply (RMSMixing_mismatch _ (s :: first) rest eq_refl); [discriminate|exact H].
Qed.

Lemma WeightedSummation_cases (weights : list float64) (first : waveform) rest :
  (length weights ≠ length (first :: rest) /\
   WeightedSummation weights (first :: rest) = Fail WeightCountMismatch) \/
  (length weights = length (first :: rest) /\
   (first = [] \/ Forall (fun w => length w = length first) (first :: rest)) /\
   exists out, WeightedSummation weights (first :: rest) = Ret out /\
               length out = length first) \/
  (length weights = length (first :: rest) /\
   first <> [] /\ Exists (fun w => length w ≠ length first) (first :: rest) /\
   WeightedSummation weights (first :: rest) = Fail LengthMismatch).
Proof.
  destruct (decide (length weights = length (first :: rest))) as [E|E].
  2:{ left. split; [exact E|]. unfold WeightedSummation.
      destruct (decide (length weights ≠ length (first :: rest))); [reflexivity|contradiction]. }
  right. destruct first as [|s first].
  - left. split; [exact E|]. split; [left; reflexivity|]. exists [].
    unfold WeightedSummation.
    destruct (decide (length weights ≠ length ([] :: rest))); [contradiction|].
    split; reflexivity.
  - destruct (lengths_agree_or_not ((s :: first) :: rest) (length (s :: first))) as [H|H].
    + left. split; [exact E|]. split; [right; exact H|].
      apply WeightedSummation_equal_lengths; assumption.
    + right. split; [exact E|]. split; [discriminate|]. split; [exact H|].
      apply (WeightedSummation_mismatch weights _ (s :: first) rest eq_refl);
        [discriminate|exact H|exact E].
Qed.

(** X5. None of the three mixers can panic with an index out of range,
    whatever waveforms and weights it is given: each call either returns
    a waveform or fails with one of the three errors. *)
Theorem mixers_never_panic (weights : list float64) (samples : list waveform) :
  LinearSummation samples <> Panic /\
  RMSMixing samples <> Panic /\
  WeightedSummation weights samples <> Panic.
Proof.
  destruct samples as [|first rest].
  - repeat split; try discriminate.
    unfold WeightedSummation. destruct (decide (length weights ≠ length [])); discriminate.
  - split; [|split].
    + destruct (LinearSummation_cases first rest) as [[_ (out & -> & _)]|(_ & _ & ->)];
        discriminate.
    + destruct (RMSMixing_cases first rest) as [[_ (out & -> & _)]|(_ & _ & ->)];
        discriminate.
    + destruct (WeightedSummation_cases weights first rest)
        as [[_ ->]|[(_ & _ & out & -> & _)|(_ & _ & _ & ->)]]; discriminate.
Qed.

Lemma Forall_Exists_lengths (samples : list waveform) n :
  Forall (fun w => length w = n) samples ->
  Exists (fun w => length w ≠ n) samples -> False.
Proof.
  intros HF HE. induction HE as [w l Hw|w l HE IH].
  - inversion HF; subst. contradiction.
  - inversion HF; subst. auto.
Qed.

(** X6. A mixer returns a waveform exactly when it is given at least one
    waveform and either the first one is empty or all have the length of
    the first (WeightedSummation also needs one weight per waveform); the
    waveform returned has the length of the first input. *)
Theorem mixers_succeed_iff (first : waveform) (rest : list waveform) :
  let samples := first :: rest in
  let agree := first = [] \/ Forall (fun w => length w = length first) samples in
  ((exists out, LinearSummation samples = Ret out) <-> agree) /\
  ((exists out, RMSMixing samples = Ret out) <-> agree) /\
  (forall weights : list float64,
      (exists out, WeightedSummation weights samples = Ret out)
      <-> length weights = length samples /\ agree) /\
  (forall out, LinearSummation samples = Ret out -> length out = length first) /\
  (forall out, RMSMixing samples = Ret out -> length out = length first) /\
  (forall weights out, WeightedSummation weights samples = Ret out ->
                       length out = length first).
Proof.
  cbv zeta.
  assert (Hno : first <> [] ->
                Exists (fun w => length w ≠ length first) (first :: rest) ->
                ~ (first = [] \/ Forall (fun w => length w = length first) (first :: rest))).
  { intros Hne HE [H|H]; [contradiction|]. exact (Forall_Exists_lengths _ _ H HE). }
  repeat split.
  - intros [out Ho].
    destruct (LinearSummation_cases first rest) as [[Ha _]|(_ & _ & E)]; [exact Ha|].
    rewrite E in Ho. discriminate.
  - intros Ha.
    destruct (LinearSummation_cases first rest) as [[_ (out & E & _)]|(Hne & HE & _)];
      [eauto|]. destruct (Hno Hne HE Ha).
  - intros [out Ho].
    destruct (RMSMixing_cases first rest) as [[Ha _]|(_ & _ & E)]; [exact Ha|].
    rewrite E in Ho. discriminate.
  - intros Ha.
    destruct (RMSMixing_cases first rest) as [[_ (out & E & _)]|(Hne & HE & _)];
      [eauto|]. destruct (Hno Hne HE Ha).
  - destruct H as [out Ho].
    destruct (WeightedSummation_cases weights first rest)
      as [[_ E]|[(Hw & _)|(_ & _ & _ & E)]]; [|exact Hw|]; rewrite E in Ho; discriminate.
  - destruct H as [out Ho].
    destruct (WeightedSummation_cases weights first rest)
      as [[_ E]|[(_ & Ha & _)|(_ & _ & _ & E)]]; [|exact Ha|]; rewrite E in Ho; discriminate.
  - intros [Hw Ha].
    destruct (WeightedSummation_cases weights first rest)
      as [[N _]|[(_ & _ & out & E & _)|(_ & Hne & HE & _)]];
      [contradiction|eauto|destruct (Hno Hne HE Ha)].
  - intros out Ho.
    destruct (LinearSummation_cases first rest) as [[_ (out' & E & L)]|(_ & _ & E)];
      rewrite E in Ho; [|discriminate]. injection Ho as <-. exact L.
  - intros out Ho.
    destruct (RMSMixing_cases first rest) as [[_ (out' & E & L)]|(_ & _ & E)];
      rewrite E in Ho; [|discriminate]. injection Ho as <-. exact L.
  - intros weights out Ho.
    destruct (WeightedSummation_cases weights first rest)
      as [[_ E]|[(_ & _ & out' & E & L)|(_ & _ & _ & E)]];
      rewrite E in Ho; try discriminate. injection Ho as <-. exact L.
Qed.

(** ** The order of the inputs of LinearSummation *)

Lemma column_sum_perm (samples samples' : list waveform) i :
  samples ≡ₚ samples' -> column_sum samples i = column_sum samples' i.
Proof.
  intros H. induction H as [|w l l' H IH|w w' l|l l' l'' H1 IH1 H2 IH2].
  - reflexivity.
  - simpl. fold (column_sum l i) (column_sum l' i). lia.
  - simpl. lia.
  - congruence.
Qed.

(** X7. LinearSummation does not depend on the order of its inputs: two
    collections of waveforms of one length that are permutations of each
    other give the same result, for any number of inputs (the wrap-around
    of the int32 accumulator included). *)
Theorem LinearSummation_order (samples samples' : list waveform) n :
  samples ≡ₚ samples' ->
  Forall (fun w => length w = n) samples ->
  LinearSummation samples = LinearSummation samples'.
Proof.
  intros Hp Hl.
  assert (Hl' : Forall (fun w => length w = n) samples').
  { rewrite <- Hp. exact Hl. }
  destruct samples as [|first rest].
  { apply Permutation_nil_l in Hp. subst. reflexivity. }
  destruct samples' as [|first' rest'].
  { apply Permutation_nil_r in Hp. discriminate. }
  assert (Hf : length first = n) by (inversion Hl; assumption).
  assert (Hf' : length first' = n) by (inversion Hl'; assumption).
  rewrite (LinearSummation_wrapped _ first rest eq_refl) by (rewrite Hf; exact Hl).
  rewrite (LinearSummation_wrapped _ first' rest' eq_refl) by (rewrite Hf'; exact Hl').
  rewrite Hf, Hf'. f_equal. apply map_ext. intros i.
  rewrite (column_sum_perm _ _ i Hp). reflexivity.
Qed.

Lemma LinearSummation_order_witness :
  LinearSummation [[1; 2]; [30000; -4]; [5000; 6]]
  = LinearSummation [[5000; 6]; [1; 2]; [30000; -4]].
Proof.
  apply (LinearSummation_order _ _ 2%nat).
  - symmetry. apply (Permutation_cons_append [[1; 2]; [30000; -4]] [5000; 6]).
  - repeat constructor.
Defined.

(** ** One input *)

Lemma dyadic_one : dyadic 1 0 = S754_finite false (2 ^ 52) (-52).
Proof. reflexivity. Qed.

Lemma dyadic_div_one x e :
  Z.abs x < 2 ^ 53 -> -999 <= e <= 900 ->
  SFdiv prec emax (dyadic x e) (dyadic 1 0) = dyadic x e.
Proof.
  intros Hx He. rewrite dyadic_one.
  destruct (Z.eq_dec x 0) as [->|Hxn]; [reflexivity|].
  destruct (dyadic_finite x e Hxn Hx) as (mx & -> & Hmx & Hdx & Hzx); [lia|].
  cbv beta iota delta [SFdiv].
  rewrite div_core_53 by (try reflexivity; lia).
  assert (Hq : Zpos mx * 2 ^ 53 = (Zpos mx * 2) * Zpos (2 ^ 52)).
  { change (Zpos (2 ^ 52)) with (2 ^ 52). change (2 ^ 53) with (2 * 2 ^ 52). ring. }
  rewrite Hq, Z.div_mul, Z.mod_mul by lia.
  change (new_location (Zpos (2 ^ 52)) 0) with loc_Exact.
  change (Zpos mx * 2) with (Zpos (mx * 2)).
  rewrite (bra_exact _ (mx * 2) mx 1) by (rewrite ?Pos2Z.inj_mul; lia).
  rewrite xorb_false_r. f_equal. lia.
Qed.

Lemma sqrt_square_abs x : Z.sqrt (x * x) = Z.abs x.
Proof. rewrite <- Z.abs_square. apply Z.sqrt_square, Z.abs_nonneg. Qed.

Lemma rms_one_float x :
  is_int16 x ->
  int16_of_f64
    (clamp_f64 (f64_sqrt (f64_div
       (f64_add (f64_of_int 0) (f64_mul (f64_of_int x) (f64_of_int x)))
       (f64_of_int 1))))
  = Z.min 32767 (Z.abs x).
Proof.
  intros Hx. rewrite square_float by exact Hx.
  unfold is_int16, MinInt16, MaxInt16 in Hx.
  assert (Hxx : 0 <= x * x <= 2 ^ 30) by nia.
  unfold f64_add, f64_div, f64_sqrt. rewrite !f64_of_int_dyadic.
  rewrite dyadic_add by lia. rewrite dyadic_div_one by lia.
  rewrite Z.add_0_l.
  destruct (Z.eq_dec x 0) as [->|Hn]; [reflexivity|].
  rewrite <- (dyadic_shift (x * x) 1 0) by lia.
  change (0 - 1) with (-1).
  destruct (sqrt_half_float (x * x * 2 ^ 1)) as (Hnm & Hpos & Hq); [nia|].
  rewrite int16_of_clamp by exact Hnm. rewrite Hq.
  change (2 ^ 1) with 2. rewrite Z.div_mul by lia.
  rewrite sqrt_square_abs.
  unfold saturate, MinInt16, MaxInt16. lia.
Qed.

Lemma RMSMixing_single (w : waveform) :
  wf_waveform w ->
  RMSMixing [w] = Ret (map (fun x => Z.min 32767 (Z.abs x)) w).
Proof.
  intros Hw. unfold RMSMixing. cbv zeta.
  rewrite <- (map_seq_sample_at (fun x => Z.min 32767 (Z.abs x)) w).
  apply for_range_fill_all. intros i s Hi Hs.
  unfold rms_body. cbn [for_each].
  rewrite (rms_step_ok _ i 0%nat w) by (reflexivity || lia).
  cbn [mbind outcome_bind].
  pose proof (sample_at_int16 w i Hw Hi) as Hx.
  change (Z.of_nat (length [w])) with 1.
  rewrite rms_one_float by assumption.
  apply store_in_range. lia.
Qed.

Lemma RMSMixing_self (w : waveform) :
  wf_waveform w ->
  RMSMixing [w; w] = Ret (map (fun x => Z.min 32767 (Z.abs x)) w).
Proof.
  intros Hw. rewrite RMSMixing_pair by (assumption || reflexivity).
  f_equal. clear Hw. induction w as [|x w IH]; [reflexivity|].
  cbn [zip_with map]. rewrite IH. f_equal. f_equal.
  replace (x * x + x * x) with (x * x * 2) by ring.
  rewrite Z.div_mul by lia. apply sqrt_square_abs.
Qed.

(** X8. RMSMixing rectifies: given one waveform, or the same waveform
    twice (as [cmd/rms] does with its first input file), it returns the
    absolute values of the samples, 32768 being clamped to 32767, so the
    sign of every sample is lost. *)
Theorem RMSMixing_rectifies (w : waveform) :
  wf_waveform w ->
  RMSMixing [w] = Ret (map (fun x => Z.min 32767 (Z.abs x)) w) /\
  RMSMixing [w; w] = Ret (map (fun x => Z.min 32767 (Z.abs x)) w).
Proof.
  intros Hw. split; [apply RMSMixing_single | apply RMSMixing_self]; exact Hw.
Qed.

Lemma RMSMixing_rectifies_witness :
  RMSMixing [[100; -200; -32768]] = Ret (map (fun x => Z.min 32767 (Z.abs x)) [100; -200; -32768]) /\
  RMSMixing [[100; -200; -32768]; [100; -200; -32768]]
  = Ret (map (fun x => Z.min 32767 (Z.abs x)) [100; -200; -32768]).
Proof.
  apply (RMSMixing_rectifies [100; -200; -32768]). solve_wf.
Defined.

(** ** Unit weights *)

Lemma f64_one_dyadic : f64_one = dyadic 1 0.
Proof. reflexivity. Qed.

Lemma unit_sum_float x y :
  is_int16 x -> is_int16 y ->
  f64_add (f64_add (f64_of_int 0) (f64_mul (f64_of_int x) f64_one))
          (f64_mul (f64_of_int y) f64_one)
  = dyadic (x + y) 0.
Proof.
  unfold is_int16, MinInt16, MaxInt16. intros Hx Hy.
  unfold f64_add, f64_mul. rewrite !f64_of_int_dyadic, f64_one_dyadic.
  rewrite !dyadic_mul by lia. rewrite !Z.mul_1_r. simpl (0 + 0).
  rewrite !dyadic_add by lia. reflexivity.
Qed.

Lemma int_sum_convert z :
  Z.abs z < 2 ^ 53 -> int16_of_f64 (clamp_f64 (dyadic z 0)) = saturate z.
Proof.
  intros Hz. rewrite int16_of_clamp by (apply dyadic_normal; lia).
  rewrite dyadic_sval by lia. change (0 + 1074) with 1074.
  rewrite Z.quot_mul by (apply Z.neq_sym, Z.lt_neq, U_pos). reflexivity.
Qed.

Lemma WeightedSummation_ones (a b : waveform) :
  wf_waveform a -> wf_waveform b -> length a = length b ->
  WeightedSummation [f64_one; f64_one] [a; b]
  = Ret (zip_with (fun x y => saturate (x + y)) a b).
Proof.
  intros Ha Hb Hl. unfold WeightedSummation.
  destruct (decide (length [f64_one; f64_one] ≠ length [a; b])) as [Hd|_];
    [simpl in Hd; congruence|].
  cbv zeta. rewrite <- map_seq_zip_with by exact Hl.
  apply for_range_fill_all. intros i s Hi Hs.
  unfold weighted_body. cbn [for_each].
  rewrite (weighted_step_ok _ _ i 0%nat a _ f64_one) by (reflexivity || lia).
  cbn [mbind outcome_bind].
  rewrite (weighted_step_ok _ _ i 1%nat b _ f64_one) by (reflexivity || lia).
  cbn [mbind outcome_bind].
  pose proof (sample_at_int16 a i Ha Hi) as Hx.
  pose proof (sample_at_int16 b i Hb ltac:(lia)) as Hy.
  rewrite unit_sum_float by assumption.
  unfold is_int16, MinInt16, MaxInt16 in Hx, Hy.
  rewrite int_sum_convert by lia.
  apply store_in_range. lia.
Qed.

Lemma LinearSummation_two (a b : waveform) :
  wf_waveform a -> wf_waveform b -> length a = length b ->
  LinearSummation [a; b] = Ret (zip_with (fun x y => saturate (x + y)) a b).
Proof.
  intros Ha Hb Hl.
  rewrite (LinearSummation_columns [a; b] a [b] eq_refl); [| | |simpl; lia].
  - rewrite <- map_seq_zip_with by exact Hl. f_equal. apply map_ext. intros i.
    rewrite column_sum_two. reflexivity.
  - repeat constructor; assumption.
  - repeat constructor. symmetry. exact Hl.
Qed.

(** X9. With the weights 1.0 and 1.0 WeightedSummation is
    LinearSummation: for two waveforms of one length both return the
    saturated sums of the samples. *)
Theorem WeightedSummation_unit_weights (a b : waveform) :
  wf_waveform a -> wf_waveform b -> length a = length b ->
  WeightedSummation [f64_one; f64_one] [a; b] = LinearSummation [a; b] /\
  LinearSummation [a; b] = Ret (zip_with (fun x y => saturate (x + y)) a b).
Proof.
  intros Ha Hb Hl.
  rewrite WeightedSummation_ones, LinearSummation_two by assumption.
  split; reflexivity.
Qed.

Lemma WeightedSummation_unit_weights_witness :
  WeightedSummation [f64_one; f64_one] [[1000; 30000; -7]; [2000; 30000; -32768]]
  = LinearSummation [[1000; 30000; -7]; [2000; 30000; -32768]] /\
  LinearSummation [[1000; 30000; -7]; [2000; 30000; -32768]]
  = Ret (zip_with (fun x y => saturate (x + y)) [1000; 30000; -7] [2000; 30000; -32768]).
Proof.
  apply (WeightedSummation_unit_weights [1000; 30000; -7] [2000; 30000; -32768]).
  - solve_wf.
  - solve_wf.
  - reflexivity.
Defined.

(** ** The averaging loop of cmd/mix *)

Lemma average_body_ok (wave combined : waveform) i x y :
  combined !! i = Some x -> wave !! i = Some y ->
  is_int16 x -> is_int16 y ->
  average_body wave i combined = Ret (<[i := Z.quot (x + y) 2]> combined).
Proof.
  intros Hc Hw Hx Hy. unfold average_body, index. rewrite Hc, Hw.
  cbn [mbind outcome_bind].
  unfold is_int16, MinInt16, MaxInt16 in *.
  unfold int32_add. rewrite wrap32_id by lia.
  assert (Hq : -32768 <= (x + y) ÷ 2 <= 32767).
  { split.
    - apply Z.quot_le_lower_bound; lia.
    - apply Z.quot_le_upper_bound; lia. }
  destruct (Z.ltb_spec 32767 ((x + y) ÷ 2)); [lia|].
  destruct (Z.ltb_spec ((x + y) ÷ 2) (-32768)); [lia|].
  unfold int16_of_int. rewrite wrap16_id by (unfold is_int16, MinInt16, MaxInt16; lia).
  apply store_in_range. apply lookup_lt_Some in Hc. exact Hc.
Qed.

Lemma average_loop (wave : waveform) :
  forall (todo done rest pre : waveform),
    wave = pre ++ rest -> length done = length pre -> length todo = length rest ->
    wf_waveform todo -> wf_waveform rest ->
    for_range (average_body wave) (length done) (length todo) (done ++ todo)
    = Ret (done ++ zip_with (fun x y => Z.quot (x + y) 2) todo rest).
Proof.
  induction todo as [|x todo IH]; intros done rest pre Hw Hd Hl Ht Hr.
  - reflexivity.
  - destruct rest as [|y rest]; [discriminate|].
    cbn [length for_range zip_with].
    apply Forall_cons in Ht as [Hx Ht'].
    apply Forall_cons in Hr as [Hy Hr'].
    rewrite (average_body_ok _ _ _ x y); try assumption.
    + cbn [mbind outcome_bind].
      rewrite insert_app_r_alt by lia. rewrite Nat.sub_diag. cbn [insert list_insert].
      replace (Datatypes.S (length done)) with (length (done ++ [(x + y) ÷ 2]))
        by (rewrite length_app; simpl; lia).
      rewrite (cons_middle _ done todo), app_assoc.
      rewrite (IH (done ++ [(x + y) ÷ 2]) rest (pre ++ [y])).
      * rewrite <- app_assoc. reflexivity.
      * rewrite Hw, <- app_assoc. reflexivity.
      * rewrite !length_app. simpl. lia.
      * simpl in Hl. lia.
      * assumption.
      * assumption.
    + apply list_lookup_middle. reflexivity.
    + rewrite Hw. apply list_lookup_middle. exact Hd.
Qed.

Lemma average_mix_quot (combined wave : waveform) :
  wf_waveform combined -> wf_waveform wave -> length combined = length wave ->
  average_mix combined wave
  = Ret (zip_with (fun x y => Z.quot (x + y) 2) combined wave).
Proof.
  intros Hc Hw Hl. unfold average_mix.
  exact (average_loop wave combined [] wave [] eq_refl eq_refl Hl Hc Hw).
Qed.

Lemma WeightedSummation_mean (a b : waveform) :
  wf_waveform a -> wf_waveform b -> length a = length b ->
  WeightedSummation [f64_half; f64_half] [a; b]
  = Ret (zip_with (fun x y => Z.quot (x + y) 2) a b).
Proof.
  intros Ha Hb Hl. unfold WeightedSummation.
  destruct (decide (length [f64_half; f64_half] ≠ length [a; b])) as [Hd|_];
    [simpl in Hd; congruence|].
  cbv zeta. rewrite <- map_seq_zip_with by exact Hl.
  apply for_range_fill_all. intros i s Hi Hs.
  unfold weighted_body. cbn [for_each].
  rewrite (weighted_step_ok _ _ i 0%nat a _ f64_half) by (reflexivity || lia).
  cbn [mbind outcome_bind].
  rewrite (weighted_step_ok _ _ i 1%nat b _ f64_half) by (reflexivity || lia).
  cbn [mbind outcome_bind].
  pose proof (sample_at_int16 a i Ha Hi) as Hx.
  pose proof (sample_at_int16 b i Hb ltac:(lia)) as Hy.
  rewrite half_sum_float, half_sum_convert by assumption.
  apply store_in_range. lia.
Qed.

(** X10. The averaging loop of [cmd/mix], which works on int32 values and
    overwrites [combined] in place, never clamps and computes what
    WeightedSummation computes in floating point with the weights 0.5 and
    0.5: the sum of the two samples divided by two, truncated toward
    zero. *)
Theorem average_mix_is_weighted_halves (combined wave : waveform) :
  wf_waveform combined -> wf_waveform wave -> length combined = length wave ->
  average_mix combined wave
  = Ret (zip_with (fun x y => Z.quot (x + y) 2) combined wave) /\
  average_mix combined wave = WeightedSummation [f64_half; f64_half] [combined; wave].
Proof.
  intros Hc Hw Hl.
  rewrite average_mix_quot, WeightedSummation_mean by assumption.
  split; reflexivity.
Qed.

Lemma average_mix_is_weighted_halves_witness :
  average_mix [1000; -3; 7; -32768] [2000; -4; 0; -32768]
  = Ret (zip_with (fun x y => Z.quot (x + y) 2) [1000; -3; 7; -32768] [2000; -4; 0; -32768]) /\
  average_mix [1000; -3; 7; -32768] [2000; -4; 0; -32768]
  = WeightedSummation [f64_half; f64_half] [[1000; -3; 7; -32768]; [2000; -4; 0; -32768]].
Proof.
  apply (average_mix_is_weighted_halves [1000; -3; 7; -32768] [2000; -4; 0; -32768]).
  - solve_wf.
  - solve_wf.
  - reflexivity.
Defined.

(** ** One round of the commands' loops *)

Lemma sample_at_pad (w : waveform) k i :
  sample_at (w ++ replicate k 0) i = sample_at w i.
Proof.
  unfold sample_at. destruct (decide (i < length w)%nat) as [H|H].
  - rewrite lookup_app_l by exact H. reflexivity.
  - rewrite lookup_app_r by lia. rewrite (lookup_ge_None_2 w i) by lia.
    destruct (replicate k 0 !! (i - length w)%nat) as [z|] eqn:E; [|reflexivity].
    apply lookup_replicate in E as [-> _]. reflexivity.
Qed.

Lemma zip_with_padded (g : Z -> Z -> Z) (a b : waveform) :
  zip_with g (PadSamples a b).1 (PadSamples a b).2
  = map (fun i => g (sample_at a i) (sample_at b i))
        (seq 0 (Nat.max (length a) (length b))).
Proof.
  pose proof (PadSamples_lengths a b) as Hl.
  rewrite <- map_seq_zip_with by exact Hl.
  rewrite PadSamples_app. cbn [fst snd].
  rewrite length_app, length_replicate.
  replace (length a + (length b - length a))%nat with (Nat.max (length a) (length b)) by lia.
  apply map_ext. intros i. rewrite !sample_at_pad. reflexivity.
Qed.

Lemma rms_file_map (combined wave : waveform) :
  wf_waveform combined -> wf_waveform wave ->
  rms_file combined wave
  = Ret (map (fun i => Z.min 32767
                         (Z.sqrt ((sample_at combined i * sample_at combined i
                                   + sample_at wave i * sample_at wave i) / 2)))
             (seq 0 (Nat.max (length combined) (length wave)))).
Proof.
  intros Hc Hw. unfold rms_file.
  pose proof (PadSamples_lengths combined wave) as Hl.
  pose proof (PadSamples_wf combined wave Hc Hw) as [H1 H2].
  pose proof (zip_with_padded
                (fun x y => Z.min 32767 (Z.sqrt ((x * x + y * y) / 2))) combined wave) as Hz.
  destruct (PadSamples combined wave) as [p1 p2]. cbn [fst snd] in *.
  rewrite RMSMixing_pair by assumption. rewrite Hz. reflexivity.
Qed.

Lemma mix_file_map (combined wave : waveform) :
  wf_waveform combined -> wf_waveform wave ->
  mix_file combined wave
  = Ret (map (fun i => Z.quot (sample_at combined i + sample_at wave i) 2)
             (seq 0 (Nat.max (length combined) (length wave)))).
Proof.
  intros Hc Hw. unfold mix_file.
  pose proof (PadSamples_lengths combined wave) as Hl.
  pose proof (PadSamples_wf combined wave Hc Hw) as [H1 H2].
  pose proof (zip_with_padded (fun x y => Z.quot (x + y) 2) combined wave) as Hz.
  destruct (PadSamples combined wave) as [p1 p2]. cbn [fst snd] in *.
  rewrite average_mix_quot by assumption. rewrite Hz. reflexivity.
Qed.

Lemma lookup_map_seq (g : nat -> Z) n i :
  (i < n)%nat -> map g (seq 0 n) !! i = Some (g i).
Proof.
  intros Hi. rewrite list_lookup_fmap, lookup_seq_lt by exact Hi. reflexivity.
Qed.

(** X11. One round of the loop of [cmd/rms] (PadSamples, then RMSMixing)
    cannot fail: for any two waveforms it returns a waveform as long as
    the longer one, whose sample [i] is the integer square root of the
    mean of the two squares, clamped to 32767, a sample missing in the
    shorter waveform counting as 0. *)
Theorem rms_file_returns (combined wave : waveform) :
  wf_waveform combined -> wf_waveform wave ->
  exists out,
    rms_file combined wave = Ret out /\
    length out = Nat.max (length combined) (length wave) /\
    (forall i, (i < Nat.max (length combined) (length wave))%nat ->
      out !! i = Some (Z.min 32767
                         (Z.sqrt ((sample_at combined i * sample_at combined i
                                   + sample_at wave i * sample_at wave i) / 2)))).
Proof.
  intros Hc Hw. rewrite rms_file_map by assumption.
  eexists. split; [reflexivity|]. split.
  - rewrite length_map, length_seq. reflexivity.
  - intros i Hi. rewrite (lookup_map_seq _ _ i Hi). reflexivity.
Qed.

Lemma rms_file_returns_witness :
  exists out,
    rms_file [3; -4; 100] [4] = Ret out /\
    length out = 3%nat /\
    (forall i, (i < 3)%nat ->
      out !! i = Some (Z.min 32767
                         (Z.sqrt ((sample_at [3; -4; 100] i * sample_at [3; -4; 100] i
                                   + sample_at [4] i * sample_at [4] i) / 2)))).
Proof.
  exact (rms_file_returns [3; -4; 100] [4] ltac:(solve_wf) ltac:(solve_wf)).
Defined.

(** X12. One round of the loop of [cmd/mix] (PadSamples, then the
    averaging loop) cannot panic: for any two waveforms it returns a
    waveform as long as the longer one, whose sample [i] is the mean of
    the two samples truncated toward zero, a sample missing in the
    shorter waveform counting as 0. *)
Theorem mix_file_returns (combined wave : waveform) :
  wf_waveform combined -> wf_waveform wave ->
  exists out,
    mix_file combined wave = Ret out /\
    length out = Nat.max (length combined) (length wave) /\
    (forall i, (i < Nat.max (length combined) (length wave))%nat ->
      out !! i = Some (Z.quot (sample_at combined i + sample_at wave i) 2)).
Proof.
  intros Hc Hw. rewrite mix_file_map by assumption.
  eexists. split; [reflexivity|]. split.
  - rewrite length_map, length_seq. reflexivity.
  - intros i Hi. rewrite (lookup_map_seq _ _ i Hi). reflexivity.
Qed.

Lemma mix_file_returns_witness :
  exists out,
    mix_file [3; -4; 100] [4] = Ret out /\
    length out = 3%nat /\
    (forall i, (i < 3)%nat ->
      out !! i = Some (Z.quot (sample_at [3; -4; 100] i + sample_at [4] i) 2)).
Proof.
  exact (mix_file_returns [3; -4; 100] [4] ltac:(solve_wf) ltac:(solve_wf)).
Defined.

(** ** LowPassFilter beyond the first sample *)

Lemma LowPassFilter_alpha (samples : waveform) sampleRate cutoffFrequency :
  LowPassFilter samples sampleRate cutoffFrequency
  = (s0 ← index samples 0;
     filteredSamples ← store (replicate (length samples) 0) 0 s0;
     for_range (lowpass_body samples (lowpass_alpha sampleRate cutoffFrequency))
               1 (length samples - 1) filteredSamples).
Proof. reflexivity. Qed.

Lemma for_range_inv_from {S} (body : nat -> S -> outcome S) (I : S -> Prop) n :
  (forall i s, (0 < i < n)%nat -> I s -> exists s', body i s = Ret s' /\ I s') ->
  forall count start s,
    (0 < start)%nat -> (start + count = n)%nat -> I s ->
    exists out, for_range body start count s = Ret out /\ I out.
Proof.
  intros Hb. induction count as [|count IH]; intros start s H0 Hn Hs.
  - exists s. split; [reflexivity|exact Hs].
  - cbn [for_range]. destruct (Hb start s ltac:(lia) Hs) as (s' & -> & Hs').
    cbn [mbind outcome_bind]. apply IH; [lia|lia|exact Hs'].
Qed.

(** X13. The first sample passes LowPassFilter unchanged, whatever the
    sample rate and the cutoff frequency are (zero, negative, infinite or
    NaN included). *)
Theorem LowPassFilter_first_sample (s0 : Z) (rest : waveform) sampleRate cutoffFrequency :
  exists out,
    LowPassFilter (s0 :: rest) sampleRate cutoffFrequency = Ret out /\
    out !! 0%nat = Some s0 /\
    length out = length (s0 :: rest).
Proof.
  rewrite LowPassFilter_alpha. cbn [index lookup list_lookup mbind outcome_bind length].
  rewrite store_in_range by (rewrite length_replicate; lia).
  cbn [mbind outcome_bind replicate insert list_insert].
  replace (Datatypes.S (length rest) - 1)%nat with (length rest) by lia.
  apply (for_range_inv_from
           (lowpass_body (s0 :: rest) (lowpass_alpha sampleRate cutoffFrequency))
           (fun out : waveform => out !! 0%nat = Some s0 /\
                                  length out = Datatypes.S (length rest))
           (Datatypes.S (length rest))).
  - intros i s Hi [Hs0 Hs]. unfold lowpass_body, index.
    destruct (lookup_lt_is_Some_2 s (i - 1)%nat ltac:(lia)) as [prev ->].
    destruct (lookup_lt_is_Some_2 (s0 :: rest) i ltac:(simpl; lia)) as [x ->].
    cbn [mbind outcome_bind]. rewrite store_in_range by lia.
    eexists. split; [reflexivity|]. split.
    + rewrite list_lookup_insert_ne by lia. exact Hs0.
    + rewrite length_insert. exact Hs.
  - lia.
  - lia.
  - split; [reflexivity|]. simpl. rewrite length_replicate. reflexivity.
Qed.

Lemma lowpass_body_ok (samples : waveform) alpha i (s : waveform) prev x :
  s !! (i - 1)%nat = Some prev -> samples !! i = Some x -> (i < length s)%nat ->
  lowpass_body samples alpha i s
  = Ret (<[i := int16_of_f64 (f64_add (f64_of_int prev)
                   (f64_mul alpha (SFsub prec emax (f64_of_int x) (f64_of_int prev))))]> s).
Proof.
  intros Hp Hx Hi. unfold lowpass_body, index. rewrite Hp, Hx.
  cbn [mbind outcome_bind]. apply store_in_range. exact Hi.
Qed.

Lemma sub_self_float c :
  Z.abs c < 2 ^ 53 ->
  SFsub prec emax (f64_of_int c) (f64_of_int c) = S754_zero false.
Proof.
  intros Hc. destruct (Z.eq_dec c 0) as [->|Hn]; [reflexivity|].
  destruct (float_of_nonzero c Hn Hc) as (m & e & -> & _).
  cbv beta iota zeta delta [SFsub].
  rewrite Z.min_id.
  unfold shl_align. rewrite Z.sub_diag. cbn [fst].
  replace (cond_Zopp (c <? 0) (Z.pos m) - cond_Zopp (c <? 0) (Z.pos m)) with 0 by lia.
  reflexivity.
Qed.

Lemma lowpass_step_constant alpha c :
  is_finite alpha -> is_int16 c ->
  int16_of_f64 (f64_add (f64_of_int c)
                  (f64_mul alpha (SFsub prec emax (f64_of_int c) (f64_of_int c))))
  = c.
Proof.
  intros Ha Hc. unfold is_int16, MinInt16, MaxInt16 in Hc.
  rewrite sub_self_float by lia.
  assert (Hz : exists sg, f64_mul alpha (S754_zero false) = S754_zero sg).
  { destruct alpha as [sa| | |sa ma ea]; try contradiction; eexists; reflexivity. }
  destruct Hz as [sg ->].
  assert (Hs : f64_add (f64_of_int c) (S754_zero sg) = f64_of_int c).
  { destruct (Z.eq_dec c 0) as [->|Hn].
    - destruct sg; reflexivity.
    - destruct (float_of_nonzero c Hn ltac:(lia)) as (m & e & -> & _). reflexivity. }
  rewrite Hs, f64_of_int_dyadic, int16_of_f64_int by lia.
  apply wrap16_id. unfold is_int16, MinInt16, MaxInt16. lia.
Qed.

Lemma lowpass_constant_loop alpha c n :
  is_finite alpha -> is_int16 c ->
  forall count start,
    (0 < start)%nat -> (start + count = n)%nat ->
    for_range (lowpass_body (replicate n c) alpha) start count
              (replicate start c ++ replicate count 0)
    = Ret (replicate n c).
Proof.
  intros Ha Hc. induction count as [|count IH]; intros start H0 Hn.
  - cbn [for_range replicate]. rewrite app_nil_r. f_equal. f_equal. lia.
  - cbn [for_range].
    rewrite (lowpass_body_ok _ _ _ _ c c).
    2:{ rewrite lookup_app_l by (rewrite length_replicate; lia).
        apply lookup_replicate_2. lia. }
    2:{ apply lookup_replicate_2. lia. }
    2:{ rewrite length_app, !length_replicate. simpl. lia. }
    rewrite lowpass_step_constant by assumption.
    cbn [mbind outcome_bind].
    rewrite insert_app_r_alt by (rewrite length_replicate; lia).
    rewrite length_replicate, Nat.sub_diag. cbn [replicate insert list_insert].
    rewrite (cons_middle c), app_assoc.
    replace (replicate start c ++ [c]) with (replicate (Datatypes.S start) c)
      by (rewrite <- (replicate_cons_app); reflexivity).
    apply IH; lia.
Qed.

(** ** The smoothing factor for a positive cutoff frequency *)

Lemma SFadd_pos_finite mx ex my ey :
  Zpos (digits2_pos mx) = 53 -> Zpos (digits2_pos my) = 53 ->
  -1074 <= ex <= 900 -> -1074 <= ey <= 900 ->
  exists m e,
    SFadd prec emax (S754_finite false mx ex) (S754_finite false my ey)
    = S754_finite false m e /\
    Zpos (digits2_pos m) = 53 /\ Z.max ex ey <= e <= Z.max ex ey + 2.
Proof.
  intros Hdx Hdy Hex Hey.
  cbv beta iota zeta delta [SFadd].
  set (ez := Z.min ex ey).
  destruct (shl_align_spec mx ex ez) as (ax & -> & Hax); [unfold ez; lia|].
  destruct (shl_align_spec my ey ez) as (ay & -> & Hay); [unfold ez; lia|].
  cbn [fst cond_Zopp].
  change (Zpos ax + Zpos ay) with (Zpos (ax + ay)).
  cbn [binary_normalize].
  pose proof (digits_53_bounds mx Hdx) as Hbx.
  pose proof (digits_53_bounds my Hdy) as Hby.
  set (d := Z.max ex ey - ez).
  assert (Hd : 0 <= d) by (unfold d, ez; lia).
  assert (Hsum : 2 ^ (52 + d) <= Zpos (ax + ay) < 2 ^ (54 + d)).
  { rewrite Pos2Z.inj_add, Hax, Hay.
    pose proof (pow2_pos (ex - ez) ltac:(unfold ez; lia)) as Hpx.
    pose proof (pow2_pos (ey - ez) ltac:(unfold ez; lia)) as Hpy.
    assert (Hlx : 2 ^ (ex - ez) <= 2 ^ d) by (apply Z.pow_le_mono_r; unfold d; lia).
    assert (Hly : 2 ^ (ey - ez) <= 2 ^ d) by (apply Z.pow_le_mono_r; unfold d; lia).
    rewrite !Z.pow_add_r by lia.
    change (2 ^ 54) with (2 * 2 ^ 53).
    assert (Hcase : 2 ^ (ex - ez) = 2 ^ d \/ 2 ^ (ey - ez) = 2 ^ d).
    { unfold d. destruct (Z.max_spec ex ey) as [[_ ->]|[_ ->]]; [right|left]; reflexivity. }
    pose proof (pow2_pos d Hd) as Hpd.
    destruct Hcase as [E|E]; rewrite E in *; nia. }
  pose proof (digits_bounds (ax + ay)) as Hb.
  set (D := Zpos (digits2_pos (ax + ay))) in *.
  assert (HD : 53 + d <= D <= 54 + d).
  { split.
    - assert (52 + d < D); [|lia].
      apply (Z.pow_lt_mono_r_iff 2); [lia|unfold D; lia|lia].
    - assert (D - 1 < 54 + d); [|lia].
      apply (Z.pow_lt_mono_r_iff 2); [lia|lia|lia]. }
  assert (Hez : -1074 <= ez <= 900) by (unfold ez; lia).
  assert (Hmax : ez + d = Z.max ex ey) by (unfold d; lia).
  assert (Hmx : Z.max ex ey <= 900) by lia.
  clearbody ez d.
  rewrite (binary_round_big false (ax + ay) ez (D - 53)) by (fold D; lia).
  destruct (bra_faithful false (ax + ay) ez loc_Exact (D - 53))
    as (m & e & -> & Hdm & He & _); try (fold D; lia).
  exists m, e. split; [reflexivity|]. split; [exact Hdm|]. lia.
Qed.

Lemma lowpass_alpha_finite sampleRate mc ec :
  1 <= sampleRate < 2 ^ 63 ->
  Zpos (digits2_pos mc) = 53 -> -200 <= ec <= 200 ->
  exists m e, lowpass_alpha sampleRate (S754_finite false mc ec) = S754_finite false m e.
Proof.
  intros Hsr Hdc Hec. unfold lowpass_alpha.
  destruct (f64_of_int64 sampleRate ltac:(lia) ltac:(lia)) as (mN & eN & -> & HdN & HeN).
  replace (sampleRate <? 0) with false by (symmetry; apply Z.ltb_ge; lia).
  change (f64_of_int 1) with (S754_finite false (2 ^ 52) (-52)).
  unfold f64_div, f64_mul, f64_add, f64_two_pi.
  destruct (SFmul_faithful false 7074237752028440 (-50) false mc ec)
    as (mp & ep & np & -> & Hdp & Hnp & Hep & _); [reflexivity | assumption | lia |].
  cbn [xorb].
  destruct (SFdiv_faithful false (2 ^ 52) (-52) false mp ep)
    as (mr & er & nr & -> & Hdr & Hnr & Her & _); [reflexivity | assumption | lia |].
  destruct (SFdiv_faithful false (2 ^ 52) (-52) false mN eN)
    as (mt & et & nt & -> & Hdt & Hnt & Het & _); [reflexivity | assumption | lia |].
  cbn [xorb].
  destruct (SFadd_pos_finite mr er mt et) as (ms & es & -> & Hds & Hes);
    [assumption | assumption | lia | lia |].
  destruct (SFdiv_faithful false mt et false ms es)
    as (ma & ea & na & -> & _); [assumption | assumption | lia |].
  cbn [xorb]. eauto.
Qed.

Lemma LowPassFilter_constant_finite (c : Z) (n : nat) sampleRate cutoffFrequency :
  is_int16 c -> (0 < n)%nat ->
  is_finite (lowpass_alpha sampleRate cutoffFrequency) ->
  LowPassFilter (replicate n c) sampleRate cutoffFrequency = Ret (replicate n c).
Proof.
  intros Hc Hn Ha. rewrite LowPassFilter_alpha.
  destruct n as [|n]; [lia|].
  rewrite length_replicate.
  cbn [replicate index lookup list_lookup mbind outcome_bind].
  rewrite store_in_range by (simpl; lia).
  cbn [mbind outcome_bind insert list_insert].
  replace (Datatypes.S n - 1)%nat with n by lia.
  exact (lowpass_constant_loop _ c (Datatypes.S n) Ha Hc n 1%nat ltac:(lia) ltac:(lia)).
Qed.

(** X14. A constant waveform passes LowPassFilter unchanged (silence in
    particular stays silence), for every sample rate of at least 1 and
    every cutoff frequency that is a positive normal float with an
    exponent between -200 and 200, such as the 15000 of [cmd/mix]: the
    smoothing factor is then a finite number. *)
Theorem LowPassFilter_constant (c : Z) (n : nat) sampleRate mc ec :
  is_int16 c -> (0 < n)%nat ->
  1 <= sampleRate < 2 ^ 63 ->
  Zpos (digits2_pos mc) = 53 -> -200 <= ec <= 200 ->
  is_finite (lowpass_alpha sampleRate (S754_finite false mc ec)) /\
  LowPassFilter (replicate n c) sampleRate (S754_finite false mc ec)
  = Ret (replicate n c).
Proof.
  intros Hc Hn Hsr Hd He.
  assert (Ha : is_finite (lowpass_alpha sampleRate (S754_finite false mc ec))).
  { destruct (lowpass_alpha_finite sampleRate mc ec Hsr Hd He) as (m & e & ->). exact I. }
  split; [exact Ha|]. apply LowPassFilter_constant_finite; assumption.
Qed.

Lemma LowPassFilter_constant_witness :
  is_finite (lowpass_alpha 44100 (f64_of_int 15000)) /\
  LowPassFilter (replicate 4 1234) 44100 (f64_of_int 15000) = Ret (replicate 4 1234).
Proof.
  apply (LowPassFilter_constant 1234 4 44100 8246337208320000 (-39)).
  - unfold is_int16, MinInt16, MaxInt16. lia.
  - lia.
  - lia.
  - reflexivity.
  - lia.
Defined.

Lemma nan_alpha cutoffFrequency : lowpass_alpha 0 cutoffFrequency = S754_nan.
Proof.
  unfold lowpass_alpha.
  change (f64_div (f64_of_int 1) (f64_of_int 0)) with (S754_infinity false).
  destruct (f64_div (f64_of_int 1) (f64_mul f64_two_pi cutoffFrequency))
    as [s|[|]| |s m e]; reflexivity.
Qed.

Lemma lowpass_nan_loop (samples : waveform) :
  forall count start (s : waveform),
    (0 < start)%nat -> (start + count = length samples)%nat ->
    length s = length samples ->
    for_range (lowpass_body samples S754_nan) start count s
    = Ret (take start s ++ replicate count 0).
Proof.
  induction count as [|count IH]; intros start s H0 Hn Hs.
  - cbn [for_range replicate]. rewrite app_nil_r, take_ge by lia. reflexivity.
  - cbn [for_range].
    destruct (lookup_lt_is_Some_2 s (start - 1)%nat ltac:(lia)) as [prev Hp].
    destruct (lookup_lt_is_Some_2 samples start ltac:(lia)) as [x Hx].
    rewrite (lowpass_body_ok _ _ _ _ prev x Hp Hx) by lia.
    assert (Hv : int16_of_f64 (f64_add (f64_of_int prev)
                   (f64_mul S754_nan (SFsub prec emax (f64_of_int x) (f64_of_int prev))))
                 = 0).
    { change (f64_mul S754_nan ?d) with S754_nan.
      destruct (f64_of_int prev); reflexivity. }
    rewrite Hv. cbn [mbind outcome_bind].
    rewrite IH by (rewrite ?length_insert; lia).
    rewrite (take_S_r _ _ 0) by (apply list_lookup_insert_eq; lia).
    rewrite take_insert_ge by lia.
    rewrite <- app_assoc. reflexivity.
Qed.

(** X15. With the sample rate 0 the smoothing factor is a NaN for every
    cutoff frequency, and LowPassFilter returns the first sample followed
    by zeros only. *)
Theorem LowPassFilter_zero_rate (s0 : Z) (rest : waveform) cutoffFrequency :
  lowpass_alpha 0 cutoffFrequency = S754_nan /\
  LowPassFilter (s0 :: rest) 0 cutoffFrequency = Ret (s0 :: replicate (length rest) 0).
Proof.
  split; [apply nan_alpha|].
  rewrite LowPassFilter_alpha, nan_alpha.
  cbn [index lookup list_lookup mbind outcome_bind length].
  rewrite store_in_range by (rewrite length_replicate; lia).
  cbn [mbind outcome_bind replicate insert list_insert].
  replace (Datatypes.S (length rest) - 1)%nat with (length rest) by lia.
  rewrite lowpass_nan_loop; [reflexivity|lia|simpl; lia|].
  simpl. rewrite length_replicate. reflexivity.
Qed.

(** ** The estimate of AnalyzeHighestFrequency *)

Lemma count_sign_changes_bounds (w : waveform) :
  0 <= count_sign_changes w <= Z.of_nat (length w - 1).
Proof.
  induction w as [|a w IH]; [simpl; lia|].
  destruct w as [|b w]; [simpl; lia|].
  change (count_sign_changes (a :: b :: w))
    with ((if crossing a b then 1 else 0) + count_sign_changes (b :: w)).
  cbn [length] in *.
  destruct (crossing a b); lia.
Qed.

Lemma count_sign_changes_one_sign (w : waveform) :
  Forall (fun s => 0 <= s) w \/ Forall (fun s => s <= 0) w ->
  count_sign_changes w = 0.
Proof.
  intros H. induction w as [|a w IH]; [reflexivity|].
  destruct w as [|b w]; [reflexivity|].
  change (count_sign_changes (a :: b :: w))
    with ((if crossing a b then 1 else 0) + count_sign_changes (b :: w)).
  assert (Hc : crossing a b = false).
  { destruct (crossing a b) eqn:E; [|reflexivity].
    apply crossing_strict in E.
    destruct H as [H|H]; inversion H as [|? ? Ha H']; inversion H' as [|? ? Hb _];
      subst; lia. }
  rewrite Hc, IH; [reflexivity|].
  destruct H as [H|H]; inversion H; subst; [left|right]; assumption.
Qed.

Lemma frequency_value zc l sampleRate :
  0 <= zc < 2 ^ 63 -> 1 <= l < 2 ^ 63 -> 1 <= sampleRate < 2 ^ 63 ->
  let estimate :=
    f64_div (f64_of_int zc)
            (f64_mul (f64_of_int 2) (f64_div (f64_of_int l) (f64_of_int sampleRate))) in
  (zc = 0 -> estimate = S754_zero false) /\
  (0 < zc -> exists m e, estimate = S754_finite false m e).
Proof.
  intros Hzc Hl Hsr. cbv zeta.
  destruct (f64_of_int64 sampleRate ltac:(lia) ltac:(lia)) as (mN & eN & EN & HdN & HeN).
  destruct (f64_of_int64 l ltac:(lia) ltac:(lia)) as (mL & eL & EL & HdL & HeL).
  rewrite EN, EL.
  replace (sampleRate <? 0) with false by (symmetry; apply Z.ltb_ge; lia).
  replace (l <? 0) with false by (symmetry; apply Z.ltb_ge; lia).
  change (f64_of_int 2) with (S754_finite false (2 ^ 52) (-51)).
  unfold f64_div, f64_mul.
  destruct (SFdiv_faithful false mL eL false mN eN)
    as (m & e & n & -> & Hdm & Hn & He & _); [assumption | assumption | lia |].
  destruct (SFmul_faithful false (2 ^ 52) (-51) (xorb false false) m e)
    as (m' & e' & n' & -> & Hdm' & Hn' & He' & _); [reflexivity | assumption | lia |].
  cbn [xorb]. split.
  - intros ->. reflexivity.
  - intros Hpos.
    destruct (f64_of_int64 zc ltac:(lia) ltac:(lia)) as (mZ & eZ & EZ & HdZ & HeZ).
    rewrite EZ.
    replace (zc <? 0) with false by (symmetry; apply Z.ltb_ge; lia).
    destruct (SFdiv_faithful false mZ eZ false m' e')
      as (m2 & e2 & n2 & -> & _); [assumption | assumption | lia |].
    cbn [xorb]. eauto.
Qed.

(** X16. For a non-empty waveform and a positive sample rate the estimate
    of AnalyzeHighestFrequency is +0 when no two neighbours have strictly
    opposite signs (as when all samples are >= 0, or all <= 0) and a
    positive finite number otherwise; the number of crossings counted is
    at most the length minus 1. *)
Theorem AnalyzeHighestFrequency_zero_or_positive (w : waveform) sampleRate :
  w <> [] -> Z.of_nat (length w) < 2 ^ 63 -> 1 <= sampleRate < 2 ^ 63 ->
  0 <= count_sign_changes w <= Z.of_nat (length w - 1) /\
  (Forall (fun s => 0 <= s) w \/ Forall (fun s => s <= 0) w ->
   count_sign_changes w = 0) /\
  (count_sign_changes w = 0 ->
   AnalyzeHighestFrequency w sampleRate = Ret (S754_zero false)) /\
  (0 < count_sign_changes w ->
   exists m e, AnalyzeHighestFrequency w sampleRate = Ret (S754_finite false m e)).
Proof.
  intros Hne Hlen Hsr.
  pose proof (count_sign_changes_bounds w) as Hb.
  split; [exact Hb|]. split; [apply count_sign_changes_one_sign|].
  assert (Hl : 1 <= Z.of_nat (length w)).
  { destruct w; [contradiction|]. cbn [length]. lia. }
  destruct (frequency_value (count_sign_changes w) (Z.of_nat (length w)) sampleRate)
    as [H0 Hp]; [lia | lia | lia |].
  unfold AnalyzeHighestFrequency. cbv zeta. rewrite crossings_count.
  cbn [mbind outcome_bind]. split.
  - intros Hz. f_equal. apply H0. exact Hz.
  - intros Hpos. destruct (Hp Hpos) as (m & e & ->). eauto.
Qed.

Lemma AnalyzeHighestFrequency_zero_or_positive_witness :
  0 <= count_sign_changes [5; -3; 0; 7] <= Z.of_nat (length [5; -3; 0; 7] - 1) /\
  (Forall (fun s => 0 <= s) [5; -3; 0; 7] \/ Forall (fun s => s <= 0) [5; -3; 0; 7] ->
   count_sign_changes [5; -3; 0; 7] = 0) /\
  (count_sign_changes [5; -3; 0; 7] = 0 ->
   AnalyzeHighestFrequency [5; -3; 0; 7] 44100 = Ret (S754_zero false)) /\
  (0 < count_sign_changes [5; -3; 0; 7] ->
   exists m e, AnalyzeHighestFrequency [5; -3; 0; 7] 44100 = Ret (S754_finite false m e)).
Proof.
  apply (AnalyzeHighestFrequency_zero_or_positive [5; -3; 0; 7] 44100).
  - discriminate.
  - simpl. lia.
  - lia.
Defined.

(** ** A zero target *)





(** ** The buffers of LoadWav and SaveWav *)

Lemma loadwav_mono_body_ok (data : list Z) i d (s : waveform) :
  data !! i = Some d -> (2 * i + 1 < length s)%nat ->
  loadwav_mono_body data i s
  = Ret (<[(2 * i + 1)%nat := int16_of_int d]> (<[(2 * i)%nat := int16_of_int d]> s)).
Proof.
  intros Hd Hi. unfold loadwav_mono_body, index. rewrite Hd.
  cbn [mbind outcome_bind]. rewrite store_in_range by lia.
  cbn [mbind outcome_bind]. apply store_in_range. rewrite length_insert. exact Hi.
Qed.

Lemma loadwav_mono_loop (data : list Z) :
  forall (todo pre : list Z) (done : waveform),
    data = pre ++ todo -> length done = (2 * length pre)%nat ->
    for_range (loadwav_mono_body data) (length pre) (length todo)
              (done ++ replicate (length todo * 2) 0)
    = Ret (done ++ concat (map (fun d => [int16_of_int d; int16_of_int d]) todo)).
Proof.
  induction todo as [|d todo IH]; intros pre done Hd Hl.
  - reflexivity.
  - cbn [length for_range map concat].
    rewrite (loadwav_mono_body_ok data _ d).
    2:{ rewrite Hd. apply list_lookup_middle. reflexivity. }
    2:{ rewrite length_app, length_replicate. lia. }
    cbn [mbind outcome_bind].
    change (Datatypes.S (length todo) * 2)%nat with (Datatypes.S (Datatypes.S (length todo * 2))).
    cbn [replicate].
    rewrite (insert_app_r_alt done _ (2 * length pre)) by lia.
    replace (2 * length pre - length done)%nat with 0%nat by lia.
    cbn [insert list_insert].
    rewrite (insert_app_r_alt done _ (2 * length pre + 1)) by lia.
    replace (2 * length pre + 1 - length done)%nat with 1%nat by lia.
    cbn [insert list_insert].
    replace (Datatypes.S (length pre)) with (length (pre ++ [d]))
      by (rewrite length_app; simpl; lia).
    replace (done ++ int16_of_int d :: int16_of_int d :: replicate (length todo * 2) 0)
      with ((done ++ [int16_of_int d; int16_of_int d]) ++ replicate (length todo * 2) 0)
      by (rewrite <- app_assoc; reflexivity).
    rewrite (IH (pre ++ [d]) (done ++ [int16_of_int d; int16_of_int d])).
    + rewrite <- app_assoc. reflexivity.
    + rewrite Hd, <- app_assoc. reflexivity.
    + rewrite !length_app. simpl. lia.
Qed.

Lemma LoadWav_convert_mono (data : list Z) :
  LoadWav_convert 1 data
  = Ret (concat (map (fun d => [int16_of_int d; int16_of_int d]) data)).
Proof.
  unfold LoadWav_convert. cbn [Z.eqb Pos.eqb]. cbv zeta.
  exact (loadwav_mono_loop data data [] [] eq_refl eq_refl).
Qed.

Lemma LoadWav_convert_other (numChannels : Z) (data : list Z) :
  numChannels <> 1 ->
  LoadWav_convert numChannels data = Ret (map int16_of_int data).
Proof.
  intros Hn. unfold LoadWav_convert.
  replace (numChannels =? 1) with false by (symmetry; apply Z.eqb_neq; exact Hn).
  cbv zeta. rewrite <- (map_seq_sample_at int16_of_int data).
  apply for_range_fill_all. intros i s Hi Hs.
  unfold loadwav_stereo_body. rewrite index_in_range by exact Hi.
  cbn [mbind outcome_bind]. apply store_in_range. lia.
Qed.

Lemma savewav_loop :
  forall (todo : waveform) (done : list Z),
    for_each savewav_body (length done) todo (done ++ replicate (length todo) 0)
    = Ret (done ++ todo).
Proof.
  unfold savewav_body. induction todo as [|x todo IH]; intros done.
  - reflexivity.
  - cbn [for_each length replicate].
    rewrite store_in_range by (rewrite length_app; simpl; lia).
    cbn [mbind outcome_bind].
    rewrite insert_app_r_alt by lia. rewrite Nat.sub_diag. cbn [insert list_insert].
    replace (Datatypes.S (length done)) with (length (done ++ [x]))
      by (rewrite length_app; simpl; lia).
    replace (done ++ x :: replicate (length todo) 0)
      with ((done ++ [x]) ++ replicate (length todo) 0)
      by (rewrite <- app_assoc; reflexivity).
    rewrite IH. rewrite <- app_assoc. reflexivity.
Qed.

Lemma SaveWav_buffer_samples (w : waveform) : SaveWav_buffer w = Ret w.
Proof. exact (savewav_loop w []). Qed.

Lemma concat_duplicates_length (w : waveform) (g : Z -> Z) :
  length (concat (map (fun d => [g d; g d]) w)) = (2 * length w)%nat.
Proof. induction w as [|x w IH]; [reflexivity|]. cbn [map concat length app]. lia. Qed.

Lemma concat_duplicates_lookup (w : waveform) (g : Z -> Z) i d :
  w !! i = Some d ->
  concat (map (fun d => [g d; g d]) w) !! (2 * i)%nat = Some (g d) /\
  concat (map (fun d => [g d; g d]) w) !! (2 * i + 1)%nat = Some (g d).
Proof.
  revert i. induction w as [|x w IH]; intros i Hi; [discriminate|].
  destruct i as [|i].
  - injection Hi as ->. split; reflexivity.
  - cbn [map concat app].
    replace (2 * Datatypes.S i)%nat with (Datatypes.S (Datatypes.S (2 * i))) by lia.
    replace (Datatypes.S (Datatypes.S (2 * i)) + 1)%nat
      with (Datatypes.S (Datatypes.S (2 * i + 1))) by lia.
    cbn [lookup list_lookup]. apply IH. exact Hi.
Qed.

(** X18. After decoding, LoadWav turns a one-channel buffer into a
    waveform of twice the length whose samples [2i] and [2i+1] both are
    sample [i] of the buffer narrowed to int16, and a buffer with any
    other channel count into the narrowed samples in the same order. *)
Theorem LoadWav_convert_channels (numChannels : Z) (data : list Z) :
  (exists out,
      LoadWav_convert 1 data = Ret out /\
      length out = (2 * length data)%nat /\
      forall i d, data !! i = Some d ->
                  out !! (2 * i)%nat = Some (int16_of_int d) /\
                  out !! (2 * i + 1)%nat = Some (int16_of_int d)) /\
  (numChannels <> 1 -> LoadWav_convert numChannels data = Ret (map int16_of_int data)).
Proof.
  split; [|apply LoadWav_convert_other].
  rewrite LoadWav_convert_mono. eexists. split; [reflexivity|]. split.
  - apply concat_duplicates_length.
  - intros i d Hd. apply (concat_duplicates_lookup data int16_of_int i d Hd).
Qed.

Lemma map_int16_id (w : waveform) : wf_waveform w -> map int16_of_int w = w.
Proof.
  intros Hw. induction Hw as [|s w Hs Hw IH]; [reflexivity|].
  cbn [map]. rewrite IH. unfold int16_of_int. rewrite wrap16_id by exact Hs. reflexivity.
Qed.

(** X19. The buffer that SaveWav writes holds the samples unchanged and
    is declared as one channel, so LoadWav, given that buffer back,
    returns every sample twice: a waveform saved and loaded again is
    twice as long. *)
Theorem SaveWav_then_LoadWav (w : waveform) :
  wf_waveform w ->
  exists data out,
    SaveWav_buffer w = Ret data /\ data = w /\
    LoadWav_convert 1 data = Ret out /\
    out = concat (map (fun s => [s; s]) w) /\
    length out = (2 * length w)%nat.
Proof.
  intros Hw. exists w. eexists.
  split; [apply SaveWav_buffer_samples|]. split; [reflexivity|].
  split; [apply LoadWav_convert_mono|].
  assert (E : concat (map (fun d => [int16_of_int d; int16_of_int d]) w)
              = concat (map (fun s => [s; s]) w)).
  { f_equal. induction Hw as [|s w Hs Hw IH]; [reflexivity|].
    cbn [map]. rewrite IH. unfold int16_of_int. rewrite wrap16_id by exact Hs.
    reflexivity. }
  split; [exact E|]. rewrite E. apply (concat_duplicates_length w (fun s => s)).
Qed.

Lemma SaveWav_then_LoadWav_witness :
  exists data out,
    SaveWav_buffer [1; -2; 32767] = Ret data /\ data = [1; -2; 32767] /\
    LoadWav_convert 1 data = Ret out /\
    out = concat (map (fun s => [s; s]) [1; -2; 32767]) /\
    length out = 6%nat.
Proof.
  exact (SaveWav_then_LoadWav [1; -2; 32767] ltac:(solve_wf)).
Defined.

(** ** The order of the inputs of RMSMixing *)

Lemma column_squares_nonneg (samples : list waveform) i :
  0 <= column_squares samples i.
Proof.
  induction samples as [|w samples IH]; simpl; [lia|].
  fold (column_squares samples i). nia.
Qed.

Lemma column_squares_perm (samples samples' : list waveform) i :
  samples ≡ₚ samples' -> column_squares samples i = column_squares samples' i.
Proof.
  intros H. induction H as [|w l l' H IH|w w' l|l l' l'' H1 IH1 H2 IH2].
  - reflexivity.
  - simpl. fold (column_squares l i) (column_squares l' i). lia.
  - simpl. lia.
  - congruence.
Qed.

Lemma rms_inner_exact n i (samples : list waveform) :
  Forall wf_waveform samples ->
  Forall (fun w => length w = n) samples ->
  (i < n)%nat ->
  forall j0 acc,
    0 <= acc -> acc + 2 ^ 30 * Z.of_nat (length samples) < 2 ^ 53 ->
    for_each (rms_step n i) j0 samples (dyadic acc 0)
    = Ret (dyadic (acc + column_squares samples i) 0).
Proof.
  intros Hw Hl Hi. induction samples as [|w samples IH]; intros j0 acc Ha Hb.
  - simpl. rewrite Z.add_0_r. reflexivity.
  - apply Forall_cons in Hw as [Hw Hws]. apply Forall_cons in Hl as [Hl Hls].
    cbn [for_each]. rewrite rms_step_ok by assumption.
    cbn [mbind outcome_bind].
    pose proof (sample_at_int16 w i Hw ltac:(lia)) as Hs.
    rewrite square_float by exact Hs.
    unfold is_int16, MinInt16, MaxInt16 in Hs.
    assert (Hxx : 0 <= sample_at w i * sample_at w i <= 2 ^ 30) by nia.
    cbn [length] in Hb. rewrite Nat2Z.inj_succ in Hb.
    unfold f64_add. rewrite dyadic_add by lia.
    rewrite IH by (assumption || lia).
    f_equal. f_equal. simpl. fold (column_squares samples i). lia.
Qed.

Lemma RMSMixing_squares (first : waveform) (rest : list waveform) :
  Forall wf_waveform (first :: rest) ->
  Forall (fun w => length w = length first) (first :: rest) ->
  Z.of_nat (length (first :: rest)) <= 2 ^ 22 ->
  RMSMixing (first :: rest)
  = Ret (map (fun i =>
                int16_of_f64
                  (clamp_f64
                     (f64_sqrt
                        (f64_div (dyadic (column_squares (first :: rest) i) 0)
                                 (f64_of_int (Z.of_nat (length (first :: rest))))))))
             (seq 0 (length first))).
Proof.
  intros Hw Hl Hn. unfold RMSMixing. cbv zeta.
  apply for_range_fill_all. intros i s Hi Hs.
  unfold rms_body.
  change (f64_of_int 0) with (dyadic 0 0).
  rewrite (rms_inner_exact (length first) i (first :: rest) Hw Hl Hi) by lia.
  cbn [mbind outcome_bind]. rewrite Z.add_0_l.
  apply store_in_range. lia.
Qed.

(** X20. RMSMixing does not depend on the order of its inputs: for up to
    2^22 waveforms of one length the sum of the squares is accumulated
    without rounding, so two collections that are permutations of each
    other give the same result. *)
Theorem RMSMixing_order (samples samples' : list waveform) n :
  samples ≡ₚ samples' ->
  Forall wf_waveform samples ->
  Forall (fun w => length w = n) samples ->
  Z.of_nat (length samples) <= 2 ^ 22 ->
  RMSMixing samples = RMSMixing samples'.
Proof.
  intros Hp Hw Hl Hn.
  assert (Hw' : Forall wf_waveform samples') by (rewrite <- Hp; exact Hw).
  assert (Hl' : Forall (fun w => length w = n) samples') by (rewrite <- Hp; exact Hl).
  assert (Hlen : length samples' = length samples) by (rewrite Hp; reflexivity).
  destruct samples as [|first rest].
  { apply Permutation_nil_l in Hp. subst. reflexivity. }
  destruct samples' as [|first' rest'].
  { apply Permutation_nil_r in Hp. discriminate. }
  assert (Hf : length first = n) by (inversion Hl; assumption).
  assert (Hf' : length first' = n) by (inversion Hl'; assumption).
  rewrite (RMSMixing_squares first rest) by (rewrite ?Hf; assumption).
  rewrite (RMSMixing_squares first' rest') by (rewrite ?Hf', ?Hlen; assumption).
  rewrite Hf, Hf', Hlen. f_equal. apply map_ext. intros i.
  rewrite (column_squares_perm _ _ i Hp). reflexivity.
Qed.

Lemma RMSMixing_order_witness :
  RMSMixing [[1; 2]; [30000; -4]; [5000; 6]]
  = RMSMixing [[5000; 6]; [1; 2]; [30000; -4]].
Proof.
  apply (RMSMixing_order _ _ 2%nat).
  - symmetry. apply (Permutation_cons_append [[1; 2]; [30000; -4]] [5000; 6]).
  - repeat (apply Forall_cons; split); try apply Forall_nil;
      unfold is_int16, MinInt16, MaxInt16; lia.
  - repeat constructor.
  - simpl. lia.
Defined.

(** ** A zero cutoff frequency *)

Lemma dyadic_opp_finite y e :
  y <> 0 -> Z.abs y < 2 ^ 53 -> -1000 <= e <= 900 ->
  exists m e',
    dyadic y e = S754_finite (y <? 0) m e' /\
    dyadic (- y) e = S754_finite (negb (y <? 0)) m e'.
Proof.
  intros Hn Hy He.
  destruct (dyadic_finite y e Hn Hy He) as (m & E & Hm & _).
  destruct (dyadic_finite (- y) e ltac:(lia) ltac:(lia) He) as (m' & E' & Hm' & _).
  assert (Hd : Zdigits2 (- y) = Zdigits2 y) by (destruct y; reflexivity).
  rewrite Hd in E', Hm'. rewrite Z.abs_opp in Hm'.
  assert (m' = m) by lia. subst m'.
  exists m, (e + Zdigits2 y - 53). split; [exact E|].
  rewrite E'. f_equal. destruct (Z.ltb_spec y 0), (Z.ltb_spec (- y) 0); reflexivity || lia.
Qed.

Lemma dyadic_sub x y e :
  Z.abs x < 2 ^ 53 -> Z.abs y < 2 ^ 53 -> Z.abs (x - y) < 2 ^ 53 ->
  -1000 <= e <= 900 ->
  SFsub prec emax (dyadic x e) (dyadic y e) = dyadic (x - y) e.
Proof.
  intros Hx Hy Hxy He.
  destruct (Z.eq_dec y 0) as [->|Hy0].
  { rewrite dyadic_zero, Z.sub_0_r.
    destruct (Z.eq_dec x 0) as [->|Hx0]; [reflexivity|].
    destruct (dyadic_finite x e Hx0 Hx He) as (m & -> & _). reflexivity. }
  destruct (Z.eq_dec x 0) as [->|Hx0].
  { rewrite dyadic_zero, Z.sub_0_l.
    destruct (dyadic_opp_finite y e Hy0 Hy He) as (m & e' & -> & ->). reflexivity. }
  destruct (dyadic_finite x e Hx0 Hx He) as (mx & -> & Hmx & Hdx & Hzx).
  destruct (dyadic_finite y e Hy0 Hy He) as (my & -> & Hmy & Hdy & Hzy).
  cbv beta iota zeta delta [SFsub].
  set (ex := e + Zdigits2 x - 53). set (ey := e + Zdigits2 y - 53).
  set (ez := Z.min ex ey).
  destruct (shl_align_spec mx ex ez) as (ax & -> & Hax); [unfold ez; lia|].
  destruct (shl_align_spec my ey ez) as (ay & -> & Hay); [unfold ez; lia|].
  cbn [fst].
  assert (Hk : 0 <= e - ez) by (unfold ez, ex, ey; lia).
  assert (Hsx : cond_Zopp (x <? 0) (Zpos ax) = x * 2 ^ (e - ez)).
  { rewrite Hax, Hmx, <- Z.mul_assoc, <- Z.pow_add_r by (unfold ex; lia).
    replace (53 - Zdigits2 x + (ex - ez)) with (e - ez) by (unfold ex; lia).
    unfold cond_Zopp. destruct (Z.ltb_spec x 0); lia. }
  assert (Hsy : cond_Zopp (y <? 0) (Zpos ay) = y * 2 ^ (e - ez)).
  { rewrite Hay, Hmy, <- Z.mul_assoc, <- Z.pow_add_r by (unfold ey; lia).
    replace (53 - Zdigits2 y + (ey - ez)) with (e - ez) by (unfold ey; lia).
    unfold cond_Zopp. destruct (Z.ltb_spec y 0); lia. }
  rewrite Hsx, Hsy, <- Z.mul_sub_distr_r.
  replace ez with (e - (e - ez)) at 2 by lia.
  apply dyadic_shift; lia.
Qed.

Lemma dyadic_is_finite z e :
  Z.abs z < 2 ^ 53 -> -1000 <= e <= 900 -> is_finite (dyadic z e).
Proof.
  intros Hz He. destruct (Z.eq_dec z 0) as [->|Hn]; [exact I|].
  destruct (dyadic_finite z e Hn Hz He) as (m & -> & _). exact I.
Qed.

Lemma zero_cutoff_alpha sampleRate sg :
  1 <= sampleRate < 2 ^ 63 ->
  lowpass_alpha sampleRate (S754_zero sg) = S754_zero sg.
Proof.
  intros Hsr. unfold lowpass_alpha.
  destruct (f64_of_int64 sampleRate ltac:(lia) ltac:(lia)) as (mN & eN & -> & HdN & HeN).
  replace (sampleRate <? 0) with false by (symmetry; apply Z.ltb_ge; lia).
  change (f64_of_int 1) with (S754_finite false (2 ^ 52) (-52)).
  unfold f64_div, f64_add, f64_mul.
  destruct (SFdiv_faithful false (2 ^ 52) (-52) false mN eN)
    as (m & e & n & -> & _); [reflexivity | assumption | lia |].
  destruct sg; reflexivity.
Qed.

Lemma lowpass_step_zero_alpha sg prev x :
  is_int16 prev -> is_int16 x ->
  int16_of_f64 (f64_add (f64_of_int prev)
                  (f64_mul (S754_zero sg)
                           (SFsub prec emax (f64_of_int x) (f64_of_int prev))))
  = prev.
Proof.
  unfold is_int16, MinInt16, MaxInt16. intros Hp Hx.
  rewrite !f64_of_int_dyadic, dyadic_sub by lia.
  assert (Hz : exists s', f64_mul (S754_zero sg) (dyadic (x - prev) 0) = S754_zero s').
  { pose proof (dyadic_is_finite (x - prev) 0 ltac:(lia) ltac:(lia)) as Hf.
    destruct (dyadic (x - prev) 0); try contradiction; eexists; reflexivity. }
  destruct Hz as [s' ->].
  assert (Hs : f64_add (dyadic prev 0) (S754_zero s') = dyadic prev 0).
  { destruct (Z.eq_dec prev 0) as [->|Hn].
    - destruct s'; reflexivity.
    - destruct (dyadic_finite prev 0 Hn ltac:(lia) ltac:(lia)) as (m & -> & _).
      reflexivity. }
  rewrite Hs, int16_of_f64_int by lia.
  apply wrap16_id. unfold is_int16, MinInt16, MaxInt16. lia.
Qed.

Lemma lowpass_hold_loop (samples : waveform) sg s0 :
  wf_waveform samples -> is_int16 s0 ->
  forall count start,
    (0 < start)%nat -> (start + count = length samples)%nat ->
    for_range (lowpass_body samples (S754_zero sg)) start count
              (replicate start s0 ++ replicate count 0)
    = Ret (replicate (length samples) s0).
Proof.
  intros Hw H0. induction count as [|count IH]; intros start Hs Hn.
  - cbn [for_range replicate]. rewrite app_nil_r. f_equal. f_equal. lia.
  - cbn [for_range].
    destruct (lookup_lt_is_Some_2 samples start ltac:(lia)) as [x Hx].
    rewrite (lowpass_body_ok _ _ _ _ s0 x).
    2:{ rewrite lookup_app_l by (rewrite length_replicate; lia).
        apply lookup_replicate_2. lia. }
    2:{ exact Hx. }
    2:{ rewrite length_app, !length_replicate. simpl. lia. }
    rewrite lowpass_step_zero_alpha.
    2:{ exact H0. }
    2:{ unfold wf_waveform in Hw. rewrite Forall_forall in Hw.
        apply Hw. apply (list_elem_of_lookup_2 _ _ _ Hx). }
    cbn [mbind outcome_bind].
    rewrite insert_app_r_alt by (rewrite length_replicate; lia).
    rewrite length_replicate, Nat.sub_diag. cbn [replicate insert list_insert].
    rewrite (cons_middle s0), app_assoc.
    replace (replicate start s0 ++ [s0]) with (replicate (Datatypes.S start) s0)
      by (rewrite <- (replicate_cons_app); reflexivity).
    apply IH; lia.
Qed.

(** X21. With the cutoff frequency 0 (which is what [cmd/rms] passes
    when no input file has a zero crossing) the smoothing factor is 0
    and LowPassFilter returns its first sample repeated over the whole
    length: the signal is lost. *)
Theorem LowPassFilter_zero_cutoff (s0 : Z) (rest : waveform) sampleRate :
  wf_waveform (s0 :: rest) -> 1 <= sampleRate < 2 ^ 63 ->
  lowpass_alpha sampleRate (f64_of_int 0) = S754_zero false /\
  LowPassFilter (s0 :: rest) sampleRate (f64_of_int 0)
  = Ret (replicate (length (s0 :: rest)) s0).
Proof.
  intros Hw Hsr. change (f64_of_int 0) with (S754_zero false).
  split; [apply zero_cutoff_alpha; exact Hsr|].
  rewrite LowPassFilter_alpha, zero_cutoff_alpha by exact Hsr.
  cbn [index lookup list_lookup mbind outcome_bind].
  rewrite store_in_range by (rewrite length_replicate; simpl; lia).
  cbn [mbind outcome_bind length replicate insert list_insert].
  replace (Datatypes.S (length rest) - 1)%nat with (length rest) by lia.
  assert (H0 : is_int16 s0) by (apply Forall_cons in Hw as [H _]; exact H).
  exact (lowpass_hold_loop (s0 :: rest) false s0 Hw H0 (length rest) 1%nat
           ltac:(lia) ltac:(simpl; lia)).
Qed.

Lemma LowPassFilter_zero_cutoff_witness :
  lowpass_alpha 44100 (f64_of_int 0) = S754_zero false /\
  LowPassFilter [7; 100; -200; 3] 44100 (f64_of_int 0)
  = Ret (replicate (length [7; 100; -200; 3]) 7).
Proof.
  apply (LowPassFilter_zero_cutoff 7 [100; -200; 3] 44100).
  - solve_wf.
  - lia.
Defined.

(** ** The mixing loops of the commands *)














(** ** The commands from the loaded files to the saved waveform *)








